(** * Model loading, tag lookup and skeletal evaluation of the Vulkan renderer

    A shallow embedding of the model registry (tr_model), the MD3 / MDR / IQM
    tag resolvers, the IQM skeletal evaluator (tr_model_iqm.cpp) and the frame
    validation of the MDR / IQM surface submission (tr_animation), followed by
    the properties established about them.

    Conventions
    - C [int] and [uint32_t] values are integers of [Z]; every place where the
      program converts or can wrap is written with [s32] / [u32] / [u64].
    - C [float] is IEEE-754 binary32, taken from the Standard Library's
      [SpecFloat] with 24 bits of precision and exponent bound 128.
    - A read or write outside an array is undefined in C++; functions that can
      perform one return [option], with [None] standing for that fault.
    - Where the sources derive a pointer that leads beside the object it was
      meant for, what the code reads there is taken from a record of the
      memory in that place ([joint_memory], [memory_t]), never from the
      object. *)

From Stdlib Require Import ZArith Bool String Ascii Lia.
From Stdlib Require Import Floats.SpecFloat.
From stdpp Require Import base option list strings.

Local Open Scope Z_scope.
Local Open Scope bool_scope.

(* ================================================================== *)
(** * Part I: the embedding *)
(* ================================================================== *)

(** ** Machine integers *)

Module MachInt.

Definition s32 (z : Z) : Z := (z + 2 ^ 31) mod 2 ^ 32 - 2 ^ 31.
Definition u32 (z : Z) : Z := z mod 2 ^ 32.
Definition u64 (z : Z) : Z := z mod 2 ^ 64.

Definition in_s32 (z : Z) : Prop := - 2 ^ 31 <= z < 2 ^ 31.
Definition in_u32 (z : Z) : Prop := 0 <= z < 2 ^ 32.

End MachInt.
Import MachInt.

(** ** Constants of the engine headers *)

(** The flag, limits, identifiers and structure sizes that the sources take
    from tr_types.h, iqm.h, qfiles.h, q_shared.h and tr_local.h.  Those
    headers are not among the sources, so the embedding is parametric in
    their values. *)
Record constants := mk_constants {
  RF_WRAP_FRAMES : Z;
  IQM_MAX_JOINTS : Z;
  MD3_MAX_LODS : Z;
  MAX_QPATH : Z;
  MAX_MOD_KNOWN : Z;
  MD3_IDENT : Z;
  MDR_IDENT : Z;
  MD3_VERSION : Z;
  sizeof_md3Header_t : Z;
  sizeof_md3Frame_t : Z;
  sizeof_md3Tag_t : Z;
  sizeof_md3Surface_t : Z;
  sizeof_md3Triangle_t : Z;
  sizeof_md3Shader_t : Z;
  sizeof_md3St_t : Z;
  sizeof_md3XyzNormal_t : Z;
  SHADER_MAX_VERTEXES : Z;
  SHADER_MAX_INDEXES : Z
}.

(** The values of the Quake III Arena headers, used for the samples. *)
Definition quake3_constants : constants :=
  mk_constants 512 128 3 64 1024 860898377 894256210 15
    108 56 112 108 12 68 8 8 1000 6000.

(** Every structure has a positive size. *)
Definition sizes_positive (K : constants) : Prop :=
  0 < sizeof_md3Header_t K /\ 0 < sizeof_md3Frame_t K /\ 0 < sizeof_md3Tag_t K /\
  0 < sizeof_md3Surface_t K /\ 0 < sizeof_md3Triangle_t K /\
  0 < sizeof_md3Shader_t K /\ 0 < sizeof_md3St_t K /\ 0 < sizeof_md3XyzNormal_t K.

(** ** IQM header and range check (tr_model_iqm.cpp) *)

(** The fields of [iqmHeader_t] that the modelled code reads. *)
Record iqmHeader_t := mk_iqmHeader {
  filesize : Z;      (* unsigned *)
  num_text : Z;      (* unsigned *)
  h_num_joints : Z;  (* unsigned *)
  h_num_poses : Z;   (* unsigned *)
  h_num_frames : Z   (* unsigned *)
}.

(** [IQM_CheckRange]: [true] means "rejected".  [offset], [count] and [size]
    are [int]; [count * size] and [offset + count * size] are computed in
    [int], the last disjunct in [uint32_t]. *)
Definition IQM_CheckRange (header : iqmHeader_t) (offset count size : Z) : bool :=
  (count <=? 0) ||
  (offset <=? 0) ||
  (u32 offset >? filesize header) ||
  (s32 (offset + s32 (count * size)) <? 0) ||
  (u32 (u32 offset + u32 (s32 (count * size))) >? filesize header).

(** What the comment above [IQM_CheckRange] promises for an accepted triple:
    the byte range fits the file and nothing overflowed on the way. *)
Definition range_fits (header : iqmHeader_t) (offset count size : Z) : Prop :=
  0 < count /\ 0 < offset /\
  in_s32 (count * size) /\ in_s32 (offset + count * size) /\
  offset + count * size <= filesize header.

(** ** Frame validation of the surface submission
       (R_MDRAddAnimSurfaces, R_AddIQMSurfaces) *)

Record refEntity_t := mk_refEntity {
  renderfx : Z;
  frame : Z;
  oldframe : Z
}.

(** C's [%] truncates towards zero; a zero divisor (and INT_MIN % -1) is
    undefined. *)
Definition c_rem (a b : Z) : option Z :=
  if (b =? 0) || ((a =? - 2 ^ 31) && (b =? -1)) then None else Some (Z.rem a b).

(** The [if] that follows the comment "Validate the frames so there is no
    chance of a crash", identical in both functions. *)
Definition validate_frames (numFrames : Z) (ent : refEntity_t) : refEntity_t :=
  if (frame ent >=? numFrames) || (frame ent <? 0) ||
     (oldframe ent >=? numFrames) || (oldframe ent <? 0)
  then mk_refEntity (renderfx ent) 0 0
  else ent.

(** R_AddIQMSurfaces up to and including the validation. *)
Definition R_AddIQMSurfaces_frames (K : constants) (num_frames : Z)
    (ent : refEntity_t)
  : option refEntity_t :=
  if Z.land (renderfx ent) (RF_WRAP_FRAMES K) =? 0
  then Some (validate_frames num_frames ent)
  else
    match c_rem (frame ent) num_frames, c_rem (oldframe ent) num_frames with
    | Some f, Some o => Some (validate_frames num_frames (mk_refEntity (renderfx ent) f o))
    | _, _ => None
    end.

Definition frames_in_range (numFrames : Z) (ent : refEntity_t) : Prop :=
  0 <= frame ent < numFrames /\ 0 <= oldframe ent < numFrames.

(** ** binary32 floating point *)

Module F32.

Definition prec : Z := 24.
Definition emax : Z := 128.

Definition float : Type := spec_float.

Definition add (x y : float) : float := SFadd prec emax x y.
Definition sub (x y : float) : float := SFsub prec emax x y.
Definition mul (x y : float) : float := SFmul prec emax x y.
Definition div (x y : float) : float := SFdiv prec emax x y.
Definition sqrtf (x : float) : float := SFsqrt prec emax x.
Definition neg (x : float) : float := SFopp x.
Definition ltb (x y : float) : bool := SFltb x y.
Definition eqb (x y : float) : bool := SFeqb x y.

(** Conversion of an integer literal, rounded to nearest-even. *)
Definition of_int (z : Z) : float := binary_normalize prec emax z 0 false.

Definition zero : float := S754_zero false.
Definition one : float := of_int 1.
Definition two : float := of_int 2.

(** The literal [0.999999f]: the binary32 value nearest to 999999/1000000
    (both operands are exact, and the division rounds once). *)
Definition lit_0_999999 : float := div (of_int 999999) (of_int 1000000).

(** The truth value C gives a float in [if (x)]: anything but +0 and -0. *)
Definition nonzero (x : float) : bool := negb (eqb x zero).

Definition is_zero (x : float) : bool :=
  match x with S754_zero _ => true | _ => false end.

(** Zero or a finite number that is a well-formed binary32. *)
Definition finite (x : float) : bool :=
  match x with
  | S754_zero _ => true
  | S754_finite _ m e => bounded prec emax m e
  | _ => false
  end.

End F32.

Abbreviation float := F32.float.

Declare Scope f32_scope.
Delimit Scope f32_scope with f32.
Infix "+" := F32.add : f32_scope.
Infix "-" := F32.sub : f32_scope.
Infix "*" := F32.mul : f32_scope.
Infix "/" := F32.div : f32_scope.
Notation "- x" := (F32.neg x) : f32_scope.
Infix "<?" := F32.ltb : f32_scope.

(** ** Vectors, quaternions, orientations (q_shared.h) *)

Record vec3_t := Vec3 { v_0 : float; v_1 : float; v_2 : float }.
Record quat_t := Quat { q_0 : float; q_1 : float; q_2 : float; q_3 : float }.

(** [orientation_t]: the part R_LerpTag writes. *)
Record orientation_t := mk_orientation {
  origin : vec3_t;
  axis_0 : vec3_t;
  axis_1 : vec3_t;
  axis_2 : vec3_t
}.

(** Modelled from the spec: [VectorClear] and [AxisClear] (q_shared.h and
    math.hpp, outside the sources) give the "cleared/identity frame" of a
    failed tag lookup: the first zeroes a vector, the second stores the
    identity axes. *)
Definition VectorClear : vec3_t := Vec3 F32.zero F32.zero F32.zero.

(** Modelled from the spec: the identity axes of the cleared frame. *)
Definition AxisClear (o : vec3_t) : orientation_t :=
  mk_orientation o
    (Vec3 F32.one F32.zero F32.zero)
    (Vec3 F32.zero F32.one F32.zero)
    (Vec3 F32.zero F32.zero F32.one).

(** What R_LerpTag and R_IQMLerpTag leave in [*tag] on failure:
    [AxisClear(tag->axis); VectorClear(tag->origin)]. *)
Definition cleared_orientation : orientation_t := AxisClear VectorClear.

(** Modelled from the spec: [VectorNormalize] (math.hpp, outside the
    sources) normalises one axis vector after blending: scale by
    1/sqrt(length^2) unless the squared length is zero. *)
Definition VectorNormalize (v : vec3_t) : vec3_t :=
  let length := (v_0 v * v_0 v + v_1 v * v_1 v + v_2 v * v_2 v)%f32 in
  if F32.nonzero length then
    let ilength := (F32.one / F32.sqrtf length)%f32 in
    Vec3 (v_0 v * ilength)%f32 (v_1 v * ilength)%f32 (v_2 v * ilength)%f32
  else v.

(** ** Array access *)

(** Reading [l[i]] for a C index [i]; [None] outside the array. *)
Definition rd {A} (l : list A) (i : Z) : option A :=
  if i <? 0 then None else l !! Z.to_nat i.

(** The twelve floats [l[off .. off+11]]. *)
Definition slice12 (l : list float) (off : Z) : option (list float) :=
  if (0 <=? off) && (off + 12 <=? Z.of_nat (length l))
  then Some (take 12 (drop (Z.to_nat off) l))
  else None.

(** Writing twelve floats at [l[off .. off+11]]. *)
Definition store12 (l : list float) (off : Z) (m : list float) : option (list float) :=
  if (0 <=? off) && (off + 12 <=? Z.of_nat (length l))
  then Some (take (Z.to_nat off) l ++ take 12 m ++ drop (Z.to_nat off + 12) l)
  else None.

(** Element [i] of a float array that is known to hold it. *)
Definition fget (l : list float) (i : nat) : float := default F32.zero (l !! i).

(** [Com_Memcpy (dest, src, n * sizeof (float))]. *)
Definition Com_Memcpy (dest src : list float) (n : Z) : option (list float) :=
  if (0 <=? n) && (n <=? Z.of_nat (length src)) && (n <=? Z.of_nat (length dest))
  then Some (take (Z.to_nat n) src ++ drop (Z.to_nat n) dest)
  else None.

(** A [for (i = 0; i < n; i++)] loop whose body can fault. *)
Fixpoint for_loop {S : Type} (n : nat) (i : Z) (body : Z -> S -> option S) (s : S)
  : option S :=
  match n with
  | O => Some s
  | Datatypes.S n' => s' ← body i s; for_loop n' (i + 1) body s'
  end.

(** ** IQM skeletal evaluation (tr_model_iqm.cpp) *)

Record iqmTransform_t := mk_iqmTransform {
  translate : vec3_t;
  rotate : quat_t;
  scale : vec3_t
}.

(** The fields of [iqmData_t] used by the evaluator and the tag lookup.
    [jointNames] is the packed sequence of NUL-terminated names, one entry
    per name; [bindJoints] and [invBindJoints] are flat arrays of twelve
    floats per joint; [poses] holds [num_poses] transforms per frame. *)
Record iqmData_t := mk_iqmData {
  num_frames : Z;
  num_joints : Z;
  num_poses : Z;
  jointNames : list string;
  jointParents : list Z;
  bindJoints : list float;
  invBindJoints : list float;
  poses : list iqmTransform_t
}.

(** One output element of [Matrix34Multiply], [a] and [b] being read through
    accessors. *)
Definition Matrix34Multiply_entry (a b : nat -> float) (k : nat) : float :=
  match k with
  | 0%nat => a 0%nat * b 0%nat + a 1%nat * b 4%nat + a 2%nat * b 8%nat
  | 1%nat => a 0%nat * b 1%nat + a 1%nat * b 5%nat + a 2%nat * b 9%nat
  | 2%nat => a 0%nat * b 2%nat + a 1%nat * b 6%nat + a 2%nat * b 10%nat
  | 3%nat => a 0%nat * b 3%nat + a 1%nat * b 7%nat + a 2%nat * b 11%nat + a 3%nat
  | 4%nat => a 4%nat * b 0%nat + a 5%nat * b 4%nat + a 6%nat * b 8%nat
  | 5%nat => a 4%nat * b 1%nat + a 5%nat * b 5%nat + a 6%nat * b 9%nat
  | 6%nat => a 4%nat * b 2%nat + a 5%nat * b 6%nat + a 6%nat * b 10%nat
  | 7%nat => a 4%nat * b 3%nat + a 5%nat * b 7%nat + a 6%nat * b 11%nat + a 7%nat
  | 8%nat => a 8%nat * b 0%nat + a 9%nat * b 4%nat + a 10%nat * b 8%nat
  | 9%nat => a 8%nat * b 1%nat + a 9%nat * b 5%nat + a 10%nat * b 9%nat
  | 10%nat => a 8%nat * b 2%nat + a 9%nat * b 6%nat + a 10%nat * b 10%nat
  | 11%nat => a 8%nat * b 3%nat + a 9%nat * b 7%nat + a 10%nat * b 11%nat + a 11%nat
  | _ => F32.zero
  end%f32.

(** [Matrix34Multiply (a, b, out)] when [out] is an array of its own: the
    twelve assignments read the unchanged [a] and [b]. *)
Definition Matrix34Multiply (a b : list float) : list float :=
  (fun k => Matrix34Multiply_entry (fget a) (fget b) k) <$> seq 0 12.

(** [Matrix34Multiply (&buf[aoff], b, &buf[ooff])]: [a] and [out] live in the
    same buffer, so each of the twelve assignments, in source order, reads
    [a] from the buffer as the earlier assignments left it. *)
Fixpoint Matrix34Multiply_inplace (buf : list float) (aoff : nat) (b : list float)
  (ooff : nat) (ks : list nat) : list float :=
  match ks with
  | [] => buf
  | k :: ks' =>
      let v := Matrix34Multiply_entry (fun j => fget buf (aoff + j)) (fget b) k in
      Matrix34Multiply_inplace (<[(ooff + k)%nat := v]> buf) aoff b ooff ks'
  end.

Definition JointToMatrix (rot : quat_t) (scale : vec3_t) (trans : vec3_t) : list float :=
  let xx := (F32.two * q_0 rot * q_0 rot)%f32 in
  let yy := (F32.two * q_1 rot * q_1 rot)%f32 in
  let zz := (F32.two * q_2 rot * q_2 rot)%f32 in
  let xy := (F32.two * q_0 rot * q_1 rot)%f32 in
  let xz := (F32.two * q_0 rot * q_2 rot)%f32 in
  let yz := (F32.two * q_1 rot * q_2 rot)%f32 in
  let wx := (F32.two * q_3 rot * q_0 rot)%f32 in
  let wy := (F32.two * q_3 rot * q_1 rot)%f32 in
  let wz := (F32.two * q_3 rot * q_2 rot)%f32 in
  [ v_0 scale * (F32.one - (yy + zz));
    v_0 scale * (xy - wz);
    v_0 scale * (xz + wy);
    v_0 trans;
    v_1 scale * (xy + wz);
    v_1 scale * (F32.one - (xx + zz));
    v_1 scale * (yz - wx);
    v_1 trans;
    v_2 scale * (xz - wy);
    v_2 scale * (yz + wx);
    v_2 scale * (F32.one - (xx + yy));
    v_2 trans ]%f32.

Definition QuatNegate (q : quat_t) : quat_t :=
  Quat (- q_0 q)%f32 (- q_1 q)%f32 (- q_2 q)%f32 (- q_3 q)%f32.

Definition QuatDot (a b : quat_t) : float :=
  (q_0 a * q_0 b + q_1 a * q_1 b + q_2 a * q_2 b + q_3 a * q_3 b)%f32.

Section Evaluator.

Variable K : constants.

(** [acosf] and [sinf] of the C library. *)
Variable acosf : float -> float.
Variable sinf : float -> float.

(** The two blend weights [(backlerp, lerp)] QuatSlerp derives from the
    (already non-negative) cosine and the fraction. *)
Definition QuatSlerp_weights (cosAngle fraction : float) : float * float :=
  if (cosAngle <? F32.lit_0_999999)%f32 then
    let angle := acosf cosAngle in
    let sinAngle := sinf angle in
    (sinf ((F32.one - fraction) * angle) / sinAngle,
     sinf (fraction * angle) / sinAngle)%f32
  else
    ((F32.one - fraction)%f32, fraction).

Definition QuatSlerp (from _to : quat_t) (fraction : float) : quat_t :=
  let cosAngle := QuatDot from _to in
  let '(cosAngle, to) :=
    if (cosAngle <? F32.zero)%f32
    then ((- cosAngle)%f32, QuatNegate _to)
    else (cosAngle, _to) in
  let '(backlerp, lerp) := QuatSlerp_weights cosAngle fraction in
  Quat (q_0 from * backlerp + q_0 to * lerp)%f32
       (q_1 from * backlerp + q_1 to * lerp)%f32
       (q_2 from * backlerp + q_2 to * lerp)%f32
       (q_3 from * backlerp + q_3 to * lerp)%f32.

(** First loop of ComputePoseMats: the relative transform of pose [i],
    copied from the frame or blended between the two frames.  The index
    [frame * num_poses] is an [int] product. *)
Definition relativeJoint (data : iqmData_t) (frame oldframe : Z) (backlerp : float)
  (i : Z) : option iqmTransform_t :=
  if oldframe =? frame then
    rd (poses data) (s32 (frame * num_poses data) + i)
  else
    let lerp := (F32.one - backlerp)%f32 in
    pose ← rd (poses data) (s32 (frame * num_poses data) + i);
    oldpose ← rd (poses data) (s32 (oldframe * num_poses data) + i);
    let t := translate pose in let ot := translate oldpose in
    let s := scale pose in let os := scale oldpose in
    Some (mk_iqmTransform
            (Vec3 (v_0 ot * backlerp + v_0 t * lerp)
                  (v_1 ot * backlerp + v_1 t * lerp)
                  (v_2 ot * backlerp + v_2 t * lerp))%f32
            (QuatSlerp (rotate oldpose) (rotate pose) lerp)
            (Vec3 (v_0 os * backlerp + v_0 s * lerp)
                  (v_1 os * backlerp + v_1 s * lerp)
                  (v_2 os * backlerp + v_2 s * lerp))%f32).

(** The local array [relativeJoints] after the first loop (its first
    [num_poses] entries; the array has room for [IQM_MAX_JOINTS]). *)
Definition relativeJoints (data : iqmData_t) (frame oldframe : Z) (backlerp : float)
  : option (list iqmTransform_t) :=
  if num_poses data >? (IQM_MAX_JOINTS K) then None
  else mapM (fun i : nat => relativeJoint data frame oldframe backlerp (Z.of_nat i))
            (seq 0 (Z.to_nat (num_poses data))).

(** Body of the second loop of ComputePoseMats for joint [i]. *)
Definition poseMat_step (data : iqmData_t) (rels : list iqmTransform_t)
  (i : Z) (poseMats : list float) : option (list float) :=
  rel ← rd rels i;
  jointParent ← rd (jointParents data) i;
  invBindMat ← slice12 (invBindJoints data) (12 * i);
  let mat1 := JointToMatrix (rotate rel) (scale rel) (translate rel) in
  if jointParent >=? 0 then
    bindParent ← slice12 (bindJoints data) (jointParent * 12);
    let mat2 := Matrix34Multiply bindParent mat1 in
    let mat1 := Matrix34Multiply mat2 invBindMat in
    if (jointParent * 12 + 12 <=? Z.of_nat (length poseMats)) &&
       (12 * i + 12 <=? Z.of_nat (length poseMats))
    then Some (Matrix34Multiply_inplace poseMats (Z.to_nat (jointParent * 12)) mat1
                 (Z.to_nat (12 * i)) (seq 0 12))
    else None
  else
    store12 poseMats (12 * i) (Matrix34Multiply mat1 invBindMat).

Definition ComputePoseMats (data : iqmData_t) (frame oldframe : Z) (backlerp : float)
  (poseMats : list float) : option (list float) :=
  rels ← relativeJoints data frame oldframe backlerp;
  for_loop (Z.to_nat (num_poses data)) 0 (poseMat_step data rels) poseMats.

(** Body of the loop that closes ComputeJointMats. *)
Definition jointMat_step (data : iqmData_t) (i : Z) (mat : list float)
  : option (list float) :=
  outmat ← slice12 mat (12 * i);
  bind ← slice12 (bindJoints data) (12 * i);
  store12 mat (12 * i) (Matrix34Multiply outmat bind).

Definition ComputeJointMats (data : iqmData_t) (frame oldframe : Z) (backlerp : float)
  (mat : list float) : option (list float) :=
  if num_poses data =? 0 then
    Com_Memcpy mat (bindJoints data) (num_joints data * 12)
  else
    mat ← ComputePoseMats data frame oldframe backlerp mat;
    for_loop (Z.to_nat (num_joints data)) 0 (jointMat_step data) mat.

(** The name loop of R_IQMLerpTag: [n] iterations left, [names] the rest of
    the packed names, [joint] the counter.  Running out of names while the
    counter is still below [num_joints] reads past the table. *)
Fixpoint find_joint (n : nat) (names : list string) (tagName : string) (joint : Z)
  : option Z :=
  match n with
  | O => Some joint
  | S n' =>
      match names with
      | [] => None
      | name :: rest =>
          if String.eqb tagName name then Some joint
          else find_joint n' rest tagName (joint + 1)
      end
  end.

(** R_IQMLerpTag.  [jointMats] is the content the stack buffer happens to
    have on entry.  The result is the orientation written to [tag] and the
    returned flag. *)
Definition R_IQMLerpTag (data : iqmData_t) (startFrame endFrame : Z) (frac : float)
  (tagName : string) (jointMats : list float) : option (orientation_t * bool) :=
  joint ← find_joint (Z.to_nat (num_joints data)) (jointNames data) tagName 0;
  if joint >=? num_joints data then
    Some (cleared_orientation, false)
  else
    jointMats ← ComputeJointMats data startFrame endFrame frac jointMats;
    m ← slice12 jointMats (12 * joint);
    Some (mk_orientation
            (Vec3 (fget m 3) (fget m 7) (fget m 11))
            (Vec3 (fget m 0) (fget m 4) (fget m 8))
            (Vec3 (fget m 1) (fget m 5) (fget m 9))
            (Vec3 (fget m 2) (fget m 6) (fget m 10)),
          true).

End Evaluator.

(** ** Joint table validation of R_LoadIQM *)

(** [iqmJoint_t]: [name] is an unsigned offset into the text block, [parent]
    an [int]. *)
Record iqmJoint_t := mk_iqmJoint {
  j_name : Z;
  j_parent : Z;
  j_translate : vec3_t;
  j_rotate : quat_t;
  j_scale : vec3_t
}.

(** The test R_LoadIQM applies to one joint; [true] means the load is
    abandoned. *)
Definition joint_rejected (header : iqmHeader_t) (joint : iqmJoint_t) : bool :=
  (j_parent joint <? -1) ||
  (j_parent joint >=? s32 (h_num_joints header)) ||
  (j_name joint >=? num_text header).

(** What R_LoadIQM finds where its joint loops read.  Before each loop the
    source sets [joint] to [(uintptr_t)&header + header->ofs_joints] (the
    expression with [header] itself is left in a comment above it), and
    takes the address of a joint name from [&(char &)header] likewise:
    [&header] is the address of the local pointer variable, so these places
    are on the stack and not in the file image.  [joint_at_check i] is
    record [i] at that address while "check and swap joints" runs,
    [name_length_at_check n] what [strlen] returns for the name offset [n]
    there, [joint_at_copy i] record [i] while "copy joint parents" runs;
    [None] where the memory cannot be read. *)
Record joint_memory := mk_joint_memory {
  joint_at_check : Z -> option iqmJoint_t;
  name_length_at_check : Z -> option Z;
  joint_at_copy : Z -> option iqmJoint_t
}.

(** The loop of "check and swap joints", [n] records left, [joint] at
    record [i]: [Some false] for [return false], [Some true] when the loop
    runs to its end, [None] for a fault. *)
Fixpoint R_LoadIQM_joints_loop (header : iqmHeader_t) (mem : joint_memory)
  (n : nat) (i : Z) : option bool :=
  match n with
  | O => Some true
  | S n' =>
      match joint_at_check mem i with
      | None => None
      | Some joint =>
          if joint_rejected header joint then Some false
          else
            match name_length_at_check mem (j_name joint) with
            | None => None
            | Some _ => R_LoadIQM_joints_loop header mem n' (i + 1)
            end
      end
  end.

Definition R_LoadIQM_joints_ok (header : iqmHeader_t) (mem : joint_memory)
  : option bool :=
  R_LoadIQM_joints_loop header mem (Z.to_nat (h_num_joints header)) 0.

(** "copy joint parents": [joint] is set to the same address again and
    [iqmData.jointParents[i] = joint->parent] for every [i] below
    [num_joints]. *)
Fixpoint copy_joint_parents_loop (mem : joint_memory) (n : nat) (i : Z)
  : option (list Z) :=
  match n with
  | O => Some []
  | S n' =>
      match joint_at_copy mem i, copy_joint_parents_loop mem n' (i + 1) with
      | Some joint, Some rest => Some (j_parent joint :: rest)
      | _, _ => None
      end
  end.

Definition copy_joint_parents (header : iqmHeader_t) (mem : joint_memory)
  : option (list Z) :=
  copy_joint_parents_loop mem (Z.to_nat (h_num_joints header)) 0.

(** The ordering the specification attributes to the decoder: every parent is the
    sentinel or an index not above the joint's own. *)
Definition parents_not_above_self (parents : list Z) : Prop :=
  forall (i : nat) (p : Z), parents !! i = Some p -> p = -1 \/ 0 <= p <= Z.of_nat i.

(** The ordering under which the pass of ComputePoseMats only reads matrices
    it has already written: every parent is negative or strictly below the
    joint's own index. *)
Definition parents_below_self (parents : list Z) : Prop :=
  forall (i : nat) (p : Z), parents !! i = Some p -> p < Z.of_nat i.

(** ** Notions used to state the float properties *)

(** [x'] is the negation of [x], up to the sign of a zero. *)
Definition neg_sim (x x' : float) : Prop :=
  x' = (- x)%f32 \/ (F32.is_zero x = true /\ F32.is_zero x' = true).

(** No sign bit set: +0, a positive number, +infinity, or NaN. *)
Definition sign_clear (x : float) : Prop :=
  match x with
  | S754_zero s | S754_infinity s | S754_finite s _ _ => s = false
  | S754_nan => True
  end.

Definition quat_finite (q : quat_t) : Prop :=
  F32.finite (q_0 q) = true /\ F32.finite (q_1 q) = true /\
  F32.finite (q_2 q) = true /\ F32.finite (q_3 q) = true.

(** The blend QuatSlerp ends with. *)
Definition quat_blend (from to : quat_t) (w : float * float) : quat_t :=
  Quat (q_0 from * w.1 + q_0 to * w.2)%f32
       (q_1 from * w.1 + q_1 to * w.2)%f32
       (q_2 from * w.1 + q_2 to * w.2)%f32
       (q_3 from * w.1 + q_3 to * w.2)%f32.

(** Sample data: the unit quaternion (0.6f, 0.8f, 0, 0) and the fraction
    0.1f. *)
Definition lit_0_6 : float := (F32.of_int 6 / F32.of_int 10)%f32.
Definition lit_0_8 : float := (F32.of_int 8 / F32.of_int 10)%f32.
Definition lit_0_1 : float := (F32.of_int 1 / F32.of_int 10)%f32.
Definition lit_0_5 : float := (F32.of_int 1 / F32.of_int 2)%f32.
Definition sample_quat : quat_t := Quat lit_0_6 lit_0_8 F32.zero F32.zero.

(** Two outcomes of a pass over a matrix buffer that fault together or
    return buffers of one length that agree on their first [n] floats. *)
Definition same_outcome (n : nat) (r r' : option (list float)) : Prop :=
  match r, r' with
  | Some l, Some l' =>
      length l = length l' /\ forall j : nat, (j < n)%nat -> l !! j = l' !! j
  | None, None => True
  | _, _ => False
  end.

(** ** Sample IQM data *)

(** [identityMatrix] of tr_model_iqm.cpp. *)
Definition identityMatrix : list float :=
  [ F32.one; F32.zero; F32.zero; F32.zero;
    F32.zero; F32.one; F32.zero; F32.zero;
    F32.zero; F32.zero; F32.one; F32.zero ].

Definition rest_transform : iqmTransform_t :=
  mk_iqmTransform (Vec3 F32.zero F32.zero F32.zero)
                  (Quat F32.zero F32.zero F32.zero F32.one)
                  (Vec3 F32.one F32.one F32.one).

Definition shifted_transform : iqmTransform_t :=
  mk_iqmTransform (Vec3 F32.two F32.zero F32.zero)
                  (Quat F32.zero F32.zero F32.zero F32.one)
                  (Vec3 F32.one F32.one F32.one).

(** A two-joint skeleton, "hand" below "root", animated over two frames. *)
Definition sample_iqm : iqmData_t :=
  mk_iqmData 2 2 2 ["root"; "hand"]%string [-1; 0]
    (identityMatrix ++ identityMatrix) (identityMatrix ++ identityMatrix)
    [rest_transform; rest_transform; shifted_transform; rest_transform].

(** The same skeleton without animation poses; its bind matrices are told
    apart by the translation of the second. *)
Definition sample_bind : list float :=
  identityMatrix ++
  [ F32.one; F32.zero; F32.zero; F32.two;
    F32.zero; F32.one; F32.zero; F32.zero;
    F32.zero; F32.zero; F32.one; F32.zero ].

Definition sample_iqm_static : iqmData_t :=
  mk_iqmData 0 2 0 ["root"; "hand"]%string [-1; 0] sample_bind sample_bind [].

(** The skeleton with joint 0 naming joint 1 as its parent. *)
Definition sample_iqm_parent_above : iqmData_t :=
  mk_iqmData 2 2 2 ["a"; "b"]%string [1; -1]
    (identityMatrix ++ identityMatrix) (identityMatrix ++ identityMatrix)
    [rest_transform; rest_transform; shifted_transform; rest_transform].

(** The skeleton with joint 0 naming itself as its parent. *)
Definition sample_iqm_parent_self : iqmData_t :=
  mk_iqmData 2 2 2 ["a"; "b"]%string [0; -1]
    (identityMatrix ++ identityMatrix) (identityMatrix ++ identityMatrix)
    [rest_transform; rest_transform; shifted_transform; rest_transform].

(** Two contents a 24-float stack buffer can have on entry. *)
Definition buffer_of_zeros : list float := replicate 24 F32.zero.
Definition buffer_of_ones : list float := replicate 24 F32.one.

Definition sample_header : iqmHeader_t := mk_iqmHeader 4096 16 2 2 2.

Definition sample_joint (parent : Z) : iqmJoint_t :=
  mk_iqmJoint 0 parent (Vec3 F32.zero F32.zero F32.zero)
    (Quat F32.zero F32.zero F32.zero F32.one) (Vec3 F32.one F32.one F32.one).

(** A memory that holds the records [joints] where both joint loops read,
    and a name of four characters at every name offset. *)
Definition joint_memory_of (joints : list iqmJoint_t) : joint_memory :=
  mk_joint_memory (rd joints) (fun _ => Some 4) (rd joints).

(** Three such memories: parents [-1; 0], parents [1; -1] (joint 0 names
    joint 1), and parents [0; -1] (joint 0 names itself). *)
Definition sample_joint_memory : joint_memory :=
  joint_memory_of [sample_joint (-1); sample_joint 0].
Definition sample_joint_memory_parent_above : joint_memory :=
  joint_memory_of [sample_joint 1; sample_joint (-1)].
Definition sample_joint_memory_parent_self : joint_memory :=
  joint_memory_of [sample_joint 0; sample_joint (-1)].

(** ** Model records (tr_model) *)

Inductive modtype_t := MOD_BAD | MOD_BRUSH | MOD_MESH | MOD_MDR | MOD_IQM.

Definition modtype_eqb (a b : modtype_t) : bool :=
  match a, b with
  | MOD_BAD, MOD_BAD | MOD_BRUSH, MOD_BRUSH | MOD_MESH, MOD_MESH
  | MOD_MDR, MOD_MDR | MOD_IQM, MOD_IQM => true
  | _, _ => false
  end.

(** [md3Tag_t]. *)
Record md3Tag_t := mk_md3Tag {
  tag_name : string;
  tag_origin : vec3_t;
  tag_axis_0 : vec3_t;
  tag_axis_1 : vec3_t;
  tag_axis_2 : vec3_t
}.

(** [md3Surface_t], the integer fields R_LoadMD3 checks, as they read after
    the byte swap. *)
Record md3Surface_t := mk_md3Surface {
  surf_numFrames : Z;
  surf_numShaders : Z;
  surf_numVerts : Z;
  surf_numTriangles : Z;
  surf_ofsTriangles : Z;
  surf_ofsShaders : Z;
  surf_ofsSt : Z;
  surf_ofsXyzNormals : Z;
  surf_ofsEnd : Z
}.

(** [md3Header_t] with what hangs off it: [md3_tags] is the tag block at
    [ofsTags], frame after frame; [md3_surfaceAt o] is the surface record
    that the bytes at offset [o] from the header spell. *)
Record md3Header_t := mk_md3Header {
  md3_version : Z;
  md3_numFrames : Z;
  md3_numTags : Z;
  md3_numSurfaces : Z;
  md3_numSkins : Z;
  md3_ofsFrames : Z;
  md3_ofsTags : Z;
  md3_ofsSurfaces : Z;
  md3_ofsEnd : Z;
  md3_tags : list md3Tag_t;
  md3_surfaceAt : Z -> md3Surface_t
}.

(** [mdrTag_t], [mdrFrame_t] (its bones: twelve floats each, row after row)
    and the fields of [mdrHeader_t] the tag lookup reads. *)
Record mdrTag_t := mk_mdrTag { mdr_boneIndex : Z; mdr_tag_name : string }.

Record mdrFrame_t := mk_mdrFrame { mdr_bones : list (list float) }.

Record mdrHeader_t := mk_mdrHeader {
  mdr_numFrames : Z;
  mdr_numBones : Z;
  mdr_numTags : Z;
  mdr_frames : list mdrFrame_t;
  mdr_tags : list mdrTag_t
}.

(** What [model_t::modelData] points to. *)
Inductive modelData_t :=
  | data_none
  | data_mdr (mdr : mdrHeader_t)
  | data_iqm (iqm : iqmData_t).

(** [model_t]; [md3] maps a level of detail to the header loaded for it. *)
Record model_t := mk_model {
  name : string;
  type : modtype_t;
  index : Z;
  dataSize : Z;
  modelData : modelData_t;
  md3 : Z -> option md3Header_t;
  numLods : Z
}.

(** The part of [trGlobals_t] the registry uses: [models] holds the
    [numModels] records allocated so far, in index order. *)
Record trGlobals_t := mk_tr { models : list model_t }.

Definition numModels (tr : trGlobals_t) : Z := Z.of_nat (length (models tr)).

(** [R_GetModelByHandle]; [None] is a null pointer read from [tr.models]. *)
Definition R_GetModelByHandle (tr : trGlobals_t) (index : Z) : option model_t :=
  if (index <? 1) || (index >=? numModels tr)
  then models tr !! 0%nat
  else models tr !! Z.to_nat index.

(** The record [ri.Hunk_Alloc] returns for a new slot: zero-filled, then
    given its index. *)
Definition fresh_model (idx : Z) : model_t :=
  mk_model "" MOD_BAD idx 0 data_none (fun _ => None) 0.

(** [R_AllocModel]: the new record and the table with it, or [None] for the
    NULL returned when the table is full. *)
Definition R_AllocModel (K : constants) (tr : trGlobals_t)
  : option (model_t * trGlobals_t) :=
  if numModels tr >=? (MAX_MOD_KNOWN K) then None
  else
    let mod_ := fresh_model (numModels tr) in
    Some (mod_, mk_tr (models tr ++ [mod_])).

(** [R_ModelInit]: [tr.numModels = 0], then the default record is allocated
    and its type set to [MOD_BAD], which a fresh record already has.  [None]
    stands for the write through the NULL of a full table. *)
Definition R_ModelInit (K : constants) (tr : trGlobals_t) : option trGlobals_t :=
  match R_AllocModel K (mk_tr []) with
  | Some (_, tr') => Some tr'
  | None => None
  end.

(** ** Memory beside the objects

    Three places of the sources reach memory that is no part of the object
    they were meant to read.  R_GetTag computes its tag pointer from a frame
    number it never tests for being negative, so the pointer can leave the
    tag table.  R_LerpTag hands R_IQMLerpTag
    [reinterpret_cast<iqmData_t &>(model->modelData)], and
    R_MDRAddAnimSurfaces binds its header to
    [(mdrHeader_t &)tr.currentModel->modelData]: both are the storage of
    the pointer [modelData] itself, with the bytes that follow it in the
    model record, read as the structure the pointer was meant to lead to.
    What the code finds in these places is not determined by the model; the
    record below stands for it. *)
Record memory_t := mk_memory {
  (* the bytes at tag index [i], counted from [ofsTags] of an MD3 block, read
     as an [md3Tag_t], for an [i] outside the tag table; [None] where
     nothing is mapped and the read faults *)
  mem_tagAt : md3Header_t -> Z -> option md3Tag_t;
  (* the storage of [model->modelData] and what follows it, read as an
     [iqmData_t] *)
  mem_iqmData_at_modelData : model_t -> iqmData_t;
  (* the same storage read as an [mdrHeader_t]: its [ident] and its
     [numFrames] *)
  mem_ident_at_modelData : model_t -> Z;
  mem_numFrames_at_modelData : model_t -> Z
}.

(** R_MDRAddAnimSurfaces up to and including the validation.  [header] is
    bound to [(mdrHeader_t &)tr.currentModel->modelData]: [header.ident]
    and [header.numFrames] are read from the storage of the pointer, not
    from the MDR it points to.  The wrap of [frame] divides by
    [header.ident], as the source does. *)
Definition R_MDRAddAnimSurfaces_frames (K : constants) (mem : memory_t)
    (currentModel : model_t) (ent : refEntity_t)
  : option refEntity_t :=
  let header_ident := mem_ident_at_modelData mem currentModel in
  let header_numFrames := mem_numFrames_at_modelData mem currentModel in
  if Z.land (renderfx ent) (RF_WRAP_FRAMES K) =? 0
  then Some (validate_frames header_numFrames ent)
  else
    match c_rem (frame ent) header_ident, c_rem (oldframe ent) header_numFrames with
    | Some f, Some o =>
        Some (validate_frames header_numFrames (mk_refEntity (renderfx ent) f o))
    | _, _ => None
    end.

(** ** Tag lookup (R_GetTag, R_GetAnimTag, R_LerpTag) *)

(** What [tag] points to when it stands at tag index [i], counted from the
    start of the tag table, [ofsTags] bytes after the header: an entry of
    the tag table, or the memory beside the table. *)
Definition md3_tagAt (mem : memory_t) (mod_ : md3Header_t) (i : Z) : option md3Tag_t :=
  match rd (md3_tags mod_) i with
  | Some tag => Some tag
  | None => mem_tagAt mem mod_ i
  end.

(** The tag loop of R_GetTag: [n] iterations left, [tag] at index [i];
    [tagAt] reads the tag a pointer at an index leads to. *)
Fixpoint R_GetTag_loop (tagAt : Z -> option md3Tag_t) (tagName : string) (n : nat)
  (i : Z) : option (option md3Tag_t) :=
  match n with
  | O => Some None
  | S n' =>
      tag ← tagAt i;
      if String.eqb (tag_name tag) tagName then Some (Some tag)
      else R_GetTag_loop tagAt tagName n' (i + 1)
  end.

(** R_GetTag: [Some None] is the NULL of a name that was not found, [None] a
    fault. *)
Definition R_GetTag (mem : memory_t) (mod_ : md3Header_t) (frame : Z) (tagName : string)
  : option (option md3Tag_t) :=
  let frame := if frame >=? md3_numFrames mod_ then md3_numFrames mod_ - 1 else frame in
  R_GetTag_loop (md3_tagAt mem mod_) tagName (Z.to_nat (md3_numTags mod_))
    (frame * md3_numTags mod_).

(** The tag R_GetAnimTag builds from a bone matrix:
    [axis[j][k] = matrix[k][j]], [origin[k] = matrix[k][3]]. *)
Definition tag_of_bone (tagName : string) (m : list float) : md3Tag_t :=
  mk_md3Tag tagName
    (Vec3 (fget m 3) (fget m 7) (fget m 11))
    (Vec3 (fget m 0) (fget m 4) (fget m 8))
    (Vec3 (fget m 1) (fget m 5) (fget m 9))
    (Vec3 (fget m 2) (fget m 6) (fget m 10)).

Fixpoint R_GetAnimTag_loop (mod_ : mdrHeader_t) (framenum : Z) (tagName : string)
  (n : nat) (i : Z) : option (option md3Tag_t) :=
  match n with
  | O => Some None
  | S n' =>
      tag ← rd (mdr_tags mod_) i;
      if String.eqb (mdr_tag_name tag) tagName then
        frame ← rd (mdr_frames mod_) framenum;
        bone ← rd (mdr_bones frame) (mdr_boneIndex tag);
        Some (Some (tag_of_bone (mdr_tag_name tag) bone))
      else R_GetAnimTag_loop mod_ framenum tagName n' (i + 1)
  end.

Definition R_GetAnimTag (mod_ : mdrHeader_t) (framenum : Z) (tagName : string)
  : option (option md3Tag_t) :=
  let framenum :=
    if framenum >=? mdr_numFrames mod_ then mdr_numFrames mod_ - 1 else framenum in
  R_GetAnimTag_loop mod_ framenum tagName (Z.to_nat (mdr_numTags mod_)) 0.

(** The blend at the end of R_LerpTag. *)
Definition lerp_vec3 (s e : vec3_t) (backLerp frontLerp : float) : vec3_t :=
  Vec3 (v_0 s * backLerp + v_0 e * frontLerp)%f32
       (v_1 s * backLerp + v_1 e * frontLerp)%f32
       (v_2 s * backLerp + v_2 e * frontLerp)%f32.

Definition lerp_tags (start end_ : md3Tag_t) (frac : float) : orientation_t :=
  let frontLerp := frac in
  let backLerp := (F32.one - frac)%f32 in
  mk_orientation
    (lerp_vec3 (tag_origin start) (tag_origin end_) backLerp frontLerp)
    (VectorNormalize (lerp_vec3 (tag_axis_0 start) (tag_axis_0 end_) backLerp frontLerp))
    (VectorNormalize (lerp_vec3 (tag_axis_1 start) (tag_axis_1 end_) backLerp frontLerp))
    (VectorNormalize (lerp_vec3 (tag_axis_2 start) (tag_axis_2 end_) backLerp frontLerp)).

Section LerpTag.

Variable K : constants.

Variable acosf : float -> float.
Variable sinf : float -> float.

Variable mem : memory_t.

(** R_LerpTag.  The result is the orientation left in [*tag] and the value
    returned; [jointMats] is the prior content of the stack buffer of
    R_IQMLerpTag.  The MDR branch casts the pointer [modelData]; the IQM
    branch passes [reinterpret_cast<iqmData_t &>(model->modelData)], the
    storage of the pointer read as an [iqmData_t]. *)
Definition R_LerpTag (tr : trGlobals_t) (handle : Z) (startFrame endFrame : Z)
  (frac : float) (tagName : string) (jointMats : list float)
  : option (orientation_t * bool) :=
  model ← R_GetModelByHandle tr handle;
  let finish (start end_ : option md3Tag_t) : option (orientation_t * bool) :=
    match start, end_ with
    | Some start, Some end_ => Some (lerp_tags start end_ frac, true)
    | _, _ => Some (cleared_orientation, false)
    end in
  match md3 model 0 with
  | None =>
      match type model with
      | MOD_MDR =>
          match modelData model with
          | data_mdr mdr =>
              start ← R_GetAnimTag mdr startFrame tagName;
              end_ ← R_GetAnimTag mdr endFrame tagName;
              finish start end_
          | _ => None
          end
      | MOD_IQM =>
          R_IQMLerpTag K acosf sinf (mem_iqmData_at_modelData mem model)
            startFrame endFrame frac tagName jointMats
      | _ => finish None None
      end
  | Some header =>
      start ← R_GetTag mem header startFrame tagName;
      end_ ← R_GetTag mem header endFrame tagName;
      finish start end_
  end.

End LerpTag.

(** Following the words of the specification for the bone-hierarchy format:
    "resolve the bone's matrix at the given single frame ... and extract
    origin/axes directly from the matrix".  The tag of [tagName] read at
    the one frame [framenum], with no blend. *)
Definition lerpTag_single_frame_spec (mdr : mdrHeader_t) (framenum : Z)
  (tagName : string) : option (orientation_t * bool) :=
  tag ← R_GetAnimTag mdr framenum tagName;
  match tag with
  | Some t => Some (mk_orientation (tag_origin t) (tag_axis_0 t) (tag_axis_1 t)
                      (tag_axis_2 t), true)
  | None => Some (cleared_orientation, false)
  end.

(** ** R_LoadMD3 *)

Definition set_md3 (f : Z -> option md3Header_t) (lod : Z) (hdr : option md3Header_t)
  : Z -> option md3Header_t :=
  fun l => if l =? lod then hdr else f l.

Section LoadMD3.

Variable K : constants.

(** The checks R_LoadMD3 makes on the surface at byte offset [surf_off] from
    the header, in source order; [true] means the load is abandoned.  A sum
    with a [sizeof] is computed in [size_t]; [numTriangles * 3] in [int].
    The first test casts the whole disjunction to [size_t] before comparing
    it with the file size. *)
Definition surface_rejected (fileSize : Z) (surf_off : Z) (surf : md3Surface_t) : bool :=
  ((if (u64 (surf_ofsEnd surf) >? fileSize) ||
       negb (surf_off + surf_ofsEnd surf =? 0) then 1 else 0) >? fileSize) ||
  ((u64 (surf_ofsTriangles surf) >? fileSize) ||
   (u64 (surf_ofsShaders surf) >? fileSize) ||
   (u64 (surf_ofsSt surf) >? fileSize) ||
   (u64 (surf_ofsXyzNormals surf) >? fileSize)) ||
  (u64 (surf_ofsTriangles surf + surf_numTriangles surf * (sizeof_md3Triangle_t K))
     >? fileSize) ||
  ((u64 (surf_ofsShaders surf + surf_numShaders surf * (sizeof_md3Shader_t K))
      >? fileSize) ||
   (surf_numShaders surf >? 2 ^ 20)) ||
  (u64 (surf_ofsSt surf + surf_numVerts surf * (sizeof_md3St_t K)) >? fileSize) ||
  (u64 (surf_ofsXyzNormals surf + surf_numVerts surf * (sizeof_md3XyzNormal_t K))
     >? fileSize) ||
  (surf_numVerts surf >=? (SHADER_MAX_VERTEXES K)) ||
  (s32 (surf_numTriangles surf * 3) >=? (SHADER_MAX_INDEXES K)).

(** The surface loop: [n] surfaces left, the current one at [surf_off]; the
    next one follows at [surf_off + ofsEnd]. *)
Fixpoint R_LoadMD3_surfaces (hdr : md3Header_t) (fileSize : Z) (n : nat) (surf_off : Z)
  : bool :=
  match n with
  | O => true
  | S n' =>
      let surf := md3_surfaceAt hdr surf_off in
      if surface_rejected fileSize surf_off surf then false
      else R_LoadMD3_surfaces hdr fileSize n' (surf_off + surf_ofsEnd surf)
  end.

(** The header checks that follow the copy into the hunk. *)
Definition header_rejected (hdr : md3Header_t) (size fileSize : Z) : bool :=
  (md3_numFrames hdr <? 1) ||
  ((u32 (md3_ofsFrames hdr) >? size) || (u32 (md3_ofsTags hdr) >? size) ||
   (u32 (md3_ofsSurfaces hdr) >? size)) ||
  (u32 (Z.lor (Z.lor (md3_numFrames hdr) (md3_numTags hdr)) (md3_numSkins hdr))
     >? 2 ^ 20) ||
  (u64 (md3_ofsFrames hdr + md3_numFrames hdr * (sizeof_md3Frame_t K)) >? fileSize) ||
  (u64 (md3_ofsTags hdr +
        s32 (md3_numTags hdr * md3_numFrames hdr) * (sizeof_md3Tag_t K)) >? fileSize) ||
  (u64 (md3_ofsSurfaces hdr +
        (if md3_numSurfaces hdr =? 0 then 0 else 1) * (sizeof_md3Surface_t K))
     >? fileSize).

(** R_LoadMD3: the returned flag and the model record as the call leaves it.
    [pinmodel] is the file content read as an MD3. *)
Definition R_LoadMD3 (mod_ : model_t) (lod : Z) (pinmodel : md3Header_t) (fileSize : Z)
  : bool * model_t :=
  if negb (md3_version pinmodel =? (MD3_VERSION K)) then (false, mod_)
  else
    let size := u32 (md3_ofsEnd pinmodel) in
    if size >? fileSize then (false, mod_)
    else
      let mod_ :=
        mk_model (name mod_) MOD_MESH (index mod_) (s32 (dataSize mod_ + size))
          (modelData mod_) (set_md3 (md3 mod_) lod (Some pinmodel)) (numLods mod_) in
      let hdr := pinmodel in
      if header_rejected hdr size fileSize then (false, mod_)
      else
        (R_LoadMD3_surfaces hdr fileSize (Z.to_nat (md3_numSurfaces hdr))
           (md3_ofsSurfaces hdr),
         mod_).

End LoadMD3.

(** The offset of the [k]-th surface a walk from [off] visits, and of the
    [k]-th surface of the file. *)
Fixpoint surface_chain (hdr : md3Header_t) (off : Z) (k : nat) : Z :=
  match k with
  | O => off
  | S k' => surface_chain hdr (off + surf_ofsEnd (md3_surfaceAt hdr off)) k'
  end.

Definition surface_offset (hdr : md3Header_t) (k : nat) : Z :=
  surface_chain hdr (md3_ofsSurfaces hdr) k.

Definition nth_surface (hdr : md3Header_t) (k : nat) : md3Surface_t :=
  md3_surfaceAt hdr (surface_offset hdr k).

(** A header whose fields are in order, in plain integer terms. *)
Definition header_valid (K : constants) (hdr : md3Header_t) (fileSize : Z) : Prop :=
  md3_version hdr = (MD3_VERSION K) /\
  0 <= md3_ofsEnd hdr <= fileSize /\
  1 <= md3_numFrames hdr < 2 ^ 20 /\
  0 <= md3_numTags hdr < 2 ^ 20 /\
  0 <= md3_numSkins hdr < 2 ^ 20 /\
  0 <= md3_numSurfaces hdr /\
  0 <= md3_ofsFrames hdr <= md3_ofsEnd hdr /\
  0 <= md3_ofsTags hdr <= md3_ofsEnd hdr /\
  0 <= md3_ofsSurfaces hdr <= md3_ofsEnd hdr /\
  md3_ofsFrames hdr + md3_numFrames hdr * (sizeof_md3Frame_t K) <= fileSize /\
  md3_ofsTags hdr + md3_numTags hdr * md3_numFrames hdr * (sizeof_md3Tag_t K) <= fileSize /\
  md3_ofsSurfaces hdr +
    (if md3_numSurfaces hdr =? 0 then 0 else 1) * (sizeof_md3Surface_t K) <= fileSize.

(** A surface whose fields other than the vertex count are in order: every
    block it points to lies inside the file, and its triangles stay below
    the index limit. *)
Definition surface_valid (K : constants) (fileSize : Z) (surf : md3Surface_t) : Prop :=
  0 <= surf_ofsEnd surf <= fileSize /\
  0 <= surf_numTriangles surf /\ 0 <= surf_numShaders surf <= 2 ^ 20 /\
  0 <= surf_numVerts surf /\
  0 <= surf_ofsTriangles surf /\ 0 <= surf_ofsShaders surf /\
  0 <= surf_ofsSt surf /\ 0 <= surf_ofsXyzNormals surf /\
  surf_ofsTriangles surf + surf_numTriangles surf * (sizeof_md3Triangle_t K) <= fileSize /\
  surf_ofsShaders surf + surf_numShaders surf * (sizeof_md3Shader_t K) <= fileSize /\
  surf_ofsSt surf + surf_numVerts surf * (sizeof_md3St_t K) <= fileSize /\
  surf_ofsXyzNormals surf + surf_numVerts surf * (sizeof_md3XyzNormal_t K) <= fileSize /\
  surf_numTriangles surf * 3 < (SHADER_MAX_INDEXES K).

(** Sample MD3 files of 16384 bytes with one surface of [numVerts] vertices
    and one triangle. *)
Definition sample_md3_surface (numVerts : Z) : md3Surface_t :=
  mk_md3Surface 1 1 numVerts 1 108 120 188 8188 16192.

Definition sample_md3_file (numVerts : Z) : md3Header_t :=
  mk_md3Header 15 1 0 1 0 108 164 164 16356 []
    (fun _ => sample_md3_surface numVerts).

(** ** Notions used to state the registry and tag properties *)

(** The registry after R_ModelInit and any number of allocations: slot 0
    exists and every record carries the index of its slot. *)
Definition registry_wf (tr : trGlobals_t) : Prop :=
  1 <= numModels tr /\
  forall (i : nat) (m : model_t), models tr !! i = Some m -> index m = Z.of_nat i.

(** The frame R_GetTag and R_GetAnimTag read after their clamp. *)
Definition clamped_frame (numFrames framenum : Z) : Z :=
  if framenum >=? numFrames then numFrames - 1 else framenum.

(** The tag table of an MD3 header holds [numTags] tags for each of its
    [numFrames >= 1] frames.  This is a hypothesis of the lookups that stay
    inside the table; R_LoadMD3 does not establish it for every header it
    installs. *)
Definition tag_table_complete (header : md3Header_t) : Prop :=
  1 <= md3_numFrames header /\ 0 <= md3_numTags header /\
  Z.of_nat (length (md3_tags header)) = md3_numFrames header * md3_numTags header.

(** ** Sample models *)

Definition shiftedMatrix : list float :=
  [ F32.one; F32.zero; F32.zero; F32.two;
    F32.zero; F32.one; F32.zero; F32.zero;
    F32.zero; F32.zero; F32.one; F32.zero ].

Definition sample_surface : md3Surface_t := mk_md3Surface 0 0 0 0 0 0 0 0 0.

(** An MD3 of one frame with the single tag "tag_weapon". *)
Definition sample_md3 : md3Header_t :=
  mk_md3Header 15 1 1 0 0 108 164 276 276
    [tag_of_bone "tag_weapon" identityMatrix] (fun _ => sample_surface).

(** An MDR of two frames and one bone; the bone moves from the origin to
    (2, 0, 0) and carries the tag "tag_weapon". *)
Definition sample_mdr : mdrHeader_t :=
  mk_mdrHeader 2 1 1
    [mk_mdrFrame [identityMatrix]; mk_mdrFrame [shiftedMatrix]]
    [mk_mdrTag 0 "tag_weapon"].

(** A registry holding the default record and one model of each format. *)
Definition sample_tr : trGlobals_t :=
  mk_tr
    [ fresh_model 0;
      mk_model "models/a.md3" MOD_MESH 1 276 data_none
        (fun lod => if lod =? 0 then Some sample_md3 else None) 1;
      mk_model "models/b.mdr" MOD_MDR 2 512 (data_mdr sample_mdr) (fun _ => None) 1;
      mk_model "models/c.iqm" MOD_IQM 3 512 (data_iqm sample_iqm) (fun _ => None) 0 ].

(** The block of [sample_md3] has its header in the bytes 0 to 107 (the
    name field, "models/a.md3" padded with zeros, in the bytes 8 to 71), its
    one frame in the bytes 108 to 163 and its one tag in the bytes 164 to
    275.  Tag index -1 leads to byte 52: the name read there starts in the
    padding of the header's name and is empty; origin and axes are made of
    the frame record, here one with the bounds (-1, -1, -1) and (1, 1, 1),
    the local origin (0, 0, 0), the radius 2 and no name. *)
Definition sample_tag_before_table : md3Tag_t :=
  mk_md3Tag ""
    (Vec3 (F32.of_int (-1)) F32.one F32.one)
    (Vec3 F32.one F32.zero F32.zero)
    (Vec3 F32.zero F32.two F32.zero)
    (Vec3 F32.zero F32.zero F32.zero).

(** A memory for the sample registry.  Of the memory beside the tag table
    of an MD3 the record before the table is given, and nothing is readable
    at the other indexes; the storage of a [modelData] pointer reads as an
    [iqmData_t] without joints, and as an [mdrHeader_t] with [ident] 4096
    and [numFrames] 0. *)
Definition sample_memory : memory_t :=
  mk_memory
    (fun _ i => if i =? -1 then Some sample_tag_before_table else None)
    (fun _ => mk_iqmData 0 0 0 [] [] [] [] [])
    (fun _ => 4096)
    (fun _ => 0).

(** ** The registry (R_RegisterMD3, R_RegisterMDR, R_RegisterIQM,
       RE_RegisterModel) *)

(** What a registration can change or cause: the model table, the names
    handed to [ri.FS_ReadFile] (latest first) and the decodes started
    (latest first, by the name of the file decoded). *)
Record world := mk_world {
  w_tr : trGlobals_t;
  w_reads : list string;
  w_decodes : list string
}.

Definition log_read (name : string) (w : world) : world :=
  mk_world (w_tr w) (name :: w_reads w) (w_decodes w).

Definition log_decode (name : string) (w : world) : world :=
  mk_world (w_tr w) (w_reads w) (name :: w_decodes w).

(** [strchr (filename, '.')] followed by the cut R_RegisterMD3 makes there:
    the text before the first dot and the text after it. *)
Fixpoint split_at_first_dot (s : string) : option (string * string) :=
  match s with
  | EmptyString => None
  | String c rest =>
      if Ascii.eqb c "."%char then Some (EmptyString, rest)
      else
        match split_at_first_dot rest with
        | Some (a, b) => Some (String c a, b)
        | None => None
        end
  end.

(** ["%d"] for a level of detail (one decimal digit). *)
Definition lod_digit (lod : Z) : string :=
  String (ascii_of_nat (48 + Z.to_nat lod)) EmptyString.

(** What a [size]-byte character array holds after [Q_strncpyz] or
    [Com_sprintf]: at most [size - 1] characters. *)
Definition truncate_to (size : Z) (s : string) : string :=
  String.substring 0 (Z.to_nat (size - 1)) s.

Definition set_type (m : model_t) (t : modtype_t) : model_t :=
  mk_model (name m) t (index m) (dataSize m) (modelData m) (md3 m) (numLods m).

Definition set_name_bad (m : model_t) (n : string) : model_t :=
  mk_model n MOD_BAD (index m) (dataSize m) (modelData m) (md3 m) 0.

Definition add_lod (m : model_t) : model_t :=
  mk_model (name m) (type m) (index m) (dataSize m) (modelData m) (md3 m)
    (s32 (numLods m + 1)).

(** [tr.models[mod->index]] is the record [mod] points to: storing the
    record back is how a change through the pointer shows in the table. *)
Definition store_model (m : model_t) (w : world) : world :=
  mk_world (mk_tr (<[Z.to_nat (index m) := m]> (models (w_tr w))))
    (w_reads w) (w_decodes w).

Section Registry.

(** File contents, and the file-read service: [None] is the null buffer of a
    missing file, otherwise the size and the content. *)
Variable buffer : Type.
Variable FS_ReadFile : string -> option (Z * buffer).

(** The first four bytes of a buffer as a little-endian integer, and the
    buffer read as an MD3. *)
Variable ident_of : buffer -> Z.
Variable md3_of : buffer -> md3Header_t.

(** The MDR and IQM decoders, as the flag they return and the model record
    they leave. *)
Variable R_LoadMDR : model_t -> buffer -> Z -> bool * model_t.
Variable R_LoadIQM : model_t -> buffer -> Z -> bool * model_t.

Variable K : constants.

(** String helpers of string_operations.hpp. *)
Variable COM_GetExtension : string -> string.
Variable COM_StripExtension : string -> string.
Variable Q_stricmp : string -> string -> Z.

(** State of the level-of-detail loop of R_RegisterMD3. *)
Record md3_loop_state := mk_md3_loop {
  ls_mod : model_t;
  ls_loaded : bool;
  ls_numLoaded : Z;
  ls_world : world
}.

(** The loop [for (lod = MD3_MAX_LODS - 1; lod >= 0; lod--)], with [n] the
    number of levels left ([lod = n - 1]).  The result carries the value of
    [lod] on exit: the level at which the loop broke off, or -1. *)
Fixpoint R_RegisterMD3_loop (filename fext : string) (n : nat) (st : md3_loop_state)
  : Z * md3_loop_state :=
  match n with
  | O => (-1, st)
  | S n' =>
      let lod := Z.of_nat n' in
      let namebuf :=
        if lod =? 0 then (filename ++ "." ++ fext)%string
        else (filename ++ "_" ++ lod_digit lod ++ "." ++ fext)%string in
      let namebuf := truncate_to (MAX_QPATH K + 20) namebuf in
      let w := log_read namebuf (ls_world st) in
      match FS_ReadFile namebuf with
      | None =>
          R_RegisterMD3_loop filename fext n'
            (mk_md3_loop (ls_mod st) (ls_loaded st) (ls_numLoaded st) w)
      | Some (fileSize, buf) =>
          if fileSize <? (sizeof_md3Header_t K) then
            (lod, mk_md3_loop (ls_mod st) (ls_loaded st) (ls_numLoaded st) w)
          else
            let '(loaded, mod_, w) :=
              if ident_of buf =? (MD3_IDENT K) then
                let '(loaded, mod_) :=
                  R_LoadMD3 K (ls_mod st) lod
                    (md3_of buf) fileSize in
                (loaded, mod_, log_decode namebuf w)
              else (ls_loaded st, ls_mod st, w) in
            if loaded then
              R_RegisterMD3_loop filename fext n'
                (mk_md3_loop (add_lod mod_) loaded (ls_numLoaded st + 1) w)
            else
              (lod, mk_md3_loop mod_ loaded (ls_numLoaded st) w)
      end
  end.

(** "duplicate into higher lod spots that weren't loaded":
    [for (lod--; lod >= 0; lod--)], entered with the decremented [lod]. *)
Fixpoint duplicate_lods (n : nat) (m : model_t) : model_t :=
  match n with
  | O => m
  | S n' =>
      let lod := Z.of_nat n' in
      let m := add_lod m in
      duplicate_lods n'
        (mk_model (name m) (type m) (index m) (dataSize m) (modelData m)
           (set_md3 (md3 m) lod (md3 m (lod + 1))) (numLods m))
  end.

Definition R_RegisterMD3 (name_ : string) (mod_ : model_t) (w : world)
  : Z * model_t * world :=
  let '(filename, fext) :=
    match split_at_first_dot name_ with
    | Some (filename, fext) => (filename, fext)
    | None => (name_, "md3"%string)
    end in
  let '(lod, st) :=
    R_RegisterMD3_loop filename fext (Z.to_nat (MD3_MAX_LODS K))
      (mk_md3_loop mod_ false 0 w) in
  if negb (ls_numLoaded st =? 0) then
    let m := duplicate_lods (Z.to_nat lod) (ls_mod st) in
    (index m, m, ls_world st)
  else
    (0, set_type (ls_mod st) MOD_BAD, ls_world st).

Definition R_RegisterMDR (name_ : string) (mod_ : model_t) (w : world)
  : Z * model_t * world :=
  let w := log_read name_ w in
  match FS_ReadFile name_ with
  | None => (0, set_type mod_ MOD_BAD, w)
  | Some (filesize, buf) =>
      if u64 filesize <? 4 then (0, set_type mod_ MOD_BAD, w)
      else
        let '(loaded, mod_, w) :=
          if ident_of buf =? (MDR_IDENT K) then
            let '(loaded, mod_) := R_LoadMDR mod_ buf filesize in
            (loaded, mod_, log_decode name_ w)
          else (false, mod_, w) in
        if negb loaded then (0, set_type mod_ MOD_BAD, w)
        else (index mod_, mod_, w)
  end.

Definition R_RegisterIQM (name_ : string) (mod_ : model_t) (w : world)
  : Z * model_t * world :=
  let w := log_read name_ w in
  match FS_ReadFile name_ with
  | None => (0, set_type mod_ MOD_BAD, w)
  | Some (filesize, buf) =>
      let '(loaded, mod_) := R_LoadIQM mod_ buf filesize in
      let w := log_decode name_ w in
      if negb loaded then (0, set_type mod_ MOD_BAD, w)
      else (index mod_, mod_, w)
  end.

(** [modelLoaders], in order of preference. *)
Definition modelLoaders
  : list (string * (string -> model_t -> world -> Z * model_t * world)) :=
  [ ("iqm"%string, R_RegisterIQM);
    ("mdr"%string, R_RegisterMDR);
    ("md3"%string, R_RegisterMD3) ].

Definition numModelLoaders : Z := Z.of_nat (length modelLoaders).

(** The search of the loaded models, [hModel] running from its current value
    over the [rest] of the table: the handle returned on a name match, or
    [None] when the loop runs out. *)
Fixpoint search_models (rest : list model_t) (name_ : string) (hModel : Z) : option Z :=
  match rest with
  | [] => None
  | mod_ :: rest' =>
      if String.eqb (name mod_) name_ then
        Some (if modtype_eqb (type mod_) MOD_BAD then 0 else hModel)
      else search_models rest' name_ (hModel + 1)
  end.

(** The loop that looks for the loader of the extension:
    the index of the first loader whose extension compares equal. *)
Fixpoint find_loader (ext : string)
  (loaders : list (string * (string -> model_t -> world -> Z * model_t * world)))
  (i : Z) : option (Z * (string -> model_t -> world -> Z * model_t * world)) :=
  match loaders with
  | [] => None
  | (lext, loader) :: rest =>
      if Q_stricmp ext lext =? 0 then Some (i, loader)
      else find_loader ext rest (i + 1)
  end.

(** The last loop of RE_RegisterModel: every loader but [orgLoader], in
    order, under the name made of [localName] and the loader's extension,
    until one returns a handle. *)
Fixpoint try_loaders (localName : string) (orgLoader : Z)
  (loaders : list (string * (string -> model_t -> world -> Z * model_t * world)))
  (i : Z) (hModel : Z) (mod_ : model_t) (w : world) : Z * model_t * world :=
  match loaders with
  | [] => (hModel, mod_, w)
  | (lext, loader) :: rest =>
      if i =? orgLoader then try_loaders localName orgLoader rest (i + 1) hModel mod_ w
      else
        let altName := truncate_to (MAX_QPATH K) (localName ++ "." ++ lext)%string in
        let '(hModel, mod_, w) := loader altName mod_ w in
        let w := store_model mod_ w in
        if negb (hModel =? 0) then (hModel, mod_, w)
        else try_loaders localName orgLoader rest (i + 1) hModel mod_ w
  end.

(** RE_RegisterModel: the handle returned and the world it leaves.  The
    empty string stands for both a null and an empty [name]. *)
Definition RE_RegisterModel (name_ : string) (w : world) : Z * world :=
  if String.eqb name_ "" then (0, w)
  else if Z.of_nat (String.length name_) >=? (MAX_QPATH K) then (0, w)
  else
    match search_models (drop 1 (models (w_tr w))) name_ 1 with
    | Some hModel => (hModel, w)
    | None =>
        match R_AllocModel K (w_tr w) with
        | None => (0, w)
        | Some (mod_, tr) =>
            let w := mk_world tr (w_reads w) (w_decodes w) in
            let mod_ := set_name_bad mod_ (truncate_to (MAX_QPATH K) name_) in
            let w := store_model mod_ w in
            let localName := truncate_to (MAX_QPATH K) name_ in
            let ext := COM_GetExtension localName in
            let try_all (localName : string) (orgLoader hModel : Z)
                        (mod_ : model_t) (w : world) :=
              let '(hModel, mod_, w) :=
                try_loaders localName orgLoader modelLoaders 0 hModel mod_ w in
              (hModel, w) in
            (* [hModel] still holds the value the search loop ended with *)
            let hModel := numModels (w_tr w) - 1 in
            if String.eqb ext "" then try_all localName (-1) hModel mod_ w
            else
              match find_loader ext modelLoaders 0 with
              | None => try_all localName (-1) hModel mod_ w
              | Some (i, loader) =>
                  let '(hModel, mod_, w) := loader localName mod_ w in
                  let w := store_model mod_ w in
                  if hModel =? 0 then
                    try_all (truncate_to (MAX_QPATH K) (COM_StripExtension name_)) i
                      hModel mod_ w
                  else (index mod_, w)
              end
        end
    end.

End Registry.

(** ** Notions used to state the registry properties *)

(** What RE_RegisterModel relies on from a decoder: it leaves the name and
    the index of the record alone, and a record it reports as loaded is not
    of type [MOD_BAD] (R_LoadMDR sets [MOD_MDR], R_LoadIQM sets [MOD_IQM]
    before they return [true]). *)
Definition decoder_ok {buffer : Type}
  (load : model_t -> buffer -> Z -> bool * model_t) : Prop :=
  forall (m : model_t) (b : buffer) (z : Z),
    name (load m b z).2 = name m /\
    index (load m b z).2 = index m /\
    ((load m b z).1 = true -> type (load m b z).2 <> MOD_BAD).

(** How a handle and a record go together after a loader ran: handle 0 with
    the record marked [MOD_BAD], or the record's index with another type. *)
Definition handle_matches (hModel : Z) (m : model_t) : Prop :=
  (hModel = 0 /\ type m = MOD_BAD) \/ (hModel = index m /\ type m <> MOD_BAD).

(** What a loader leaves behind: name and index as they were, the model
    table untouched, handle and record matched. *)
Definition loader_post (m : model_t) (w : world) (r : Z * model_t * world) : Prop :=
  name r.1.2 = name m /\ index r.1.2 = index m /\ w_tr r.2 = w_tr w /\
  handle_matches r.1.1 r.1.2.

(** Every loader of a list leaves the post-condition. *)
Definition loaders_post
  (loaders : list (string * (string -> model_t -> world -> Z * model_t * world)))
  : Prop :=
  Forall (fun p => forall nm m w, loader_post m w (p.2 nm m w)) loaders.

(** ** A sample file system *)

(** Stand-ins for the helpers of string_operations.hpp, after
    COM_GetExtension, COM_StripExtension and Q_stricmp of q_shared.c. *)
Fixpoint has_slash (s : string) : bool :=
  match s with
  | EmptyString => false
  | String c rest => Ascii.eqb c "/"%char || has_slash rest
  end.

(** The text after the last dot, when no slash follows that dot. *)
Fixpoint extension_of (s : string) : option string :=
  match s with
  | EmptyString => None
  | String c rest =>
      match extension_of rest with
      | Some e => Some e
      | None => if Ascii.eqb c "."%char && negb (has_slash rest) then Some rest else None
      end
  end.

Definition sample_COM_GetExtension (s : string) : string :=
  default EmptyString (extension_of s).

Fixpoint sample_COM_StripExtension (s : string) : string :=
  match s with
  | EmptyString => EmptyString
  | String c rest =>
      match extension_of rest with
      | Some _ => String c (sample_COM_StripExtension rest)
      | None =>
          if Ascii.eqb c "."%char && negb (has_slash rest) then EmptyString
          else String c (sample_COM_StripExtension rest)
      end
  end.

Definition lower_ascii (c : ascii) : ascii :=
  let n := nat_of_ascii c in
  if (65 <=? n)%nat && (n <=? 90)%nat then ascii_of_nat (n + 32) else c.

Fixpoint lower_string (s : string) : string :=
  match s with
  | EmptyString => EmptyString
  | String c rest => String (lower_ascii c) (lower_string rest)
  end.

Definition sample_Q_stricmp (a b : string) : Z :=
  if String.eqb (lower_string a) (lower_string b) then 0 else 1.

(** A file is an MD3 or something else. *)
Inductive sample_file := file_md3 (hdr : md3Header_t) | file_other.

Definition sample_ident_of (f : sample_file) : Z :=
  match f with file_md3 _ => MD3_IDENT quake3_constants | file_other => 0 end.

Definition sample_md3_of (f : sample_file) : md3Header_t :=
  match f with file_md3 hdr => hdr | file_other => sample_md3_file 0 end.

(** The directory holds "models/foo.md3" and its first level of detail
    "models/foo_1.md3", both valid MD3 files, and nothing else. *)
Definition sample_FS_ReadFile (path : string) : option (Z * sample_file) :=
  if String.eqb path "models/foo.md3" || String.eqb path "models/foo_1.md3"
  then Some (16384, file_md3 (sample_md3_file 10))
  else None.

(** No MDR or IQM file decodes in the sample. *)
Definition sample_R_LoadMDR (m : model_t) (b : sample_file) (z : Z) : bool * model_t :=
  (false, m).
Definition sample_R_LoadIQM (m : model_t) (b : sample_file) (z : Z) : bool * model_t :=
  (false, m).

Definition sample_RE_RegisterModel : string -> world -> Z * world :=
  RE_RegisterModel sample_file sample_FS_ReadFile sample_ident_of sample_md3_of
    sample_R_LoadMDR sample_R_LoadIQM quake3_constants
    sample_COM_GetExtension sample_COM_StripExtension sample_Q_stricmp.

(** The world after R_ModelInit, before any read or decode. *)
Definition sample_world : world :=
  mk_world (default (mk_tr []) (R_ModelInit quake3_constants (mk_tr []))) [] [].

(** ** Notions used to state further tag and loader properties *)

(** The tag block of the frame R_GetTag reads: the [numTags] tags that
    follow index [frame * numTags], [frame] being clamped first. *)
Definition tag_block (header : md3Header_t) (frame : Z) : list md3Tag_t :=
  take (Z.to_nat (md3_numTags header))
    (drop (Z.to_nat (clamped_frame (md3_numFrames header) frame * md3_numTags header))
       (md3_tags header)).

(** The first tag of a list that carries [tagName]. *)
Definition first_tag_named (tagName : string) (tags : list md3Tag_t) : option md3Tag_t :=
  List.find (fun t => String.eqb (tag_name t) tagName) tags.

(** An MDR whose tables are in order: there is at least one frame, the
    frames and the tag table have the declared lengths, every frame holds
    [numBones] bones, and every tag names one of them.  A hypothesis of the
    lookups below, not something shown of R_LoadMDR. *)
Definition mdr_wf (mdr : mdrHeader_t) : Prop :=
  1 <= mdr_numFrames mdr /\
  Z.of_nat (length (mdr_frames mdr)) = mdr_numFrames mdr /\
  Z.of_nat (length (mdr_tags mdr)) = mdr_numTags mdr /\
  (forall f, f ∈ mdr_frames mdr -> Z.of_nat (length (mdr_bones f)) = mdr_numBones mdr) /\
  (forall t, t ∈ mdr_tags mdr -> 0 <= mdr_boneIndex t < mdr_numBones mdr).

(** A surface record with another end offset. *)
Definition with_ofsEnd (surf : md3Surface_t) (ofsEnd : Z) : md3Surface_t :=
  mk_md3Surface (surf_numFrames surf) (surf_numShaders surf) (surf_numVerts surf)
    (surf_numTriangles surf) (surf_ofsTriangles surf) (surf_ofsShaders surf)
    (surf_ofsSt surf) (surf_ofsXyzNormals surf) ofsEnd.

(** What R_LoadIQM leaves for the evaluator when it accepts a file: at most
    [IQM_MAX_JOINTS] joints, as many poses as joints or none, one transform
    per pose and frame, parents between -1 and the joint count, twelve
    floats per joint in both matrix arrays, one name per joint. *)
Definition iqm_wf (K : constants) (data : iqmData_t) : Prop :=
  0 <= num_joints data <= IQM_MAX_JOINTS K /\
  (num_poses data = 0 \/ num_poses data = num_joints data) /\
  0 <= num_frames data /\
  num_frames data * num_poses data < 2 ^ 31 /\
  Z.of_nat (length (poses data)) = num_frames data * num_poses data /\
  Z.of_nat (length (jointParents data)) = num_joints data /\
  (forall p, p ∈ jointParents data -> -1 <= p < num_joints data) /\
  Z.of_nat (length (bindJoints data)) = 12 * num_joints data /\
  Z.of_nat (length (invBindJoints data)) = 12 * num_joints data /\
  Z.of_nat (length (jointNames data)) = num_joints data.

(** The orientation R_IQMLerpTag reads off a joint matrix: the last column
    is the origin, the columns of the rotation part are the axes. *)
Definition orientation_of_matrix (m : list float) : orientation_t :=
  mk_orientation
    (Vec3 (fget m 3) (fget m 7) (fget m 11))
    (Vec3 (fget m 0) (fget m 4) (fget m 8))
    (Vec3 (fget m 1) (fget m 5) (fget m 9))
    (Vec3 (fget m 2) (fget m 6) (fget m 10)).

(** ** Fog volume of a model (R_MDRComputeFogNum, R_ComputeIQMFogNum) *)

(** C's [x >= y] and [x <= y] on floats: false when either is a NaN. *)
Definition f32_leb (x y : float) : bool := SFleb x y.
Definition f32_geb (x y : float) : bool := SFleb y x.

(** [v[j]] for [j] in 0..2. *)
Definition vec_at (v : vec3_t) (j : nat) : float :=
  match j with
  | 0%nat => v_0 v
  | 1%nat => v_1 v
  | _ => v_2 v
  end.

(** [fog_t], the bounds only, and the part of [world_t] the fog search
    reads. *)
Record fog_t := mk_fog { fog_bounds_0 : vec3_t; fog_bounds_1 : vec3_t }.

Record world_t := mk_worldData { numfogs : Z; fogs : list fog_t }.

(** The two tests of the inner loop for axis [j]: [true] when the loop
    breaks there. *)
Definition fog_axis_breaks (localOrigin : vec3_t) (radius : float) (fog : fog_t)
  (j : nat) : bool :=
  f32_geb (vec_at localOrigin j - radius)%f32 (vec_at (fog_bounds_1 fog) j) ||
  f32_leb (vec_at localOrigin j + radius)%f32 (vec_at (fog_bounds_0 fog) j).

(** The inner loop [for (j = 0; j < 3; j++)] ends with [j == 3]. *)
Definition fog_holds (localOrigin : vec3_t) (radius : float) (fog : fog_t) : bool :=
  negb (fog_axis_breaks localOrigin radius fog 0) &&
  negb (fog_axis_breaks localOrigin radius fog 1) &&
  negb (fog_axis_breaks localOrigin radius fog 2).

(** The loop [for (i = 1; i < tr.world->numfogs; i++)], with [n] iterations
    left and [i] the fog index; falling out of it returns 0. *)
Fixpoint fog_search (fogs : list fog_t) (localOrigin : vec3_t) (radius : float)
  (n : nat) (i : Z) : option Z :=
  match n with
  | O => Some 0
  | S n' =>
      fog ← rd fogs i;
      if fog_holds localOrigin radius fog then Some i
      else fog_search fogs localOrigin radius n' (i + 1)
  end.

(** The fields of [mdrFrame_t] the fog search reads. *)
Record mdrFrameSphere_t := mk_mdrFrameSphere {
  mdr_localOrigin : vec3_t;
  mdr_radius : float
}.

Section FogNum.

(** [RDF_NOWORLDMODEL] of tr_types.h and the vector helpers of q_shared.h
    and math.hpp. *)
Variable RDF_NOWORLDMODEL : Z.
Variable VectorAdd : vec3_t -> vec3_t -> vec3_t.
Variable VectorSubtract : vec3_t -> vec3_t -> vec3_t.
Variable VectorMA : vec3_t -> float -> vec3_t -> vec3_t.
Variable VectorLength : vec3_t -> float.

(** R_MDRComputeFogNum.  [rdflags] is [tr.refdef.rdflags], [world] what
    [tr.world] points to ([None] for a null pointer), [frames] the frames of
    the model, [origin] the entity's origin. *)
Definition R_MDRComputeFogNum (rdflags : Z) (world : option world_t)
  (frames : list mdrFrameSphere_t) (ent : refEntity_t) (origin : vec3_t) : option Z :=
  if negb (Z.land rdflags RDF_NOWORLDMODEL =? 0) then Some 0
  else
    mdrFrame ← rd frames (frame ent);
    let localOrigin := VectorAdd origin (mdr_localOrigin mdrFrame) in
    w ← world;
    fog_search (fogs w) localOrigin (mdr_radius mdrFrame)
      (Z.to_nat (numfogs w - 1)) 1.

(** The six floats of the bounds of one frame as two corners. *)
Definition bounds_at (bounds : list float) (off : Z) : option (vec3_t * vec3_t) :=
  if (0 <=? off) && (off + 6 <=? Z.of_nat (length bounds)) then
    let b := drop (Z.to_nat off) bounds in
    Some (Vec3 (fget b 0) (fget b 1) (fget b 2), Vec3 (fget b 3) (fget b 4) (fget b 5))
  else None.

(** [defaultBounds] of R_ComputeIQMFogNum. *)
Definition defaultBounds : vec3_t * vec3_t :=
  (Vec3 (F32.of_int (-8)) (F32.of_int (-8)) (F32.of_int (-8)),
   Vec3 (F32.of_int 8) (F32.of_int 8) (F32.of_int 8)).

(** R_ComputeIQMFogNum.  [bounds] is [data.bounds] ([None] for a null
    pointer): six floats per frame. *)
Definition R_ComputeIQMFogNum (rdflags : Z) (world : option world_t)
  (bounds : option (list float)) (ent : refEntity_t) (origin : vec3_t) : option Z :=
  if negb (Z.land rdflags RDF_NOWORLDMODEL =? 0) then Some 0
  else
    b ← match bounds with
        | Some bs => bounds_at bs (s32 (6 * frame ent))
        | None => Some defaultBounds
        end;
    let diag := VectorSubtract b.2 b.1 in
    let center := VectorMA b.1 lit_0_5 diag in
    let localOrigin := VectorAdd origin center in
    let radius := (lit_0_5 * VectorLength diag)%f32 in
    w ← world;
    fog_search (fogs w) localOrigin radius (Z.to_nat (numfogs w - 1)) 1.

End FogNum.

(** ** Sample fog world *)

(** The vector helpers of q_shared.h on the three components. *)
Definition sample_VectorAdd (a b : vec3_t) : vec3_t :=
  Vec3 (v_0 a + v_0 b)%f32 (v_1 a + v_1 b)%f32 (v_2 a + v_2 b)%f32.

Definition sample_VectorSubtract (a b : vec3_t) : vec3_t :=
  Vec3 (v_0 a - v_0 b)%f32 (v_1 a - v_1 b)%f32 (v_2 a - v_2 b)%f32.

Definition sample_VectorMA (v : vec3_t) (s : float) (b : vec3_t) : vec3_t :=
  Vec3 (v_0 v + v_0 b * s)%f32 (v_1 v + v_1 b * s)%f32 (v_2 v + v_2 b * s)%f32.

Definition sample_VectorLength (v : vec3_t) : float :=
  F32.sqrtf (v_0 v * v_0 v + v_1 v * v_1 v + v_2 v * v_2 v)%f32.

(** A fog whose bounds are the cube from [lo] to [hi]. *)
Definition sample_fog (lo hi : Z) : fog_t :=
  mk_fog (Vec3 (F32.of_int lo) (F32.of_int lo) (F32.of_int lo))
         (Vec3 (F32.of_int hi) (F32.of_int hi) (F32.of_int hi)).

(** A world of three fogs: the unused fog 0, a cube away from the origin
    and a cube around it. *)
Definition sample_fog_world : world_t :=
  mk_worldData 3 [sample_fog 0 0; sample_fog 10 20; sample_fog (-100) 100].

(** One MDR frame: a sphere of radius 1 around the model's origin. *)
Definition sample_spheres : list mdrFrameSphere_t :=
  [mk_mdrFrameSphere VectorClear F32.one].

(** The bounds of one IQM frame: the cube from -1 to 1. *)
Definition sample_bounds : list float :=
  [F32.of_int (-1); F32.of_int (-1); F32.of_int (-1); F32.one; F32.one; F32.one].

(* ================================================================== *)
(** * Part II: properties *)
(* ================================================================== *)

(** ** IQM_CheckRange *)

Lemma s32_id (z : Z) : in_s32 z -> s32 z = z.
Proof.
  unfold in_s32, s32. intros H.
  rewrite Z.mod_small by lia. lia.
Qed.

Lemma s32_range (z : Z) : in_s32 (s32 z).
Proof.
  unfold in_s32, s32.
  pose proof (Z.mod_pos_bound (z + 2 ^ 31) (2 ^ 32) ltac:(lia)). lia.
Qed.

Lemma u32_add_idem (a b : Z) : u32 (u32 a + u32 b) = u32 (a + b).
Proof. unfold u32. symmetry. apply Z.add_mod. lia. Qed.

Lemma u32_s32 (z : Z) : u32 (s32 z) = u32 z.
Proof.
  unfold u32, s32.
  rewrite Zminus_mod, Z.mod_mod by lia.
  rewrite <- Zminus_mod.
  f_equal. lia.
Qed.

(** X1.  When the product [count * size] itself does not overflow, a triple
    IQM_CheckRange accepts does fit the file. *)
Lemma IQM_CheckRange_sound_without_product_overflow
  (header : iqmHeader_t) (offset count size : Z) :
  in_s32 offset -> in_u32 (filesize header) ->
  in_s32 (count * size) ->
  IQM_CheckRange header offset count size = false ->
  range_fits header offset count size.
Proof.
  intros Ho Hf Hp Hc.
  unfold IQM_CheckRange in Hc.
  repeat (apply orb_false_elim in Hc; destruct Hc as [Hc ?]).
  rewrite (s32_id (count * size)) in * by assumption.
  rewrite u32_add_idem in *.
  unfold in_s32, in_u32, range_fits in *.
  assert (Hsum : - 2 ^ 31 < offset + count * size < 2 ^ 32) by lia.
  assert (Hnn : 0 <= offset + count * size < 2 ^ 31).
  { unfold s32 in H0.
    destruct (Z_lt_ge_dec (offset + count * size) (2 ^ 31)) as [Hlt | Hge].
    - rewrite Z.mod_small in H0 by lia. lia.
    - replace (offset + count * size + 2 ^ 31)
        with ((offset + count * size - 2 ^ 31) + 1 * 2 ^ 32) in H0 by lia.
      rewrite Z.mod_add in H0 by lia.
      rewrite Z.mod_small in H0 by lia. lia. }
  unfold u32 in H. rewrite Z.mod_small in H by lia.
  unfold in_s32. lia.
Qed.

(** Non-positive counts and offsets are always rejected. *)
Lemma IQM_CheckRange_rejects_nonpositive
  (header : iqmHeader_t) (offset count size : Z) :
  count <= 0 \/ offset <= 0 ->
  IQM_CheckRange header offset count size = true.
Proof.
  intros [H | H]; unfold IQM_CheckRange.
  - replace (count <=? 0) with true by (symmetry; apply Z.leb_le; lia).
    reflexivity.
  - replace (offset <=? 0) with true by (symmetry; apply Z.leb_le; lia).
    rewrite orb_true_r. reflexivity.
Qed.

(** C9.  [IQM_CheckRange] is meant to reject every (offset, count, size)
    whose byte range does not fit the file.  At a 1024-byte file, offset 16,
    count 2^30 and element size 4 the product wraps to 0 in [int], the check
    accepts, and the range ends 4 GiB past the file. *)
Theorem IQM_CheckRange_accepts_wrapped_product :
  let header := mk_iqmHeader 1024 0 0 0 0 in
  IQM_CheckRange header 16 1073741824 4 = false /\
  ~ in_s32 (1073741824 * 4) /\
  16 + 1073741824 * 4 > filesize header /\
  ~ range_fits header 16 1073741824 4.
Proof.
  cbv zeta. split; [vm_compute; reflexivity|].
  split; [unfold in_s32; lia|].
  split; [simpl; lia|].
  unfold range_fits, in_s32. simpl. lia.
Qed.

(** ** Frame validation *)

Lemma validate_frames_in_range (numFrames : Z) (ent : refEntity_t) :
  1 <= numFrames -> frames_in_range numFrames (validate_frames numFrames ent).
Proof.
  intros Hn. unfold validate_frames, frames_in_range.
  destruct (frame ent >=? numFrames) eqn:E1; simpl; [lia|].
  destruct (frame ent <? 0) eqn:E2; simpl; [lia|].
  destruct (oldframe ent >=? numFrames) eqn:E3; simpl; [lia|].
  destruct (oldframe ent <? 0) eqn:E4; simpl; [lia|].
  lia.
Qed.

Lemma validate_frames_resets (numFrames : Z) (ent : refEntity_t) :
  ~ frames_in_range numFrames ent ->
  frame (validate_frames numFrames ent) = 0 /\
  oldframe (validate_frames numFrames ent) = 0.
Proof.
  intros Hn. unfold validate_frames, frames_in_range in *.
  destruct (frame ent >=? numFrames) eqn:E1; simpl; [auto|].
  destruct (frame ent <? 0) eqn:E2; simpl; [auto|].
  destruct (oldframe ent >=? numFrames) eqn:E3; simpl; [auto|].
  destruct (oldframe ent <? 0) eqn:E4; simpl; [auto|].
  exfalso. apply Hn. lia.
Qed.

Lemma validate_frames_keeps (numFrames : Z) (ent : refEntity_t) :
  frames_in_range numFrames ent -> validate_frames numFrames ent = ent.
Proof.
  intros [Hf Ho]. unfold validate_frames.
  replace (frame ent >=? numFrames) with false by (symmetry; lia).
  replace (frame ent <? 0) with false by (symmetry; lia).
  replace (oldframe ent >=? numFrames) with false by (symmetry; lia).
  replace (oldframe ent <? 0) with false by (symmetry; lia).
  reflexivity.
Qed.

(** ** binary32: the sign passes through rounding *)

Section FloatSign.

Lemma binary_round_aux_sign (s : bool) (m e : Z) (l : location) :
  binary_round_aux F32.prec F32.emax (negb s) m e l =
  SFopp (binary_round_aux F32.prec F32.emax s m e l).
Proof.
  unfold binary_round_aux.
  destruct (shr_fexp F32.prec F32.emax m e l) as [mrs' e'].
  destruct (shr_fexp F32.prec F32.emax _ e' loc_Exact) as [mrs'' e''].
  destruct (shr_m mrs'') as [|p|p]; simpl; try reflexivity.
  destruct (e'' <=? F32.emax - F32.prec); reflexivity.
Qed.

Lemma binary_round_sign (s : bool) (m : positive) (e : Z) :
  binary_round F32.prec F32.emax (negb s) m e =
  SFopp (binary_round F32.prec F32.emax s m e).
Proof.
  unfold binary_round.
  destruct (shl_align m e _) as [mz ez].
  apply binary_round_aux_sign.
Qed.

Lemma neg_involutive (x : float) : (- - x)%f32 = x.
Proof. destruct x as [s|s| |s m e]; simpl; try rewrite negb_involutive; reflexivity. Qed.

Lemma mul_neg_r (x y : float) : (x * - y)%f32 = (- (x * y))%f32.
Proof.
  destruct x as [sx|sx| |sx mx ex], y as [sy|sy| |sy my ey]; simpl;
    try reflexivity; try (rewrite <- negb_xorb_r; reflexivity).
  unfold F32.mul, F32.neg; simpl.
  rewrite <- negb_xorb_r. apply binary_round_aux_sign.
Qed.

End FloatSign.

Section FloatAdd.

Lemma add_neg_neg (x y : float) : neg_sim (x + y)%f32 (- x + - y)%f32.
Proof.
  destruct x as [sx|sx| |sx mx ex], y as [sy|sy| |sy my ey];
    try (left; reflexivity);
    try (destruct sx, sy; simpl; (left; reflexivity) || (right; split; reflexivity)).
  unfold F32.add, F32.neg, SFadd, SFopp.
  set (a := Z.pos (shl_align mx ex (Z.min ex ey)).1).
  set (b := Z.pos (shl_align my ey (Z.min ex ey)).1).
  replace (cond_Zopp (negb sx) a + cond_Zopp (negb sy) b)
    with (- (cond_Zopp sx a + cond_Zopp sy b))
    by (destruct sx, sy; simpl; lia).
  destruct (cond_Zopp sx a + cond_Zopp sy b) as [|p|p]; simpl.
  - right. split; reflexivity.
  - left. apply (binary_round_sign false).
  - left. rewrite (binary_round_sign false). symmetry. apply (neg_involutive _).
Qed.

Lemma add_neg_sim (x x' y y' : float) :
  neg_sim x x' -> neg_sim y y' -> neg_sim (x + y)%f32 (x' + y')%f32.
Proof.
  intros [-> | [Zx Zx']] [-> | [Zy Zy']].
  - apply add_neg_neg.
  - destruct x as [sx|sx| |sx mx ex], y as [sy| | |], y' as [sy'| | |];
      try discriminate; try (left; reflexivity).
    right. destruct sx, sy, sy'; split; reflexivity.
  - destruct y as [sy|sy| |sy my ey], x as [sx| | |], x' as [sx'| | |];
      try discriminate; try (left; reflexivity).
    right. destruct sy, sx, sx'; split; reflexivity.
  - destruct x as [sx| | |], x' as [sx'| | |], y as [sy| | |], y' as [sy'| | |];
      try discriminate.
    right. destruct sx, sx', sy, sy'; split; reflexivity.
Qed.

Lemma neg_sim_negative (s s' : float) :
  neg_sim s s' -> (s <? F32.zero)%f32 = true ->
  s' = (- s)%f32 /\ (s' <? F32.zero)%f32 = false.
Proof.
  intros [-> | [Z _]] H.
  - split; [reflexivity|].
    destruct s as [b|b| |b m e]; try discriminate; destruct b; try discriminate;
      reflexivity.
  - destruct s; discriminate.
Qed.

Lemma QuatDot_negate (a b : quat_t) :
  neg_sim (QuatDot a b) (QuatDot a (QuatNegate b)).
Proof.
  unfold QuatDot, QuatNegate; simpl.
  repeat apply add_neg_sim; left; apply mul_neg_r.
Qed.

Lemma mul_self_sign_clear (x : float) : sign_clear (x * x)%f32.
Proof.
  destruct x as [s|s| |s m e]; simpl; try (destruct s; reflexivity); try exact I.
  unfold F32.mul, SFmul. rewrite xorb_nilpotent.
  unfold binary_round_aux.
  destruct (shr_fexp F32.prec F32.emax _ _ loc_Exact) as [mrs' e'].
  destruct (shr_fexp F32.prec F32.emax _ e' loc_Exact) as [mrs'' e''].
  destruct (shr_m mrs'') as [|p|p]; simpl; try reflexivity.
  destruct (e'' <=? F32.emax - F32.prec); reflexivity.
Qed.

Lemma binary_round_sign_clear (m : positive) (e : Z) :
  sign_clear (binary_round F32.prec F32.emax false m e).
Proof.
  unfold binary_round. destruct (shl_align m e _) as [mz ez].
  unfold binary_round_aux.
  destruct (shr_fexp F32.prec F32.emax _ _ loc_Exact) as [mrs' e'].
  destruct (shr_fexp F32.prec F32.emax _ e' loc_Exact) as [mrs'' e''].
  destruct (shr_m mrs'') as [|p|p]; simpl; try reflexivity.
  destruct (e'' <=? F32.emax - F32.prec); reflexivity.
Qed.

Lemma add_sign_clear (x y : float) :
  sign_clear x -> sign_clear y -> sign_clear (x + y)%f32.
Proof.
  destruct x as [sx|sx| |sx mx ex], y as [sy|sy| |sy my ey]; simpl;
    intros Hx Hy; subst; try reflexivity; try exact I.
  unfold F32.add, SFadd. simpl. apply binary_round_sign_clear.
Qed.

Lemma sign_clear_not_negative (x : float) :
  sign_clear x -> (x <? F32.zero)%f32 = false.
Proof. destruct x as [s|s| |s m e]; simpl; intros H; subst; reflexivity. Qed.

Lemma QuatDot_self_not_negative (q : quat_t) :
  (QuatDot q q <? F32.zero)%f32 = false.
Proof.
  apply sign_clear_not_negative. unfold QuatDot.
  repeat apply add_sign_clear; apply mul_self_sign_clear.
Qed.

End FloatAdd.

(** ** binary32: multiplying by one, adding a zero *)

Section FloatUnits.

Lemma one_eq : F32.one = S754_finite false 8388608 (-23).
Proof. reflexivity. Qed.

Lemma mul_one_r (x : float) : F32.finite x = true -> (x * F32.one)%f32 = x.
Proof.
  rewrite one_eq.
  destruct x as [s|s| |s m e]; intros H; try discriminate.
  - unfold F32.mul, SFmul. rewrite xorb_false_r. reflexivity.
  - unfold F32.mul, SFmul. rewrite xorb_false_r.
    unfold F32.finite, bounded, canonical_mantissa in H.
    apply andb_true_iff in H. destruct H as [Hc Hb].
    apply Z.eqb_eq in Hc.
    rewrite (Pos.mul_comm m 8388608).
    change (8388608 * m)%positive
      with (m~0~0~0~0~0~0~0~0~0~0~0~0~0~0~0~0~0~0~0~0~0~0~0)%positive.
    unfold binary_round_aux, shr_fexp.
    assert (Hd : Zdigits2 (Z.pos m~0~0~0~0~0~0~0~0~0~0~0~0~0~0~0~0~0~0~0~0~0~0~0)
                 = Z.pos (digits2_pos m) + 23).
    { simpl. lia. }
    rewrite Hd.
    replace (Z.pos (digits2_pos m) + 23 + (e + -23)) with (Z.pos (digits2_pos m) + e) by lia.
    rewrite Hc.
    replace (e - (e + -23)) with 23 by lia.
    simpl shr.
    cbv zeta iota beta.
    simpl shr_m. simpl loc_of_shr_record. simpl round_nearest_even.
    simpl Zdigits2.
    replace (e + -23 + 23) with e by lia.
    rewrite Hc, Z.sub_diag. simpl.
    rewrite Hb. reflexivity.
Qed.

Lemma mul_zero_r (x : float) :
  F32.finite x = true -> F32.is_zero (x * F32.zero)%f32 = true.
Proof. destruct x as [s|s| |s m e]; intros H; try discriminate; reflexivity. Qed.

Lemma add_zero_of_mul_r (x : float) :
  F32.finite x = true -> (x + x * F32.zero)%f32 = x.
Proof.
  destruct x as [s|s| |s m e]; intros H; try discriminate.
  - destruct s; reflexivity.
  - reflexivity.
Qed.

Lemma add_zero_of_mul_l (x : float) :
  F32.finite x = true -> (x * F32.zero + x)%f32 = x.
Proof.
  destruct x as [s|s| |s m e]; intros H; try discriminate.
  - destruct s; reflexivity.
  - reflexivity.
Qed.

Lemma blend_at_zero (x : float) :
  F32.finite x = true ->
  (x * (F32.one - F32.zero) + x * F32.zero)%f32 = x.
Proof.
  intros H. change (F32.one - F32.zero)%f32 with F32.one.
  rewrite mul_one_r by assumption. apply add_zero_of_mul_r; assumption.
Qed.

Lemma blend_at_one (x : float) :
  F32.finite x = true ->
  (x * (F32.one - F32.one) + x * F32.one)%f32 = x.
Proof.
  intros H. change (F32.one - F32.one)%f32 with F32.zero.
  rewrite mul_one_r by assumption. apply add_zero_of_mul_l; assumption.
Qed.

End FloatUnits.

(** ** QuatSlerp *)

Section QuatSlerpFacts.

Variable acosf : float -> float.
Variable sinf : float -> float.

(** With a negative dot product QuatSlerp blends [from] with the negated
    target, using the negated (hence positive) cosine. *)
Lemma QuatSlerp_negative_dot (from to : quat_t) (f : float) :
  (QuatDot from to <? F32.zero)%f32 = true ->
  QuatSlerp acosf sinf from to f =
  quat_blend from (QuatNegate to) (QuatSlerp_weights acosf sinf (- QuatDot from to)%f32 f).
Proof.
  intros H. unfold QuatSlerp. rewrite H.
  destruct (QuatSlerp_weights _ _ _ _) as [backlerp lerp]. reflexivity.
Qed.

Lemma QuatSlerp_nonnegative_dot (from to : quat_t) (f : float) :
  (QuatDot from to <? F32.zero)%f32 = false ->
  QuatSlerp acosf sinf from to f =
  quat_blend from to (QuatSlerp_weights acosf sinf (QuatDot from to) f).
Proof.
  intros H. unfold QuatSlerp. rewrite H.
  destruct (QuatSlerp_weights _ _ _ _) as [backlerp lerp]. reflexivity.
Qed.

(** ... which is what interpolating towards the negated target gives. *)
Lemma QuatSlerp_negated_target (from to : quat_t) (f : float) :
  (QuatDot from to <? F32.zero)%f32 = true ->
  QuatSlerp acosf sinf from to f = QuatSlerp acosf sinf from (QuatNegate to) f.
Proof.
  intros H.
  destruct (neg_sim_negative _ _ (QuatDot_negate from to) H) as [E N].
  rewrite (QuatSlerp_negative_dot _ _ _ H).
  rewrite (QuatSlerp_nonnegative_dot _ _ _ N).
  rewrite E. reflexivity.
Qed.

Lemma QuatNegate_involutive (q : quat_t) : QuatNegate (QuatNegate q) = q.
Proof.
  destruct q as [a b c d]. unfold QuatNegate; simpl.
  rewrite !neg_involutive. reflexivity.
Qed.

Lemma QuatSlerp_self_blend (q : quat_t) (f : float) :
  QuatSlerp acosf sinf q q f =
  quat_blend q q (QuatSlerp_weights acosf sinf (QuatDot q q) f).
Proof. apply QuatSlerp_nonnegative_dot, QuatDot_self_not_negative. Qed.

Lemma QuatSlerp_self_endpoints (q : quat_t) :
  (QuatDot q q <? F32.lit_0_999999)%f32 = false -> quat_finite q ->
  QuatSlerp acosf sinf q q F32.zero = q /\ QuatSlerp acosf sinf q q F32.one = q.
Proof.
  intros Hlin (H0 & H1 & H2 & H3).
  rewrite !QuatSlerp_self_blend. unfold QuatSlerp_weights. rewrite Hlin.
  destruct q as [a b c d]; simpl in *. unfold quat_blend; simpl.
  split.
  - rewrite !blend_at_zero by assumption. reflexivity.
  - rewrite !blend_at_one by assumption. reflexivity.
Qed.

Lemma QuatSlerp_self_linear (q : quat_t) (f : float) :
  (QuatDot q q <? F32.lit_0_999999)%f32 = false ->
  QuatSlerp acosf sinf q q f = quat_blend q q ((F32.one - f)%f32, f).
Proof.
  intros Hlin. rewrite QuatSlerp_self_blend. unfold QuatSlerp_weights.
  rewrite Hlin. reflexivity.
Qed.

(** C5, as the code has it.  When the dot product of [q] and [-q] is
    negative, QuatSlerp (q, -q, f) negates the target and the cosine and so
    returns exactly what QuatSlerp (q, q, f) returns.  QuatSlerp (q, q, f)
    itself is the float blend [q * backlerp + q * lerp] of [q] with itself,
    with the weights QuatSlerp derives from the squared length of [q] and
    [f]; when the squared length is not below 0.999999f the weights are
    [1 - f] and [f], and if the components are finite as well the blend is
    [q] at the fractions 0 and 1. *)
Theorem QuatSlerp_self_and_negated (q : quat_t) (f : float) :
  ((QuatDot q (QuatNegate q) <? F32.zero)%f32 = true ->
   QuatSlerp acosf sinf q (QuatNegate q) f = QuatSlerp acosf sinf q q f /\
   QuatSlerp acosf sinf q (QuatNegate q) f =
     quat_blend q q
       (QuatSlerp_weights acosf sinf (- QuatDot q (QuatNegate q))%f32 f)) /\
  QuatSlerp acosf sinf q q f =
    quat_blend q q (QuatSlerp_weights acosf sinf (QuatDot q q) f) /\
  ((QuatDot q q <? F32.lit_0_999999)%f32 = false ->
   QuatSlerp acosf sinf q q f = quat_blend q q ((F32.one - f)%f32, f) /\
   (quat_finite q ->
    QuatSlerp acosf sinf q q F32.zero = q /\ QuatSlerp acosf sinf q q F32.one = q)).
Proof.
  split; [|split].
  - intros H. split.
    + rewrite (QuatSlerp_negated_target _ _ _ H), QuatNegate_involutive. reflexivity.
    + rewrite (QuatSlerp_negative_dot _ _ _ H), QuatNegate_involutive. reflexivity.
  - apply QuatSlerp_self_blend.
  - intros Hlin. split.
    + apply QuatSlerp_self_linear. exact Hlin.
    + intros Hfin. apply QuatSlerp_self_endpoints; assumption.
Qed.

End QuatSlerpFacts.

(** At the unit quaternion (0.6f, 0.8f, 0, 0) the dot product with the
    negated quaternion is negative, the squared length is not below
    0.999999f and the components are finite. *)
Lemma QuatSlerp_self_and_negated_witness :
  (QuatDot sample_quat (QuatNegate sample_quat) <? F32.zero)%f32 = true /\
  (QuatDot sample_quat sample_quat <? F32.lit_0_999999)%f32 = false /\
  quat_finite sample_quat /\
  QuatSlerp (fun x => x) (fun x => x) sample_quat (QuatNegate sample_quat) lit_0_1 =
  QuatSlerp (fun x => x) (fun x => x) sample_quat sample_quat lit_0_1 /\
  QuatSlerp (fun x => x) (fun x => x) sample_quat sample_quat lit_0_1 =
  quat_blend sample_quat sample_quat ((F32.one - lit_0_1)%f32, lit_0_1) /\
  QuatSlerp (fun x => x) (fun x => x) sample_quat sample_quat F32.zero = sample_quat /\
  QuatSlerp (fun x => x) (fun x => x) sample_quat sample_quat F32.one = sample_quat.
Proof.
  assert (Hneg : (QuatDot sample_quat (QuatNegate sample_quat) <? F32.zero)%f32 = true)
    by reflexivity.
  assert (Hlin : (QuatDot sample_quat sample_quat <? F32.lit_0_999999)%f32 = false)
    by reflexivity.
  assert (Hfin : quat_finite sample_quat) by (repeat split; reflexivity).
  destruct (QuatSlerp_self_and_negated (fun x => x) (fun x => x) sample_quat lit_0_1)
    as (Hn & _ & Hl).
  destruct (Hn Hneg) as [Hsame _].
  destruct (Hl Hlin) as [Hblend Hends].
  destruct (Hends Hfin) as [H0 H1].
  repeat (split; [assumption|]). exact H1.
Defined.

(** C5 as stated fails, whatever [acosf] and [sinf] are: the unit quaternion
    (0.6f, 0.8f, 0, 0) blended with itself at the fraction 2^30 is the zero
    quaternion, since 1 - 2^30 is -2^30 in binary32; at the fraction 0.1f
    the blend differs from it in the last bit of the second component. *)
Lemma QuatSlerp_self_not_identity :
  (forall acosf sinf : float -> float,
     QuatSlerp acosf sinf sample_quat sample_quat (F32.of_int (2 ^ 30)) =
       Quat F32.zero F32.zero F32.zero F32.zero) /\
  (forall acosf sinf : float -> float,
     QuatSlerp acosf sinf sample_quat sample_quat (F32.of_int (2 ^ 30)) <> sample_quat) /\
  (forall acosf sinf : float -> float,
     QuatSlerp acosf sinf sample_quat sample_quat lit_0_1 <> sample_quat) /\
  ~ (forall (acosf sinf : float -> float) (q : quat_t) (f : float),
        QuatSlerp acosf sinf q q f = q).
Proof.
  assert (Hbig : forall acosf sinf : float -> float,
            QuatSlerp acosf sinf sample_quat sample_quat (F32.of_int (2 ^ 30)) =
            Quat F32.zero F32.zero F32.zero F32.zero).
  { intros acosf sinf.
    rewrite (QuatSlerp_self_linear acosf sinf sample_quat _ eq_refl).
    vm_compute. reflexivity. }
  assert (Hsmall : forall acosf sinf : float -> float,
            QuatSlerp acosf sinf sample_quat sample_quat lit_0_1 <> sample_quat).
  { intros acosf sinf.
    rewrite (QuatSlerp_self_linear acosf sinf sample_quat _ eq_refl).
    vm_compute. discriminate. }
  split; [exact Hbig|]. split; [|split; [exact Hsmall|]].
  - intros acosf sinf. rewrite Hbig. vm_compute. discriminate.
  - intros H. apply (Hsmall (fun x => x) (fun x => x)). apply H.
Qed.

(** A quaternion shorter than a unit one takes the spherical branch, where
    the result depends on the library.  For the quaternion (0.5f, 0, 0, 0)
    and the fraction 0.5f, with an [acosf] and a [sinf] that return the
    binary32 numbers nearest to acos (0.25), sin (acos (0.25) / 2) and
    sin (acos (0.25)), the result is (0.6324555f, 0, 0, 0). *)
Lemma QuatSlerp_self_short_quaternion (acosf sinf : float -> float) :
  acosf (F32.of_int 1 / F32.of_int 4)%f32 = binary_normalize 24 128 11057159 (-23) false ->
  sinf (binary_normalize 24 128 11057159 (-24) false) =
    binary_normalize 24 128 10273905 (-24) false ->
  sinf (binary_normalize 24 128 11057159 (-23) false) =
    binary_normalize 24 128 16244470 (-24) false ->
  QuatSlerp acosf sinf (Quat lit_0_5 F32.zero F32.zero F32.zero)
    (Quat lit_0_5 F32.zero F32.zero F32.zero) lit_0_5 =
  Quat (binary_normalize 24 128 10610843 (-24) false) F32.zero F32.zero F32.zero.
Proof.
  intros Ha Hs1 Hs2.
  unfold QuatSlerp.
  replace (QuatDot (Quat lit_0_5 F32.zero F32.zero F32.zero)
             (Quat lit_0_5 F32.zero F32.zero F32.zero))
    with (F32.of_int 1 / F32.of_int 4)%f32 by (vm_compute; reflexivity).
  replace ((F32.of_int 1 / F32.of_int 4 <? F32.zero)%f32) with false
    by (vm_compute; reflexivity).
  unfold QuatSlerp_weights.
  replace ((F32.of_int 1 / F32.of_int 4 <? F32.lit_0_999999)%f32) with true
    by (vm_compute; reflexivity).
  rewrite Ha.
  replace ((F32.one - lit_0_5) * binary_normalize 24 128 11057159 (-23) false)%f32
    with (binary_normalize 24 128 11057159 (-24) false) by (vm_compute; reflexivity).
  replace (lit_0_5 * binary_normalize 24 128 11057159 (-23) false)%f32
    with (binary_normalize 24 128 11057159 (-24) false) by (vm_compute; reflexivity).
  rewrite Hs1, Hs2. vm_compute. reflexivity.
Qed.

(** ** ComputeJointMats without poses *)

Lemma Com_Memcpy_Some (dest src : list float) (n : Z) :
  0 <= n -> n = Z.of_nat (length src) -> n <= Z.of_nat (length dest) ->
  Com_Memcpy dest src n = Some (src ++ drop (Z.to_nat n) dest).
Proof.
  intros H0 Hs Hd. unfold Com_Memcpy.
  replace (0 <=? n) with true by (symmetry; apply Z.leb_le; lia).
  replace (n <=? Z.of_nat (length src)) with true by (symmetry; apply Z.leb_le; lia).
  replace (n <=? Z.of_nat (length dest)) with true by (symmetry; apply Z.leb_le; lia).
  simpl. f_equal. f_equal.
  apply take_ge. lia.
Qed.

(** C4.  With [num_poses == 0] ComputeJointMats copies the bind matrices:
    whatever the two frames, the fraction and the previous content of the
    output buffer, the first [12 * num_joints] floats of the output are
    [bindJoints] and the rest of the buffer is untouched. *)
Theorem ComputeJointMats_without_poses_is_bind
  (K : constants) (acosf sinf : float -> float) (data : iqmData_t)
  (frame oldframe : Z) (backlerp : float) (mat : list float) :
  num_poses data = 0 ->
  0 <= num_joints data ->
  Z.of_nat (length (bindJoints data)) = num_joints data * 12 ->
  num_joints data * 12 <= Z.of_nat (length mat) ->
  exists out,
    ComputeJointMats K acosf sinf data frame oldframe backlerp mat = Some out /\
    take (Z.to_nat (num_joints data * 12)) out = bindJoints data /\
    drop (Z.to_nat (num_joints data * 12)) out =
      drop (Z.to_nat (num_joints data * 12)) mat /\
    length out = length mat.
Proof.
  intros Hp Hj Hb Hm.
  exists (bindJoints data ++ drop (Z.to_nat (num_joints data * 12)) mat).
  assert (Hlen : length (bindJoints data) = Z.to_nat (num_joints data * 12)) by lia.
  split; [|split; [|split]].
  - unfold ComputeJointMats. rewrite Hp. simpl.
    apply Com_Memcpy_Some; lia.
  - rewrite <- Hlen. apply take_app_length.
  - rewrite <- Hlen. apply drop_app_length.
  - rewrite length_app, length_drop. lia.
Qed.

(** ** The joint table and the pass of ComputePoseMats *)

Lemma joint_rejected_false (header : iqmHeader_t) (joint : iqmJoint_t) :
  joint_rejected header joint = false <->
  -1 <= j_parent joint < s32 (h_num_joints header) /\ j_name joint < num_text header.
Proof.
  unfold joint_rejected. rewrite !orb_false_iff.
  rewrite Z.ltb_ge, !Z.geb_leb, !Z.leb_gt. lia.
Qed.

(** A joint loop that runs to its end has read every record and rejected
    none. *)
Lemma R_LoadIQM_joints_loop_true (header : iqmHeader_t) (mem : joint_memory)
  (n : nat) (i : Z) :
  R_LoadIQM_joints_loop header mem n i = Some true ->
  forall k, i <= k < i + Z.of_nat n ->
    exists joint, joint_at_check mem k = Some joint /\
                  joint_rejected header joint = false.
Proof.
  revert i. induction n as [|n IH]; intros i H k Hk; [lia|].
  cbn [R_LoadIQM_joints_loop] in H.
  destruct (joint_at_check mem i) as [joint|] eqn:Ej; [|discriminate].
  destruct (joint_rejected header joint) eqn:Er; [discriminate|].
  destruct (name_length_at_check mem (j_name joint)); [|discriminate].
  destruct (decide (k = i)) as [-> | Hne].
  - exists joint. split; assumption.
  - apply (IH (i + 1) H). lia.
Qed.

Lemma Matrix34Multiply_entry_ext (a a' b : nat -> float) (k : nat) :
  (forall j : nat, (j < 12)%nat -> a j = a' j) ->
  Matrix34Multiply_entry a b k = Matrix34Multiply_entry a' b k.
Proof.
  intros H.
  do 12 (destruct k as [|k]; [simpl; rewrite ?H by lia; reflexivity|]).
  reflexivity.
Qed.

Lemma lookup_insert_same_length (l l' : list float) (i j : nat) (v : float) :
  length l = length l' -> l !! j = l' !! j ->
  <[i := v]> l !! j = <[i := v]> l' !! j.
Proof.
  intros Hlen Hj.
  destruct (decide (i = j)) as [-> | Hne].
  - destruct (decide (j < length l)%nat) as [Hlt | Hge].
    + rewrite !list_lookup_insert_eq by lia. reflexivity.
    + rewrite !list_insert_ge by lia. exact Hj.
  - rewrite !list_lookup_insert_ne by assumption. exact Hj.
Qed.

Lemma lookup_insert_at_same_length (l l' : list float) (i : nat) (v : float) :
  length l = length l' ->
  <[i := v]> l !! i = <[i := v]> l' !! i.
Proof.
  intros Hlen.
  destruct (decide (i < length l)%nat) as [Hlt | Hge].
  - rewrite !list_lookup_insert_eq by lia. reflexivity.
  - rewrite !list_insert_ge by lia.
    rewrite !(lookup_ge_None_2 _ i) by lia. reflexivity.
Qed.

Lemma fget_agree (l l' : list float) (j : nat) :
  l !! j = l' !! j -> fget l j = fget l' j.
Proof. unfold fget. intros ->. reflexivity. Qed.

Lemma Matrix34Multiply_inplace_length (ks : list nat) (buf : list float)
  (aoff : nat) (b : list float) (ooff : nat) :
  length (Matrix34Multiply_inplace buf aoff b ooff ks) = length buf.
Proof.
  revert buf. induction ks as [|k ks IH]; intros buf; simpl; [reflexivity|].
  rewrite IH, length_insert. reflexivity.
Qed.

(** Two runs of the in-place product whose [a] lies wholly below [out] and
    whose buffers agree below [out] agree wherever the buffers agreed and
    wherever they wrote. *)
Lemma Matrix34Multiply_inplace_agree (ks : list nat) (buf buf' : list float)
  (aoff : nat) (b : list float) (ooff : nat) :
  (aoff + 12 <= ooff)%nat ->
  length buf = length buf' ->
  (forall j : nat, (j < ooff)%nat -> buf !! j = buf' !! j) ->
  forall j : nat,
    buf !! j = buf' !! j \/ (exists k, k ∈ ks /\ j = (ooff + k)%nat) ->
    Matrix34Multiply_inplace buf aoff b ooff ks !! j =
    Matrix34Multiply_inplace buf' aoff b ooff ks !! j.
Proof.
  intros Hoff. revert buf buf'.
  induction ks as [|k ks IH]; intros buf buf' Hlen Hlow j Hj; simpl.
  - destruct Hj as [Hj | (k & Hk & _)]; [exact Hj | inversion Hk].
  - assert (Hv : Matrix34Multiply_entry (fun j => fget buf (aoff + j)) (fget b) k =
                 Matrix34Multiply_entry (fun j => fget buf' (aoff + j)) (fget b) k).
    { apply Matrix34Multiply_entry_ext. intros i Hi.
      apply fget_agree, Hlow. lia. }
    rewrite <- Hv.
    apply IH.
    + rewrite !length_insert. exact Hlen.
    + intros i Hi. apply lookup_insert_same_length; auto.
    + destruct Hj as [Hj | (k' & Hk' & ->)].
      * left. apply lookup_insert_same_length; auto.
      * apply elem_of_cons in Hk' as [-> | Hk'].
        -- left. apply lookup_insert_at_same_length; auto.
        -- right. exists k'. split; auto.
Qed.

#[local] Arguments Nat.mul : simpl never.

#[local] Arguments Nat.mul : simpl never.

Lemma Matrix34Multiply_length (a b : list float) :
  length (Matrix34Multiply a b) = 12%nat.
Proof. reflexivity. Qed.

Lemma rd_of_nat {A} (l : list A) (i : nat) : rd l (Z.of_nat i) = l !! i.
Proof.
  unfold rd. replace (Z.of_nat i <? 0) with false by (symmetry; apply Z.ltb_ge; lia).
  rewrite Nat2Z.id. reflexivity.
Qed.

Lemma lookup_app3_mid (pre m post : list float) (j : nat) :
  (length pre <= j < length pre + length m)%nat ->
  (pre ++ m ++ post) !! j = m !! (j - length pre)%nat.
Proof.
  intros H. rewrite lookup_app_r by lia. apply lookup_app_l. lia.
Qed.

Lemma store12_agree (buf buf' m : list float) (i : nat) :
  length m = 12%nat ->
  length buf = length buf' ->
  (forall j : nat, (j < 12 * i)%nat -> buf !! j = buf' !! j) ->
  same_outcome (12 * (i + 1))
    (store12 buf (12 * Z.of_nat i) m) (store12 buf' (12 * Z.of_nat i) m).
Proof.
  intros Hm Hlen Hlow. unfold store12. rewrite <- Hlen.
  destruct ((0 <=? 12 * Z.of_nat i) && (12 * Z.of_nat i + 12 <=? Z.of_nat (length buf)))
    eqn:E; unfold same_outcome; [|exact I].
  apply andb_true_iff in E as [_ E]. apply Z.leb_le in E.
  replace (Z.to_nat (12 * Z.of_nat i)) with (12 * i)%nat by lia.
  assert (Ht : length (take (12 * i) buf) = (12 * i)%nat)
    by (rewrite length_take; lia).
  assert (Ht' : length (take (12 * i) buf') = (12 * i)%nat)
    by (rewrite length_take; lia).
  assert (Hm' : length (take 12 m) = 12%nat) by (rewrite length_take; lia).
  split.
  - rewrite !length_app, Ht, Ht', !length_drop. lia.
  - intros j Hj.
    destruct (decide (j < 12 * i)%nat) as [Hlt | Hge].
    + rewrite !lookup_app_l by lia.
      rewrite !lookup_take_lt by lia. apply Hlow. lia.
    + rewrite !lookup_app3_mid by lia.
      rewrite Ht, Ht'. reflexivity.
Qed.

Section PoseMatsPass.

Variable data : iqmData_t.
Variable rels : list iqmTransform_t.
Hypothesis ordered : parents_below_self (jointParents data).

Lemma poseMat_step_agree (i : nat) (buf buf' : list float) :
  length buf = length buf' ->
  (forall j : nat, (j < 12 * i)%nat -> buf !! j = buf' !! j) ->
  same_outcome (12 * (i + 1))
    (poseMat_step data rels (Z.of_nat i) buf)
    (poseMat_step data rels (Z.of_nat i) buf').
Proof.
  intros Hlen Hlow. unfold poseMat_step.
  destruct (rd rels (Z.of_nat i)) as [rel|]; cbn [mbind option_bind]; [|exact I].
  rewrite rd_of_nat.
  destruct (jointParents data !! i) as [p|] eqn:Ep; cbn [mbind option_bind]; [|exact I].
  destruct (slice12 (invBindJoints data) (12 * Z.of_nat i)) as [invBindMat|];
    cbn [mbind option_bind]; [|exact I].
  destruct (p >=? 0) eqn:Epos.
  - destruct (slice12 (bindJoints data) (p * 12)) as [bindParent|];
      cbn [mbind option_bind]; [|exact I].
    rewrite <- Hlen.
    destruct ((p * 12 + 12 <=? Z.of_nat (length buf)) &&
              (12 * Z.of_nat i + 12 <=? Z.of_nat (length buf))) eqn:E; [|exact I].
    pose proof (ordered i p Ep) as Hp.
    rewrite Z.geb_leb in Epos. apply Z.leb_le in Epos.
    split.
    + rewrite !Matrix34Multiply_inplace_length. exact Hlen.
    + intros j Hj.
      replace (Z.to_nat (12 * Z.of_nat i)) with (12 * i)%nat by lia.
      apply Matrix34Multiply_inplace_agree; [lia | exact Hlen | exact Hlow |].
      destruct (decide (j < 12 * i)%nat) as [Hlt | Hge].
      * left. apply Hlow. exact Hlt.
      * right. exists (j - 12 * i)%nat. split; [|lia].
        apply elem_of_seq. lia.
  - apply store12_agree; [apply Matrix34Multiply_length | exact Hlen | exact Hlow].
Qed.

Lemma poseMat_loop_agree (n i : nat) (buf buf' : list float) :
  length buf = length buf' ->
  (forall j : nat, (j < 12 * i)%nat -> buf !! j = buf' !! j) ->
  same_outcome (12 * (i + n))
    (for_loop n (Z.of_nat i) (poseMat_step data rels) buf)
    (for_loop n (Z.of_nat i) (poseMat_step data rels) buf').
Proof.
  revert i buf buf'. induction n as [|n IH]; intros i buf buf' Hlen Hlow; simpl.
  - split; [exact Hlen|]. intros j Hj. apply Hlow. lia.
  - pose proof (poseMat_step_agree i buf buf' Hlen Hlow) as Hstep.
    unfold same_outcome in Hstep.
    destruct (poseMat_step data rels (Z.of_nat i) buf) as [r|],
             (poseMat_step data rels (Z.of_nat i) buf') as [r'|];
      simpl; try contradiction; [|exact I].
    destruct Hstep as [Hlen' Hlow'].
    replace (Z.of_nat i + 1) with (Z.of_nat (i + 1)) by lia.
    replace (i + S n)%nat with ((i + 1) + n)%nat by lia.
    apply IH; assumption.
Qed.

End PoseMatsPass.

Lemma ComputePoseMats_agree (K : constants) (acosf sinf : float -> float) (data : iqmData_t)
  (frame oldframe : Z) (backlerp : float) (buf buf' : list float) :
  parents_below_self (jointParents data) ->
  length buf = length buf' ->
  same_outcome (12 * Z.to_nat (num_poses data))
    (ComputePoseMats K acosf sinf data frame oldframe backlerp buf)
    (ComputePoseMats K acosf sinf data frame oldframe backlerp buf').
Proof.
  intros Hord Hlen. unfold ComputePoseMats.
  destruct (relativeJoints K acosf sinf data frame oldframe backlerp) as [rels|];
    simpl; [|exact I].
  apply (poseMat_loop_agree data rels Hord (Z.to_nat (num_poses data)) 0 buf buf' Hlen).
  intros j Hj. lia.
Qed.

(** C3, as the code has it.  The joint loop of R_LoadIQM runs to its end
    only if every joint record it tests has a parent between -1 and the
    joint count (exclusive) and a name inside the text block; it does not
    compare a parent with the joint's own index.  When every parent of the
    model is below the joint's own index, the pass of ComputePoseMats reads
    only matrices it has written before: its outcome does not depend on what
    the matrix buffer held on entry. *)
Theorem joint_table_acceptance_and_pass
  (K : constants) (acosf sinf : float -> float)
  (header : iqmHeader_t) (mem : joint_memory) (data : iqmData_t)
  (frame oldframe : Z) (backlerp : float) (buf buf' : list float) :
  R_LoadIQM_joints_ok header mem = Some true ->
  length buf = length buf' ->
  (forall i, 0 <= i < h_num_joints header ->
     exists joint, joint_at_check mem i = Some joint /\
       -1 <= j_parent joint < s32 (h_num_joints header) /\
       j_name joint < num_text header) /\
  (parents_below_self (jointParents data) ->
   same_outcome (12 * Z.to_nat (num_poses data))
     (ComputePoseMats K acosf sinf data frame oldframe backlerp buf)
     (ComputePoseMats K acosf sinf data frame oldframe backlerp buf')).
Proof.
  intros Hok Hlen. split.
  - intros i Hi.
    destruct (R_LoadIQM_joints_loop_true header mem _ 0 Hok i) as (joint & Hj & Hr);
      [lia|].
    exists joint. split; [exact Hj|]. apply joint_rejected_false. exact Hr.
  - intros Hord. apply ComputePoseMats_agree; assumption.
Qed.

Lemma sample_parents_below_self : parents_below_self (jointParents sample_iqm).
Proof.
  intros i p H. simpl in H.
  destruct i as [|[|i]]; simpl in H; try discriminate;
    injection H as <-; lia.
Qed.

(** The two-joint sample: the loop passes the records with parents -1 and 0,
    these are the parents of the sample model, and the pass gives the same
    matrices from a buffer of zeros and from a buffer of ones. *)
Lemma joint_table_acceptance_and_pass_witness :
  R_LoadIQM_joints_ok sample_header sample_joint_memory = Some true /\
  copy_joint_parents sample_header sample_joint_memory =
    Some (jointParents sample_iqm) /\
  same_outcome 24
    (ComputePoseMats quake3_constants id id sample_iqm 0 1 lit_0_5 buffer_of_zeros)
    (ComputePoseMats quake3_constants id id sample_iqm 0 1 lit_0_5 buffer_of_ones).
Proof.
  split; [reflexivity|]. split; [reflexivity|].
  apply (joint_table_acceptance_and_pass quake3_constants id id
           sample_header sample_joint_memory sample_iqm 0 1 lit_0_5
           buffer_of_zeros buffer_of_ones);
    [reflexivity | reflexivity | exact sample_parents_below_self].
Defined.

(** On the sample the pass returns: both outcomes above are buffers. *)
Lemma ComputePoseMats_sample_returns :
  exists out out',
    ComputePoseMats quake3_constants id id sample_iqm 0 1 lit_0_5 buffer_of_zeros
      = Some out /\
    ComputePoseMats quake3_constants id id sample_iqm 0 1 lit_0_5 buffer_of_ones
      = Some out' /\
    take 24 out = take 24 out'.
Proof.
  eexists; eexists. split; [vm_compute; reflexivity|].
  split; [vm_compute; reflexivity|]. vm_compute. reflexivity.
Qed.

(** With joint 0 naming joint 1, and also with joint 0 naming itself, the
    pass returns matrices that depend on what the buffer held on entry. *)
Lemma ComputePoseMats_reads_unwritten_parent :
  (exists out out',
     ComputePoseMats quake3_constants id id sample_iqm_parent_above 0 0 F32.zero
       buffer_of_zeros = Some out /\
     ComputePoseMats quake3_constants id id sample_iqm_parent_above 0 0 F32.zero
       buffer_of_ones = Some out' /\
     take 12 out <> take 12 out') /\
  (exists out out',
     ComputePoseMats quake3_constants id id sample_iqm_parent_self 0 0 F32.zero
       buffer_of_zeros = Some out /\
     ComputePoseMats quake3_constants id id sample_iqm_parent_self 0 0 F32.zero
       buffer_of_ones = Some out' /\
     take 12 out <> take 12 out').
Proof.
  split; eexists; eexists; (split; [vm_compute; reflexivity|]);
    (split; [vm_compute; reflexivity|]); vm_compute; discriminate.
Qed.

(** C3 as stated fails.  A joint that names itself as its parent is within
    the ordering of the claim (parent not above the own index), the joint
    loop passes it, and the pass of ComputePoseMats then multiplies with a
    parent matrix it has not written: its result depends on what the buffer
    held.  The joint loop also passes two records of which the first names
    the second as its parent, which the claimed ordering excludes. *)
Lemma joint_loop_passes_parent_not_below :
  (R_LoadIQM_joints_ok sample_header sample_joint_memory_parent_self = Some true /\
   copy_joint_parents sample_header sample_joint_memory_parent_self =
     Some (jointParents sample_iqm_parent_self) /\
   parents_not_above_self (jointParents sample_iqm_parent_self) /\
   exists out out',
     ComputePoseMats quake3_constants id id sample_iqm_parent_self 0 0 F32.zero
       buffer_of_zeros = Some out /\
     ComputePoseMats quake3_constants id id sample_iqm_parent_self 0 0 F32.zero
       buffer_of_ones = Some out' /\
     take 12 out <> take 12 out') /\
  (R_LoadIQM_joints_ok sample_header sample_joint_memory_parent_above = Some true /\
   copy_joint_parents sample_header sample_joint_memory_parent_above =
     Some (jointParents sample_iqm_parent_above) /\
   ~ parents_not_above_self (jointParents sample_iqm_parent_above) /\
   exists out out',
     ComputePoseMats quake3_constants id id sample_iqm_parent_above 0 0 F32.zero
       buffer_of_zeros = Some out /\
     ComputePoseMats quake3_constants id id sample_iqm_parent_above 0 0 F32.zero
       buffer_of_ones = Some out' /\
     take 12 out <> take 12 out').
Proof.
  destruct ComputePoseMats_reads_unwritten_parent as [Habove Hself].
  split.
  - split; [reflexivity|]. split; [reflexivity|]. split; [|exact Hself].
    intros i p H. simpl in H.
    destruct i as [|[|i]]; simpl in H; try discriminate;
      injection H as <-; lia.
  - split; [reflexivity|]. split; [reflexivity|]. split; [|exact Habove].
    intros H. specialize (H 0%nat 1 eq_refl). lia.
Qed.

(** The static sample: its joint matrices are its bind matrices. *)
Lemma ComputeJointMats_without_poses_is_bind_witness :
  exists out,
    ComputeJointMats quake3_constants id id sample_iqm_static 3 7 lit_0_5
      buffer_of_ones = Some out /\
    take 24 out = sample_bind.
Proof.
  destruct (ComputeJointMats_without_poses_is_bind quake3_constants id id
              sample_iqm_static 3 7 lit_0_5 buffer_of_ones)
    as (out & Hout & Htake & _); [reflexivity | simpl; lia | reflexivity | simpl; lia |].
  exists out. split; [exact Hout | exact Htake].
Defined.

(** ** Frame validation *)

Lemma validate_frames_nonpositive_count (numFrames : Z) (ent : refEntity_t) :
  numFrames <= 0 ->
  frame (validate_frames numFrames ent) = 0 /\
  oldframe (validate_frames numFrames ent) = 0.
Proof.
  intros H. apply validate_frames_resets. unfold frames_in_range. lia.
Qed.

(** C10, as the code has it.  For a frame count of at least one, the
    validation leaves [frame] and [oldframe] in [0, numFrames): a pair with
    either member outside is replaced by (0, 0), a pair inside is kept; this
    is what R_AddIQMSurfaces, which validates against the [num_frames] of
    the model, holds once past it. *)
Theorem frame_validation_in_range (K : constants) (numFrames : Z)
    (ent : refEntity_t) :
  1 <= numFrames ->
  frames_in_range numFrames (validate_frames numFrames ent) /\
  (~ frames_in_range numFrames ent ->
   frame (validate_frames numFrames ent) = 0 /\
   oldframe (validate_frames numFrames ent) = 0) /\
  (frames_in_range numFrames ent -> validate_frames numFrames ent = ent) /\
  (Z.land (renderfx ent) (RF_WRAP_FRAMES K) = 0 ->
   R_AddIQMSurfaces_frames K numFrames ent = Some (validate_frames numFrames ent)) /\
  (forall ent',
     R_AddIQMSurfaces_frames K numFrames ent = Some ent' ->
     frames_in_range numFrames ent').
Proof.
  intros Hn.
  split; [apply validate_frames_in_range; exact Hn|].
  split; [apply validate_frames_resets|].
  split; [apply validate_frames_keeps|].
  split.
  - intros H. unfold R_AddIQMSurfaces_frames. rewrite H. reflexivity.
  - intros ent' H. unfold R_AddIQMSurfaces_frames in H.
    destruct (Z.land (renderfx ent) (RF_WRAP_FRAMES K) =? 0).
    + injection H as <-. apply validate_frames_in_range; exact Hn.
    + destruct (c_rem (frame ent) numFrames), (c_rem (oldframe ent) numFrames);
        try discriminate.
      injection H as <-. apply validate_frames_in_range; exact Hn.
Qed.

(** An entity asking for frames 7 and -3 of a five-frame model. *)
Lemma frame_validation_in_range_witness :
  1 <= 5 /\
  frames_in_range 5 (validate_frames 5 (mk_refEntity 0 7 (-3))) /\
  validate_frames 5 (mk_refEntity 0 7 (-3)) = mk_refEntity 0 0 0 /\
  R_AddIQMSurfaces_frames quake3_constants 5 (mk_refEntity 0 7 (-3)) =
    Some (validate_frames 5 (mk_refEntity 0 7 (-3))).
Proof.
  assert (H : 1 <= 5) by lia.
  destruct (frame_validation_in_range quake3_constants 5 (mk_refEntity 0 7 (-3)) H)
    as (Hin & _ & _ & Hiqm & _).
  split; [exact H|]. split; [exact Hin|]. split; [reflexivity|].
  apply Hiqm. reflexivity.
Defined.

(** C10 as stated fails for a model without frames, which R_LoadIQM
    provides for (a static IQM has [num_frames = 0]): the validation leaves
    both frames at 0, and 0 is not below the frame count. *)
Lemma frame_validation_of_static_model :
  R_AddIQMSurfaces_frames quake3_constants 0 (mk_refEntity 0 0 0) = Some (mk_refEntity 0 0 0) /\
  ~ frames_in_range 0 (mk_refEntity 0 0 0).
Proof.
  split; [reflexivity|]. unfold frames_in_range; simpl. lia.
Qed.

(** ** R_GetModelByHandle *)

Lemma R_ModelInit_wf (K : constants) (tr tr' : trGlobals_t) :
  R_ModelInit K tr = Some tr' -> registry_wf tr'.
Proof.
  unfold R_ModelInit, R_AllocModel.
  destruct (numModels (mk_tr []) >=? MAX_MOD_KNOWN K); [discriminate|].
  intros H. injection H as <-.
  split; [unfold numModels; simpl; lia|].
  intros i m H. destruct i as [|i]; simpl in H; [|discriminate].
  injection H as <-. reflexivity.
Qed.

(** R_ModelInit succeeds as soon as the table has room for one record. *)
Lemma R_ModelInit_some (K : constants) (tr : trGlobals_t) :
  0 < MAX_MOD_KNOWN K -> R_ModelInit K tr = Some (mk_tr [fresh_model 0]).
Proof.
  intros H. unfold R_ModelInit, R_AllocModel, numModels. simpl.
  change (Z.of_nat 0) with 0.
  destruct (0 >=? MAX_MOD_KNOWN K) eqn:E; [|reflexivity].
  rewrite Z.geb_leb, Z.leb_le in E. lia.
Qed.

Lemma R_AllocModel_wf (K : constants) (tr tr' : trGlobals_t) (m : model_t) :
  registry_wf tr -> R_AllocModel K tr = Some (m, tr') ->
  registry_wf tr' /\ index m = numModels tr /\ models tr' = models tr ++ [m] /\
  m = fresh_model (numModels tr) /\ numModels tr < (MAX_MOD_KNOWN K).
Proof.
  intros [Hn Hidx] H. unfold R_AllocModel in H.
  destruct (numModels tr >=? (MAX_MOD_KNOWN K)) eqn:E; [discriminate|].
  injection H as <- <-. rewrite Z.geb_leb, Z.leb_gt in E.
  repeat split; try reflexivity; try lia.
  - unfold numModels in *. simpl. rewrite length_app. simpl. lia.
  - intros i m Hm. simpl in Hm.
    apply lookup_app_Some in Hm as [Hm | [Hge Hm]].
    + apply Hidx. exact Hm.
    + apply list_lookup_singleton_Some in Hm as [Hi <-].
      simpl. unfold numModels. lia.
Qed.

(** C8.  In a registry set up by R_ModelInit, R_GetModelByHandle returns the
    default record of slot 0 for every handle below 1 or not below the number
    of models, and for every other handle the record of that slot, which
    carries that handle as its index; it never returns a null pointer. *)
Theorem R_GetModelByHandle_total (tr : trGlobals_t) (handle : Z) :
  registry_wf tr ->
  exists dflt,
    models tr !! 0%nat = Some dflt /\ index dflt = 0 /\
    (handle < 1 \/ numModels tr <= handle ->
     R_GetModelByHandle tr handle = Some dflt) /\
    (1 <= handle < numModels tr ->
     exists m, R_GetModelByHandle tr handle = Some m /\
               models tr !! Z.to_nat handle = Some m /\ index m = handle).
Proof.
  intros [Hn Hidx]. unfold numModels in *.
  destruct (models tr !! 0%nat) as [dflt|] eqn:E0.
  2:{ apply lookup_ge_None_1 in E0. lia. }
  exists dflt. split; [reflexivity|]. split; [apply (Hidx 0%nat); exact E0|]. split.
  - intros H. unfold R_GetModelByHandle, numModels.
    replace ((handle <? 1) || (handle >=? Z.of_nat (length (models tr)))) with true.
    + exact E0.
    + symmetry. apply orb_true_iff. rewrite Z.ltb_lt, Z.geb_leb, Z.leb_le. lia.
  - intros H. unfold R_GetModelByHandle, numModels.
    replace ((handle <? 1) || (handle >=? Z.of_nat (length (models tr)))) with false.
    + destruct (models tr !! Z.to_nat handle) as [m|] eqn:E.
      * exists m. split; [reflexivity|]. split; [reflexivity|].
        rewrite (Hidx _ _ E). lia.
      * apply lookup_ge_None_1 in E. lia.
    + symmetry. apply orb_false_iff. rewrite Z.ltb_ge, Z.geb_leb, Z.leb_gt. lia.
Qed.

Lemma sample_tr_wf : registry_wf sample_tr.
Proof.
  split; [unfold numModels; simpl; lia|].
  intros i m H.
  do 4 (destruct i as [|i]; [injection H as <-; reflexivity|]).
  discriminate.
Qed.

Lemma R_GetModelByHandle_total_witness :
  R_GetModelByHandle sample_tr (-5) = Some (fresh_model 0) /\
  R_GetModelByHandle sample_tr 4 = Some (fresh_model 0) /\
  exists m, R_GetModelByHandle sample_tr 2 = Some m /\ index m = 2.
Proof.
  destruct (R_GetModelByHandle_total sample_tr (-5) sample_tr_wf)
    as (d & Hd & _ & Hout & _).
  destruct (R_GetModelByHandle_total sample_tr 4 sample_tr_wf)
    as (d' & Hd' & _ & Hout' & _).
  destruct (R_GetModelByHandle_total sample_tr 2 sample_tr_wf)
    as (_ & _ & _ & _ & Hin).
  injection Hd as <-. injection Hd' as <-.
  split; [apply Hout; lia|].
  split; [apply Hout'; right; unfold numModels; simpl; lia|].
  destruct Hin as (m & Hm & _ & Hi); [unfold numModels; simpl; lia|].
  exists m. split; assumption.
Defined.

(** ** Tag lookup *)

Lemma rd_Some_elem_of {A} (l : list A) (i : Z) (x : A) : rd l i = Some x -> x ∈ l.
Proof.
  unfold rd. destruct (i <? 0); [discriminate|].
  apply list_elem_of_lookup_2.
Qed.

Lemma rd_in_range {A} (l : list A) (i : Z) :
  0 <= i < Z.of_nat (length l) -> exists x, rd l i = Some x.
Proof.
  intros H. unfold rd.
  replace (i <? 0) with false by (symmetry; apply Z.ltb_ge; lia).
  destruct (l !! Z.to_nat i) as [x|] eqn:E; [exists x; reflexivity|].
  apply lookup_ge_None_1 in E. lia.
Qed.

Lemma string_eqb_false (a b : string) : a <> b -> String.eqb a b = false.
Proof. intros H. apply String.eqb_neq. exact H. Qed.

(** Inside the tag table the tag pointer reads the table. *)
Lemma R_GetTag_loop_in_table (mem : memory_t) (header : md3Header_t) (tagName : string)
  (n : nat) (i : Z) :
  0 <= i -> i + Z.of_nat n <= Z.of_nat (length (md3_tags header)) ->
  R_GetTag_loop (md3_tagAt mem header) tagName n i =
  R_GetTag_loop (rd (md3_tags header)) tagName n i.
Proof.
  revert i. induction n as [|n IH]; intros i Hi Hn; [reflexivity|].
  cbn [R_GetTag_loop].
  destruct (rd_in_range (md3_tags header) i) as [tag Htag]; [lia|].
  assert (Hat : md3_tagAt mem header i = Some tag)
    by (unfold md3_tagAt; rewrite Htag; reflexivity).
  rewrite Hat, Htag. cbn [mbind option_bind].
  destruct (String.eqb (tag_name tag) tagName); [reflexivity|].
  apply IH; lia.
Qed.

(** With a negative frame the first tag R_GetTag compares lies before the
    tag table, whatever the table holds: the lookup faults when nothing is
    mapped there, and returns what is there when its name is the one asked
    for. *)
Lemma R_GetTag_before_table (mem : memory_t) (header : md3Header_t) (frame : Z)
  (tagName : string) :
  1 <= md3_numTags header -> frame < 0 -> frame < md3_numFrames header ->
  R_GetTag mem header frame tagName =
  match mem_tagAt mem header (frame * md3_numTags header) with
  | None => None
  | Some tag =>
      if String.eqb (tag_name tag) tagName then Some (Some tag)
      else R_GetTag_loop (md3_tagAt mem header) tagName
             (Z.to_nat (md3_numTags header) - 1) (frame * md3_numTags header + 1)
  end.
Proof.
  intros Ht Hneg Hlt. unfold R_GetTag.
  replace (frame >=? md3_numFrames header) with false
    by (symmetry; rewrite Z.geb_leb; apply Z.leb_gt; lia).
  destruct (Z.to_nat (md3_numTags header)) as [|n] eqn:En; [lia|].
  cbn [R_GetTag_loop].
  assert (Hat : md3_tagAt mem header (frame * md3_numTags header) =
                mem_tagAt mem header (frame * md3_numTags header)).
  { unfold md3_tagAt, rd.
    replace (frame * md3_numTags header <? 0) with true
      by (symmetry; apply Z.ltb_lt; nia).
    reflexivity. }
  rewrite Hat.
  destruct (mem_tagAt mem header (frame * md3_numTags header)) as [tag|];
    cbn [mbind option_bind]; [|reflexivity].
  replace (S n - 1)%nat with n by lia. reflexivity.
Qed.

Lemma R_GetAnimTag_loop_absent (mdr : mdrHeader_t) (framenum : Z) (tagName : string)
  (n : nat) (i : Z) :
  (forall t, t ∈ mdr_tags mdr -> mdr_tag_name t <> tagName) ->
  0 <= i -> i + Z.of_nat n <= Z.of_nat (length (mdr_tags mdr)) ->
  R_GetAnimTag_loop mdr framenum tagName n i = Some None.
Proof.
  intros Habs. revert i. induction n as [|n IH]; intros i Hi Hn; simpl; [reflexivity|].
  destruct (rd_in_range (mdr_tags mdr) i) as [tag Htag]; [lia|].
  rewrite Htag. cbn [mbind option_bind].
  rewrite string_eqb_false by (apply Habs, (rd_Some_elem_of _ _ _ Htag)).
  apply IH; lia.
Qed.

Lemma R_GetAnimTag_absent (mdr : mdrHeader_t) (framenum : Z) (tagName : string) :
  Z.of_nat (length (mdr_tags mdr)) = mdr_numTags mdr ->
  (forall t, t ∈ mdr_tags mdr -> mdr_tag_name t <> tagName) ->
  R_GetAnimTag mdr framenum tagName = Some None.
Proof.
  intros Hlen Habs. unfold R_GetAnimTag.
  apply R_GetAnimTag_loop_absent; [exact Habs | lia | lia].
Qed.

(** X3.  For a record of type [MOD_MDR] without an MD3 header at level 0,
    whose MDR tag table holds [numTags] tags, a tag name the table does not
    have gives the cleared orientation and failure whatever the start and
    end frames are: the names are searched before a frame is used. *)
Lemma R_LerpTag_MDR_unknown_tag (K : constants) (acosf sinf : float -> float)
  (mem : memory_t) (tr : trGlobals_t) (handle : Z) (model : model_t) (mdr : mdrHeader_t)
  (startFrame endFrame : Z) (frac : float) (tagName : string) (jointMats : list float) :
  R_GetModelByHandle tr handle = Some model ->
  md3 model 0 = None -> type model = MOD_MDR -> modelData model = data_mdr mdr ->
  Z.of_nat (length (mdr_tags mdr)) = mdr_numTags mdr ->
  tagName ∉ mdr_tag_name <$> mdr_tags mdr ->
  R_LerpTag K acosf sinf mem tr handle startFrame endFrame frac tagName jointMats =
  Some (cleared_orientation, false).
Proof.
  intros Hm Hmd3 Hty Hdata Hlen Habs. unfold R_LerpTag. rewrite Hm.
  cbn [mbind option_bind]. rewrite Hmd3, Hty, Hdata.
  assert (Hno : forall t, t ∈ mdr_tags mdr -> mdr_tag_name t <> tagName).
  { intros t Ht Hn. apply Habs. rewrite <- Hn. apply list_elem_of_fmap_2. exact Ht. }
  rewrite !R_GetAnimTag_absent by assumption. reflexivity.
Qed.

(** C7.  An unknown tag name is meant to give the cleared orientation and
    failure for every format, without a fault.  R_GetTag clamps a frame that
    is too large but lets a negative one through, so that the tag pointer
    starts before the tag table.  On the one-frame MD3 of the sample
    registry, a file R_LoadMD3 accepts and which has no tag of the empty
    name: with both frames -1 the lookup of the empty name finds the bytes
    before the table, whose name is empty, and succeeds with an orientation
    made of them; with the start frame -2^31 the lookup of "tag_missing"
    reads where nothing is readable and faults.  With frames that are not
    negative both lookups give the cleared orientation and failure. *)
Theorem R_LerpTag_negative_frame_leaves_tag_table :
  (R_LoadMD3 quake3_constants (fresh_model 1) 0 sample_md3 276).1 = true /\
  md3 (R_LoadMD3 quake3_constants (fresh_model 1) 0 sample_md3 276).2 0 =
    Some sample_md3 /\
  first_tag_named "" (md3_tags sample_md3) = None /\
  first_tag_named "tag_missing" (md3_tags sample_md3) = None /\
  R_GetModelByHandle sample_tr 1 =
    Some (mk_model "models/a.md3" MOD_MESH 1 276 data_none
            (fun lod => if lod =? 0 then Some sample_md3 else None) 1) /\
  R_GetTag sample_memory sample_md3 (-1) "" = Some (Some sample_tag_before_table) /\
  (exists o,
     R_LerpTag quake3_constants id id sample_memory sample_tr 1 (-1) (-1) F32.zero "" [] =
       Some (o, true) /\
     origin o = Vec3 (F32.of_int (-1)) F32.one F32.one) /\
  R_LerpTag quake3_constants id id sample_memory sample_tr 1 (-2147483648) 0 F32.zero
    "tag_missing" [] = None /\
  R_LerpTag quake3_constants id id sample_memory sample_tr 1 0 0 F32.zero "" [] =
    Some (cleared_orientation, false) /\
  R_LerpTag quake3_constants id id sample_memory sample_tr 1 0 0 F32.zero
    "tag_missing" [] = Some (cleared_orientation, false).
Proof.
  split; [reflexivity|]. split; [reflexivity|].
  split; [reflexivity|]. split; [reflexivity|]. split; [reflexivity|].
  split; [reflexivity|].
  split; [eexists; split; [vm_compute; reflexivity | vm_compute; reflexivity]|].
  split; [reflexivity|]. split; reflexivity.
Qed.

(** ** R_LerpTag on MDR models *)

Lemma rd_drop_head {A} (l : list A) (i : Z) (x : A) (rest : list A) :
  0 <= i -> drop (Z.to_nat i) l = x :: rest ->
  rd l i = Some x /\ drop (Z.to_nat (i + 1)) l = rest.
Proof.
  intros Hi Hd. unfold rd.
  replace (i <? 0) with false by (symmetry; apply Z.ltb_ge; lia).
  split.
  - rewrite <- (Nat.add_0_r (Z.to_nat i)), <- lookup_drop, Hd. reflexivity.
  - replace (Z.to_nat (i + 1)) with (Z.to_nat i + 1)%nat by lia.
    rewrite <- drop_drop, Hd. reflexivity.
Qed.

(** The loop of R_GetAnimTag stops at the first tag of the wanted name and
    reads its bone in the frame. *)
Lemma R_GetAnimTag_loop_found (mdr : mdrHeader_t) (framenum : Z) (tagName : string)
  (pre : list mdrTag_t) (t : mdrTag_t) (post : list mdrTag_t) (n : nat) (i : Z) :
  0 <= i ->
  drop (Z.to_nat i) (mdr_tags mdr) = pre ++ t :: post ->
  (forall u, u ∈ pre -> mdr_tag_name u <> tagName) ->
  mdr_tag_name t = tagName ->
  (length pre < n)%nat ->
  R_GetAnimTag_loop mdr framenum tagName n i =
    (frame ← rd (mdr_frames mdr) framenum;
     bone ← rd (mdr_bones frame) (mdr_boneIndex t);
     Some (Some (tag_of_bone tagName bone))).
Proof.
  revert n i. induction pre as [|u pre IH]; intros n i Hi Hd Hpre Ht Hn.
  - destruct n as [|n]; [simpl in Hn; lia|]. simpl in Hd.
    destruct (rd_drop_head _ _ _ _ Hi Hd) as [Hrd _].
    simpl. rewrite Hrd. cbn [mbind option_bind].
    rewrite Ht, String.eqb_refl. reflexivity.
  - destruct n as [|n]; [simpl in Hn; lia|]. simpl in Hd.
    destruct (rd_drop_head _ _ _ _ Hi Hd) as [Hrd Hrest].
    simpl. rewrite Hrd. cbn [mbind option_bind].
    rewrite string_eqb_false by (apply Hpre; left).
    apply IH; [lia | exact Hrest | | exact Ht | simpl in Hn; lia].
    intros v Hv. apply Hpre. right. exact Hv.
Qed.

Lemma R_GetAnimTag_found (mdr : mdrHeader_t) (framenum : Z) (tagName : string)
  (pre : list mdrTag_t) (t : mdrTag_t) (post : list mdrTag_t)
  (frame : mdrFrame_t) (bone : list float) :
  mdr_tags mdr = pre ++ t :: post ->
  (forall u, u ∈ pre -> mdr_tag_name u <> tagName) ->
  mdr_tag_name t = tagName ->
  Z.of_nat (length pre) < mdr_numTags mdr ->
  rd (mdr_frames mdr) (clamped_frame (mdr_numFrames mdr) framenum) = Some frame ->
  rd (mdr_bones frame) (mdr_boneIndex t) = Some bone ->
  R_GetAnimTag mdr framenum tagName = Some (Some (tag_of_bone tagName bone)).
Proof.
  intros Htags Hpre Ht Hn Hframe Hbone. unfold R_GetAnimTag.
  rewrite (R_GetAnimTag_loop_found mdr _ tagName pre t post);
    [| lia | simpl; exact Htags | assumption | assumption | lia].
  unfold clamped_frame in Hframe. rewrite Hframe. cbn [mbind option_bind].
  rewrite Hbone. reflexivity.
Qed.

(** The first tag of a name splits the tag table. *)
Lemma mdr_tags_split_first (tags : list mdrTag_t) (tagName : string) :
  tagName ∈ mdr_tag_name <$> tags ->
  exists pre t post,
    tags = pre ++ t :: post /\ mdr_tag_name t = tagName /\
    (forall u, u ∈ pre -> mdr_tag_name u <> tagName).
Proof.
  induction tags as [|x tags IH]; intros H; [inversion H|].
  destruct (String.eqb (mdr_tag_name x) tagName) eqn:E.
  - apply String.eqb_eq in E. exists [], x, tags.
    split; [reflexivity|]. split; [exact E|]. intros u Hu. inversion Hu.
  - apply String.eqb_neq in E. cbn [fmap list_fmap] in H.
    apply elem_of_cons in H as [H | H]; [congruence|].
    destruct (IH H) as (pre & t & post & Hs & Ht & Hpre).
    exists (x :: pre), t, post. split; [rewrite Hs; reflexivity|].
    split; [exact Ht|]. intros u Hu.
    apply elem_of_cons in Hu as [-> | Hu]; [exact E | apply Hpre; exact Hu].
Qed.

(** The clamped frame of an MDR in order, and the bone of a tag in it, can
    be read. *)
Lemma mdr_frame_bone_readable (mdr : mdrHeader_t) (framenum : Z) (t : mdrTag_t) :
  mdr_wf mdr -> 0 <= framenum -> t ∈ mdr_tags mdr ->
  exists frame bone,
    rd (mdr_frames mdr) (clamped_frame (mdr_numFrames mdr) framenum) = Some frame /\
    rd (mdr_bones frame) (mdr_boneIndex t) = Some bone.
Proof.
  intros (Hf & Hfl & Htl & Hbones & Hidx) Hframe Ht.
  destruct (rd_in_range (mdr_frames mdr) (clamped_frame (mdr_numFrames mdr) framenum))
    as [frame Hfr].
  { unfold clamped_frame. destruct (framenum >=? mdr_numFrames mdr) eqn:E; [lia|].
    rewrite Z.geb_leb, Z.leb_gt in E. lia. }
  destruct (rd_in_range (mdr_bones frame) (mdr_boneIndex t)) as [bone Hb].
  { rewrite (Hbones frame (rd_Some_elem_of _ _ _ Hfr)). apply Hidx. exact Ht. }
  exists frame, bone. split; assumption.
Qed.

Lemma R_LerpTag_MDR_blend
  (K : constants) (acosf sinf : float -> float) (mem : memory_t) (tr : trGlobals_t)
  (handle : Z) (model : model_t)
  (mdr : mdrHeader_t) (startFrame endFrame : Z) (frac : float) (tagName : string)
  (jointMats : list float)
  (pre : list mdrTag_t) (t : mdrTag_t) (post : list mdrTag_t)
  (fs fe : mdrFrame_t) (ms me : list float) :
  R_GetModelByHandle tr handle = Some model ->
  md3 model 0 = None -> type model = MOD_MDR -> modelData model = data_mdr mdr ->
  mdr_tags mdr = pre ++ t :: post ->
  (forall u, u ∈ pre -> mdr_tag_name u <> tagName) ->
  mdr_tag_name t = tagName ->
  Z.of_nat (length pre) < mdr_numTags mdr ->
  rd (mdr_frames mdr) (clamped_frame (mdr_numFrames mdr) startFrame) = Some fs ->
  rd (mdr_bones fs) (mdr_boneIndex t) = Some ms ->
  rd (mdr_frames mdr) (clamped_frame (mdr_numFrames mdr) endFrame) = Some fe ->
  rd (mdr_bones fe) (mdr_boneIndex t) = Some me ->
  R_LerpTag K acosf sinf mem tr handle startFrame endFrame frac tagName jointMats =
  Some (lerp_tags (tag_of_bone tagName ms) (tag_of_bone tagName me) frac, true).
Proof.
  intros Hm Hmd3 Hty Hdata Htags Hpre Ht Hn Hfs Hms Hfe Hme.
  unfold R_LerpTag. rewrite Hm. cbn [mbind option_bind].
  rewrite Hmd3, Hty, Hdata.
  rewrite (R_GetAnimTag_found mdr startFrame tagName pre t post fs ms) by assumption.
  cbn [mbind option_bind].
  rewrite (R_GetAnimTag_found mdr endFrame tagName pre t post fe me) by assumption.
  reflexivity.
Qed.

(** C1, as the code has it.  For a record of type [MOD_MDR] without an MD3
    header at level 0, whose MDR holds [numFrames >= 1] frames of
    [numBones] bones each and [numTags] tags that name existing bones, and
    for start and end frames that are not negative: when the tag table has
    the name, R_LerpTag resolves the bone matrix of the first tag of that
    name twice, at the start frame and at the end frame (each replaced by
    the last frame when it is not below [numFrames]), and returns the blend
    of the two tags by the fraction, each axis normalised afterwards. *)
Theorem R_LerpTag_MDR_blends_both_frames
  (K : constants) (acosf sinf : float -> float) (mem : memory_t) (tr : trGlobals_t)
  (handle : Z) (model : model_t)
  (mdr : mdrHeader_t) (startFrame endFrame : Z) (frac : float) (tagName : string)
  (jointMats : list float) :
  R_GetModelByHandle tr handle = Some model ->
  md3 model 0 = None -> type model = MOD_MDR -> modelData model = data_mdr mdr ->
  mdr_wf mdr ->
  0 <= startFrame -> 0 <= endFrame ->
  tagName ∈ mdr_tag_name <$> mdr_tags mdr ->
  exists (pre : list mdrTag_t) (t : mdrTag_t) (post : list mdrTag_t)
         (fs fe : mdrFrame_t) (ms me : list float),
    mdr_tags mdr = pre ++ t :: post /\ mdr_tag_name t = tagName /\
    (forall u, u ∈ pre -> mdr_tag_name u <> tagName) /\
    rd (mdr_frames mdr) (clamped_frame (mdr_numFrames mdr) startFrame) = Some fs /\
    rd (mdr_bones fs) (mdr_boneIndex t) = Some ms /\
    rd (mdr_frames mdr) (clamped_frame (mdr_numFrames mdr) endFrame) = Some fe /\
    rd (mdr_bones fe) (mdr_boneIndex t) = Some me /\
    R_LerpTag K acosf sinf mem tr handle startFrame endFrame frac tagName jointMats =
    Some (lerp_tags (tag_of_bone tagName ms) (tag_of_bone tagName me) frac, true).
Proof.
  intros Hm Hmd3 Hty Hdata Hwf Hs He Hin.
  destruct (mdr_tags_split_first _ _ Hin) as (pre & t & post & Hsplit & Ht & Hpre).
  assert (Htin : t ∈ mdr_tags mdr).
  { rewrite Hsplit. apply elem_of_app. right. left. }
  destruct (mdr_frame_bone_readable mdr startFrame t Hwf Hs Htin) as (fs & ms & Hfs & Hms).
  destruct (mdr_frame_bone_readable mdr endFrame t Hwf He Htin) as (fe & me & Hfe & Hme).
  exists pre, t, post, fs, fe, ms, me.
  repeat (split; [assumption|]).
  apply (R_LerpTag_MDR_blend K acosf sinf mem tr handle model mdr startFrame endFrame
           frac tagName jointMats pre t post fs fe ms me); try assumption.
  destruct Hwf as (_ & _ & Htl & _).
  rewrite <- Htl, Hsplit, length_app. simpl. lia.
Qed.

Lemma sample_mdr_wf : mdr_wf sample_mdr.
Proof.
  unfold mdr_wf. simpl. split; [lia|]. split; [reflexivity|]. split; [reflexivity|].
  split.
  - intros f Hf. apply elem_of_cons in Hf as [-> | Hf]; [reflexivity|].
    apply list_elem_of_singleton in Hf. subst f. reflexivity.
  - intros t Ht. apply list_elem_of_singleton in Ht. subst t. simpl. lia.
Qed.

(** The sample MDR between its two frames, asked for frame 0 and for frame
    7, which is replaced by the last frame. *)
Lemma R_LerpTag_MDR_blends_both_frames_witness :
  exists (pre : list mdrTag_t) (t : mdrTag_t) (post : list mdrTag_t)
         (fs fe : mdrFrame_t) (ms me : list float),
    mdr_tags sample_mdr = pre ++ t :: post /\ mdr_tag_name t = "tag_weapon"%string /\
    (forall u, u ∈ pre -> mdr_tag_name u <> "tag_weapon"%string) /\
    rd (mdr_frames sample_mdr) (clamped_frame (mdr_numFrames sample_mdr) 0) = Some fs /\
    rd (mdr_bones fs) (mdr_boneIndex t) = Some ms /\
    rd (mdr_frames sample_mdr) (clamped_frame (mdr_numFrames sample_mdr) 7) = Some fe /\
    rd (mdr_bones fe) (mdr_boneIndex t) = Some me /\
    R_LerpTag quake3_constants id id sample_memory sample_tr 2 0 7 lit_0_5 "tag_weapon" [] =
    Some (lerp_tags (tag_of_bone "tag_weapon" ms) (tag_of_bone "tag_weapon" me) lit_0_5,
          true).
Proof.
  apply (R_LerpTag_MDR_blends_both_frames quake3_constants id id sample_memory sample_tr 2
           (mk_model "models/b.mdr" MOD_MDR 2 512 (data_mdr sample_mdr) (fun _ => None) 1)
           sample_mdr 0 7 lit_0_5 "tag_weapon" []);
    [reflexivity | reflexivity | reflexivity | reflexivity | exact sample_mdr_wf
    | lia | lia | left].
Defined.

(** C1 as stated fails: between frame 0 (tag at the origin) and frame 1 (tag
    at (2, 0, 0)) with fraction 0.5, R_LerpTag places the tag at (1, 0, 0),
    which is the single-frame resolution of neither frame. *)
Lemma R_LerpTag_MDR_is_not_single_frame :
  (exists o,
     R_LerpTag quake3_constants id id sample_memory sample_tr 2 0 1 lit_0_5
       "tag_weapon" [] = Some (o, true) /\
     origin o = Vec3 F32.one F32.zero F32.zero) /\
  R_LerpTag quake3_constants id id sample_memory sample_tr 2 0 1 lit_0_5 "tag_weapon" [] <>
    lerpTag_single_frame_spec sample_mdr 0 "tag_weapon" /\
  R_LerpTag quake3_constants id id sample_memory sample_tr 2 0 1 lit_0_5 "tag_weapon" [] <>
    lerpTag_single_frame_spec sample_mdr 1 "tag_weapon".
Proof.
  split; [|split].
  - eexists. split; [vm_compute; reflexivity | vm_compute; reflexivity].
  - vm_compute. discriminate.
  - vm_compute. discriminate.
Qed.

(** ** R_LoadMD3: the vertex ceiling *)

Lemma u64_small (z : Z) : 0 <= z < 2 ^ 64 -> u64 z = z.
Proof. intros H. unfold u64. apply Z.mod_small. exact H. Qed.

Lemma u32_small (z : Z) : 0 <= z < 2 ^ 32 -> u32 z = z.
Proof. intros H. unfold u32. apply Z.mod_small. exact H. Qed.

Lemma gtb_false (a b : Z) : a <= b -> (a >? b) = false.
Proof. intros H. rewrite Z.gtb_ltb. apply Z.ltb_ge. exact H. Qed.

Lemma lor_below_pow2 (a b n : Z) :
  0 <= n -> 0 <= a < 2 ^ n -> 0 <= b < 2 ^ n -> 0 <= Z.lor a b < 2 ^ n.
Proof.
  intros Hn Ha Hb.
  assert (Hnn : 0 <= Z.lor a b) by (apply Z.lor_nonneg; lia).
  split; [exact Hnn|].
  destruct (Z.eq_dec (Z.lor a b) 0) as [E | E].
  - rewrite E. apply Z.pow_pos_nonneg; lia.
  - apply Z.log2_lt_pow2; [lia|].
    rewrite Z.log2_lor by lia.
    destruct (Z.eq_dec a 0) as [-> | Ha0], (Z.eq_dec b 0) as [-> | Hb0].
    + exfalso. apply E. reflexivity.
    + rewrite Z.max_r by (apply Z.log2_nonneg).
      apply Z.log2_lt_pow2; lia.
    + rewrite Z.max_l by (apply Z.log2_nonneg).
      apply Z.log2_lt_pow2; lia.
    + apply Z.max_lub_lt; apply Z.log2_lt_pow2; lia.
Qed.

Section LoadMD3Facts.

Variable K : constants.

(** The structures have positive sizes, and the index limit is an [int]. *)
Hypothesis sizes : sizes_positive K.
Hypothesis index_limit : in_s32 (SHADER_MAX_INDEXES K).

Lemma surface_rejected_too_many_verts (fileSize surf_off : Z) (surf : md3Surface_t) :
  (SHADER_MAX_VERTEXES K) <= surf_numVerts surf ->
  surface_rejected K fileSize surf_off surf = true.
Proof.
  intros H. unfold surface_rejected.
  replace (surf_numVerts surf >=? (SHADER_MAX_VERTEXES K)) with true
    by (symmetry; rewrite Z.geb_leb; apply Z.leb_le; exact H).
  rewrite !orb_true_r. reflexivity.
Qed.

Lemma surface_accepted (fileSize surf_off : Z) (surf : md3Surface_t) :
  1 <= fileSize < 2 ^ 31 ->
  surface_valid K fileSize surf ->
  surf_numVerts surf < SHADER_MAX_VERTEXES K ->
  surface_rejected K fileSize surf_off surf = false.
Proof.
  intros Hfs Hv Hverts. unfold surface_valid in Hv.
  destruct Hv as (H1 & H2 & H3 & H4 & H5 & H6 & H7 & H8 & H9 & H10 & H11 & H12 & H13).
  destruct sizes as (_ & _ & _ & _ & S5 & S6 & S7 & S8).
  pose proof (Z.mul_nonneg_nonneg (surf_numTriangles surf) (sizeof_md3Triangle_t K)
                ltac:(lia) ltac:(lia)) as P1.
  pose proof (Z.mul_nonneg_nonneg (surf_numShaders surf) (sizeof_md3Shader_t K)
                ltac:(lia) ltac:(lia)) as P2.
  pose proof (Z.mul_nonneg_nonneg (surf_numVerts surf) (sizeof_md3St_t K)
                ltac:(lia) ltac:(lia)) as P3.
  pose proof (Z.mul_nonneg_nonneg (surf_numVerts surf) (sizeof_md3XyzNormal_t K)
                ltac:(lia) ltac:(lia)) as P4.
  unfold surface_rejected. unfold in_s32 in index_limit.
  rewrite !u64_small by lia.
  rewrite (s32_id (surf_numTriangles surf * 3)) by (unfold in_s32; lia).
  repeat (apply orb_false_intro); try (apply gtb_false; lia).
  - destruct ((surf_ofsEnd surf >? fileSize) || negb (surf_off + surf_ofsEnd surf =? 0));
      apply gtb_false; lia.
  - rewrite Z.geb_leb. apply Z.leb_gt. lia.
  - rewrite Z.geb_leb. apply Z.leb_gt. lia.
Qed.

Lemma R_LoadMD3_surfaces_true (hdr : md3Header_t) (fileSize : Z) (n : nat) (off : Z) :
  R_LoadMD3_surfaces K hdr fileSize n off = true <->
  forall k : nat, (k < n)%nat ->
    surface_rejected K fileSize
      (surface_chain hdr off k) (md3_surfaceAt hdr (surface_chain hdr off k)) = false.
Proof.
  revert off. induction n as [|n IH]; intros off; simpl.
  - split; [intros _ k Hk; lia | reflexivity].
  - destruct (surface_rejected K fileSize off (md3_surfaceAt hdr off)) eqn:E.
    + split; [discriminate|]. intros H.
      specialize (H 0%nat ltac:(lia)). simpl in H. congruence.
    + rewrite IH. split.
      * intros H k Hk. destruct k as [|k]; [exact E|]. simpl. apply H. lia.
      * intros H k Hk. apply (H (S k)). lia.
Qed.

Lemma header_accepted (hdr : md3Header_t) (fileSize : Z) :
  1 <= fileSize < 2 ^ 31 ->
  header_valid K hdr fileSize ->
  header_rejected K hdr (u32 (md3_ofsEnd hdr)) fileSize = false /\
  (u32 (md3_ofsEnd hdr) >? fileSize) = false.
Proof.
  intros Hfs Hv. unfold header_valid in Hv.
  destruct Hv as (H1 & H2 & H3 & H4 & H5 & H6 & H7 & H8 & H9 & H10 & H11 & H12).
  destruct sizes as (_ & S2 & S3 & S4 & _).
  rewrite (u32_small (md3_ofsEnd hdr)) by lia.
  split; [|apply gtb_false; lia].
  unfold header_rejected.
  pose proof (lor_below_pow2 (md3_numFrames hdr) (md3_numTags hdr) 20
                ltac:(lia) ltac:(lia) ltac:(lia)) as Hl1.
  pose proof (lor_below_pow2 _ (md3_numSkins hdr) 20 ltac:(lia) Hl1 ltac:(lia)) as Hl2.
  pose proof (Z.mul_nonneg_nonneg (md3_numTags hdr) (md3_numFrames hdr)
                ltac:(lia) ltac:(lia)) as Hprod0.
  assert (Hprod : md3_numTags hdr * md3_numFrames hdr < 2 ^ 31).
  { pose proof (Z.mul_le_mono_nonneg_l 1 (sizeof_md3Tag_t K)
                  (md3_numTags hdr * md3_numFrames hdr) Hprod0 ltac:(lia)). lia. }
  pose proof (Z.mul_nonneg_nonneg (md3_numFrames hdr) (sizeof_md3Frame_t K)
                ltac:(lia) ltac:(lia)) as Pf.
  pose proof (Z.mul_nonneg_nonneg (md3_numTags hdr * md3_numFrames hdr)
                (sizeof_md3Tag_t K) Hprod0 ltac:(lia)) as Pt.
  rewrite (s32_id (md3_numTags hdr * md3_numFrames hdr)) by (unfold in_s32; lia).
  rewrite !u32_small by lia.
  rewrite (u64_small (md3_ofsFrames hdr + _)) by lia.
  rewrite (u64_small (md3_ofsTags hdr + _)) by lia.
  assert (Hs : 0 <= (if md3_numSurfaces hdr =? 0 then 0 else 1) * sizeof_md3Surface_t K)
    by (destruct (md3_numSurfaces hdr =? 0); lia).
  rewrite (u64_small (md3_ofsSurfaces hdr + _)) by lia.
  repeat (apply orb_false_intro); try (apply gtb_false; lia).
  apply Z.ltb_ge. lia.
Qed.


End LoadMD3Facts.

Lemma quake3_sizes_positive : sizes_positive quake3_constants.
Proof. unfold sizes_positive; simpl. lia. Qed.

Lemma sample_md3_file_header_valid (numVerts : Z) :
  header_valid quake3_constants (sample_md3_file numVerts) 16384.
Proof. unfold header_valid, sample_md3_file; simpl. lia. Qed.


(** ** The registry *)

Lemma substring_all (s : string) (n : nat) :
  (String.length s <= n)%nat -> String.substring 0 n s = s.
Proof.
  revert n. induction s as [|c s IH]; intros n H.
  - destruct n; reflexivity.
  - destruct n as [|n]; [simpl in H; lia|].
    simpl. f_equal. apply IH. simpl in H. lia.
Qed.

Lemma truncate_to_short (size : Z) (s : string) :
  Z.of_nat (String.length s) < size -> truncate_to size s = s.
Proof. intros H. unfold truncate_to. apply substring_all. lia. Qed.

Lemma modtype_eqb_BAD (t : modtype_t) :
  modtype_eqb t MOD_BAD = true <-> t = MOD_BAD.
Proof. destruct t; simpl; split; congruence. Qed.

(** The search stops at the first record of the wanted name. *)
Lemma search_models_app (l : list model_t) (m : model_t) (name_ : string) (h : Z) :
  search_models l name_ h = None ->
  search_models (l ++ [m]) name_ h =
    if String.eqb (name m) name_
    then Some (if modtype_eqb (type m) MOD_BAD then 0 else h + Z.of_nat (length l))
    else None.
Proof.
  revert h. induction l as [|x l IH]; intros h H; simpl in *.
  - rewrite Z.add_0_r. reflexivity.
  - destruct (String.eqb (name x) name_); [discriminate|].
    rewrite IH by exact H.
    replace (h + 1 + Z.of_nat (length l)) with (h + Z.pos (Pos.of_succ_nat (length l)))
      by lia.
    reflexivity.
Qed.

Section RegistryFacts.

Variable buffer : Type.
Variable FS_ReadFile : string -> option (Z * buffer).
Variable ident_of : buffer -> Z.
Variable md3_of : buffer -> md3Header_t.
Variable R_LoadMDR : model_t -> buffer -> Z -> bool * model_t.
Variable R_LoadIQM : model_t -> buffer -> Z -> bool * model_t.
Variable K : constants.
Variable COM_GetExtension : string -> string.
Variable COM_StripExtension : string -> string.
Variable Q_stricmp : string -> string -> Z.

Hypothesis R_LoadMDR_ok : decoder_ok R_LoadMDR.
Hypothesis R_LoadIQM_ok : decoder_ok R_LoadIQM.

Lemma R_LoadMD3_effect (m : model_t) (lod : Z) (pinmodel : md3Header_t) (fileSize : Z) :
  let r := R_LoadMD3 K m lod pinmodel fileSize in
  name r.2 = name m /\ index r.2 = index m /\
  (type r.2 = type m \/ type r.2 = MOD_MESH) /\
  (r.1 = true -> type r.2 = MOD_MESH).
Proof.
  unfold R_LoadMD3.
  destruct (negb (md3_version pinmodel =? (MD3_VERSION K))); cbn [fst snd].
  { repeat split; auto; discriminate. }
  destruct (u32 (md3_ofsEnd pinmodel) >? fileSize); cbn [fst snd].
  { repeat split; auto; discriminate. }
  destruct (header_rejected K pinmodel _ fileSize); cbn [fst snd name index type];
    repeat split; auto.
Qed.

Lemma R_RegisterMD3_loop_inv (filename fext : string) (n : nat) (st : md3_loop_state) :
  (ls_loaded st = true \/ ls_numLoaded st <> 0 -> type (ls_mod st) = MOD_MESH) ->
  0 <= ls_numLoaded st ->
  let r := R_RegisterMD3_loop buffer FS_ReadFile ident_of md3_of K
             filename fext n st in
  name (ls_mod r.2) = name (ls_mod st) /\
  index (ls_mod r.2) = index (ls_mod st) /\
  w_tr (ls_world r.2) = w_tr (ls_world st) /\
  (ls_numLoaded r.2 <> 0 -> type (ls_mod r.2) = MOD_MESH).
Proof.
  revert st. induction n as [|n IH]; intros st Hty Hnn; cbn zeta.
  - simpl. repeat split; auto.
  - cbn [R_RegisterMD3_loop]. cbn zeta.
    set (namebuf := truncate_to _ _).
    destruct (FS_ReadFile namebuf) as [[fileSize buf]|].
    2:{ exact (IH (mk_md3_loop (ls_mod st) (ls_loaded st) (ls_numLoaded st)
                     (log_read namebuf (ls_world st))) Hty Hnn). }
    destruct (fileSize <? (sizeof_md3Header_t K)).
    { cbn [fst snd ls_mod ls_world ls_numLoaded log_read w_tr].
      repeat split; auto. }
    destruct (ident_of buf =? (MD3_IDENT K)).
    + pose proof (R_LoadMD3_effect (ls_mod st) (Z.of_nat n) (md3_of buf) fileSize)
        as Heff. cbn zeta in Heff.
      destruct (R_LoadMD3 K (ls_mod st) (Z.of_nat n) (md3_of buf) fileSize)
        as [loaded m'] eqn:E.
      cbn [fst snd] in Heff. destruct Heff as (Hn & Hi & Ht & Hl).
      destruct loaded.
      * specialize (IH (mk_md3_loop (add_lod m') true (ls_numLoaded st + 1)
                          (log_decode namebuf (log_read namebuf (ls_world st))))).
        cbn zeta in IH. cbn [ls_mod ls_loaded ls_numLoaded ls_world] in IH.
        destruct IH as (IH1 & IH2 & IH3 & IH4).
        -- intros _. simpl. apply Hl. reflexivity.
        -- lia.
        -- repeat split.
           ++ rewrite IH1. simpl. exact Hn.
           ++ rewrite IH2. simpl. exact Hi.
           ++ rewrite IH3. reflexivity.
           ++ exact IH4.
      * cbn [fst snd ls_mod ls_world ls_numLoaded log_read log_decode w_tr].
        repeat split; auto.
        all: intros Hne; destruct Ht as [Ht | Ht]; [|exact Ht].
        all: rewrite Ht; apply Hty; right; exact Hne.
    + destruct (ls_loaded st) eqn:El.
      * specialize (IH (mk_md3_loop (add_lod (ls_mod st)) true (ls_numLoaded st + 1)
                          (log_read namebuf (ls_world st)))).
        cbn zeta in IH. cbn [ls_mod ls_loaded ls_numLoaded ls_world] in IH.
        destruct IH as (IH1 & IH2 & IH3 & IH4).
        -- intros _. simpl. apply Hty. left. reflexivity.
        -- lia.
        -- repeat split.
           ++ rewrite IH1. reflexivity.
           ++ rewrite IH2. reflexivity.
           ++ rewrite IH3. reflexivity.
           ++ exact IH4.
      * cbn [fst snd ls_mod ls_world ls_numLoaded log_read w_tr].
        repeat split; auto.
        all: intros Hne; apply Hty; right; exact Hne.
Qed.

Lemma duplicate_lods_effect (n : nat) (m : model_t) :
  name (duplicate_lods n m) = name m /\
  index (duplicate_lods n m) = index m /\
  type (duplicate_lods n m) = type m.
Proof.
  revert m. induction n as [|n IH]; intros m; simpl; [auto|].
  destruct (IH (mk_model (name m) (type m) (index m) (dataSize m) (modelData m)
                  (set_md3 (md3 m) (Z.of_nat n) (md3 m (Z.of_nat n + 1)))
                  (s32 (numLods m + 1)))) as (H1 & H2 & H3).
  simpl in *. auto.
Qed.

Lemma R_RegisterMD3_post (name_ : string) (m : model_t) (w : world) :
  loader_post m w
    (R_RegisterMD3 buffer FS_ReadFile ident_of md3_of K name_ m w).
Proof.
  unfold R_RegisterMD3.
  destruct (match split_at_first_dot name_ with
            | Some (filename, fext) => (filename, fext)
            | None => (name_, "md3"%string)
            end) as [filename fext].
  pose proof (R_RegisterMD3_loop_inv filename fext (Z.to_nat (MD3_MAX_LODS K))
                (mk_md3_loop m false 0 w)) as Hinv.
  cbn zeta in Hinv. cbn [ls_mod ls_loaded ls_numLoaded ls_world] in Hinv.
  destruct Hinv as (H1 & H2 & H3 & H4).
  { intros [H | H]; [discriminate | contradiction]. }
  { lia. }
  destruct (R_RegisterMD3_loop _ _ _ _ _ _ _ _ _) as [lod st].
  cbn [fst snd] in *.
  destruct (ls_numLoaded st =? 0) eqn:E; cbn [negb].
  - unfold loader_post, handle_matches; cbn [fst snd].
    repeat split; auto. all: left; split; reflexivity.
  - apply Z.eqb_neq in E.
    destruct (duplicate_lods_effect (Z.to_nat lod) (ls_mod st)) as (D1 & D2 & D3).
    unfold loader_post, handle_matches; cbn [fst snd].
    rewrite D1, D2, D3. repeat split; auto.
    all: right; split; [reflexivity|]; rewrite (H4 E); discriminate.
Qed.

Lemma R_RegisterMDR_post (name_ : string) (m : model_t) (w : world) :
  loader_post m w (R_RegisterMDR buffer FS_ReadFile ident_of R_LoadMDR K name_ m w).
Proof.
  unfold R_RegisterMDR, loader_post, handle_matches.
  destruct (FS_ReadFile name_) as [[filesize buf]|]; cbn [fst snd].
  2:{ repeat split; auto. all: left; split; reflexivity. }
  destruct (u64 filesize <? 4); cbn [fst snd].
  { repeat split; auto. all: left; split; reflexivity. }
  destruct (ident_of buf =? (MDR_IDENT K)).
  - destruct (R_LoadMDR_ok m buf filesize) as (Hn & Hi & Ht).
    destruct (R_LoadMDR m buf filesize) as [loaded m']. cbn [fst snd] in *.
    destruct loaded; cbn [negb fst snd].
    + repeat split; auto. all: right; split; [reflexivity | apply Ht; reflexivity].
    + repeat split; auto. all: left; split; reflexivity.
  - cbn [negb fst snd]. repeat split; auto. all: left; split; reflexivity.
Qed.

Lemma R_RegisterIQM_post (name_ : string) (m : model_t) (w : world) :
  loader_post m w (R_RegisterIQM buffer FS_ReadFile R_LoadIQM name_ m w).
Proof.
  unfold R_RegisterIQM, loader_post, handle_matches.
  destruct (FS_ReadFile name_) as [[filesize buf]|]; cbn [fst snd].
  2:{ repeat split; auto. all: left; split; reflexivity. }
  destruct (R_LoadIQM_ok m buf filesize) as (Hn & Hi & Ht).
  destruct (R_LoadIQM m buf filesize) as [loaded m']. cbn [fst snd] in *.
  destruct loaded; cbn [negb fst snd].
  - repeat split; auto. all: right; split; [reflexivity | apply Ht; reflexivity].
  - repeat split; auto. all: left; split; reflexivity.
Qed.

Lemma modelLoaders_post :
  loaders_post
    (modelLoaders buffer FS_ReadFile ident_of md3_of R_LoadMDR R_LoadIQM K).
Proof.
  unfold loaders_post, modelLoaders.
  constructor; [intros nm m w; apply R_RegisterIQM_post|].
  constructor; [intros nm m w; apply R_RegisterMDR_post|].
  constructor; [intros nm m w; apply R_RegisterMD3_post|].
  constructor.
Qed.

Lemma store_model_last (m m' : model_t) (w w' : world) (base : list model_t) :
  models (w_tr w) = base ++ [m] -> w_tr w' = w_tr w ->
  index m' = index m -> Z.to_nat (index m) = length base ->
  models (w_tr (store_model m' w')) = base ++ [m'].
Proof.
  intros Hm Htr Hi Hlen. unfold store_model. cbn [w_tr models].
  rewrite Htr, Hm, Hi, Hlen.
  replace (length base) with (length base + 0)%nat by lia.
  rewrite insert_app_r. reflexivity.
Qed.

(** The fallback loop ends with the record still last in the table and
    matched with the handle, provided it starts that way or runs at least
    its first loader. *)
Lemma try_loaders_post (localName : string) (orgLoader : Z)
  (loaders : list (string * (string -> model_t -> world -> Z * model_t * world))) :
  loaders_post loaders ->
  forall (i h : Z) (m : model_t) (w : world) (base : list model_t),
    models (w_tr w) = base ++ [m] -> Z.to_nat (index m) = length base ->
    handle_matches h m \/ (loaders <> [] /\ i <> orgLoader) ->
    let r := try_loaders K localName orgLoader loaders i h m w in
    name r.1.2 = name m /\ index r.1.2 = index m /\
    models (w_tr r.2) = base ++ [r.1.2] /\ handle_matches r.1.1 r.1.2.
Proof.
  intros Hall. induction Hall as [|[lext loader] rest Hld Hrest IH];
    intros i h m w base Hm Hlen Hstart; cbn zeta.
  - cbn [try_loaders fst snd].
    destruct Hstart as [Hs | [Hne _]]; [|contradiction].
    repeat split; auto.
  - cbn [try_loaders]. destruct (i =? orgLoader) eqn:E.
    + apply Z.eqb_eq in E.
      destruct Hstart as [Hs | [_ Hne]]; [|contradiction].
      apply IH; auto.
    + cbn [snd] in Hld.
      pose proof (Hld (truncate_to (MAX_QPATH K) (localName ++ "." ++ lext)%string) m w)
        as Hpost.
      destruct (loader _ m w) as [[h' m'] w'].
      unfold loader_post in Hpost. cbn [fst snd] in Hpost.
      destruct Hpost as (Hn & Hi & Htr & Hh).
      pose proof (store_model_last m m' w w' base Hm Htr Hi Hlen) as Hstore.
      destruct (h' =? 0); cbn [negb].
      * specialize (IH (i + 1) h' m' (store_model m' w') base Hstore
                      ltac:(rewrite Hi; exact Hlen) (or_introl Hh)).
        cbn zeta in IH. destruct IH as (I1 & I2 & I3 & I4).
        repeat split; auto; congruence.
      * cbn [fst snd]. repeat split; auto.
Qed.

Lemma R_AllocModel_some (tr : trGlobals_t) (m : model_t) (tr' : trGlobals_t) :
  R_AllocModel K tr = Some (m, tr') ->
  m = fresh_model (numModels tr) /\ models tr' = models tr ++ [m].
Proof.
  unfold R_AllocModel. destruct (numModels tr >=? (MAX_MOD_KNOWN K)); [discriminate|].
  intros H. injection H as <- <-. split; reflexivity.
Qed.

(** What a first registration of a name leaves: either nothing changed and
    a second call takes the same early exit, or the name now sits in the
    last slot of the table, matched with the handle returned. *)
Lemma RE_RegisterModel_new_entry (name_ : string) (w : world) (m : model_t)
  (tr' : trGlobals_t) :
  String.eqb name_ "" = false ->
  (Z.of_nat (String.length name_) >=? (MAX_QPATH K)) = false ->
  R_AllocModel K (w_tr w) = Some (m, tr') ->
  search_models (drop 1 (models (w_tr w))) name_ 1 = None ->
  let r := RE_RegisterModel buffer FS_ReadFile ident_of md3_of R_LoadMDR R_LoadIQM
             K COM_GetExtension COM_StripExtension Q_stricmp name_ w in
  exists mf,
    models (w_tr r.2) = models (w_tr w) ++ [mf] /\
    name mf = name_ /\ index mf = numModels (w_tr w) /\ handle_matches r.1 mf.
Proof.
  intros Hne Hlen Halloc Hsearch. cbn zeta.
  unfold RE_RegisterModel. rewrite Hne, Hlen, Hsearch, Halloc.
  apply R_AllocModel_some in Halloc as [-> Htr'].
  rewrite Z.geb_leb, Z.leb_gt in Hlen.
  rewrite (truncate_to_short (MAX_QPATH K) name_) by exact Hlen.
  set (base := models (w_tr w)) in *.
  set (m1 := set_name_bad (fresh_model (numModels (w_tr w))) name_).
  set (w0 := mk_world tr' (w_reads w) (w_decodes w)).
  assert (Hidx : Z.to_nat (index m1) = length base)
    by (unfold m1, numModels, base; simpl; lia).
  assert (Hw1 : models (w_tr (store_model m1 w0)) = base ++ [m1]).
  { apply (store_model_last (fresh_model (numModels (w_tr w))) m1 w0 w0 base);
      [exact Htr' | reflexivity | reflexivity | exact Hidx]. }
  set (w1 := store_model m1 w0) in *.
  assert (Htry : forall localName orgLoader h mm ww,
             models (w_tr ww) = base ++ [mm] -> Z.to_nat (index mm) = length base ->
             name mm = name_ -> index mm = numModels (w_tr w) ->
             handle_matches h mm \/ orgLoader = -1 ->
             exists mf,
               models (w_tr (let '(hModel, mod_, w2) :=
                               try_loaders K localName orgLoader
                                 (modelLoaders buffer FS_ReadFile ident_of md3_of
                                    R_LoadMDR R_LoadIQM K) 0 h mm ww in
                             (hModel, w2)).2) = base ++ [mf] /\
               name mf = name_ /\ index mf = numModels (w_tr w) /\
               handle_matches (let '(hModel, mod_, w2) :=
                                 try_loaders K localName orgLoader
                                   (modelLoaders buffer FS_ReadFile ident_of md3_of
                                      R_LoadMDR R_LoadIQM K) 0 h mm ww in
                               (hModel, w2)).1 mf).
  { intros localName orgLoader h mm ww Hmm Hmi Hmn Hmx Hst.
    pose proof (try_loaders_post localName orgLoader _ modelLoaders_post
                  0 h mm ww base Hmm Hmi) as Hp.
    cbn zeta in Hp.
    destruct Hp as (P1 & P2 & P3 & P4).
    { destruct Hst as [Hst | ->]; [left; exact Hst|].
      right. split; [discriminate | lia]. }
    destruct (try_loaders _ _ _ _ _ _ _ _) as [[hf mf] wf].
    cbn [fst snd] in *. exists mf. repeat split; auto; congruence. }
  assert (Hm1n : name m1 = name_) by reflexivity.
  assert (Hm1i : index m1 = numModels (w_tr w)) by reflexivity.
  destruct (String.eqb (COM_GetExtension name_) "").
  { apply Htry; auto. }
  destruct (find_loader Q_stricmp (COM_GetExtension name_) _ 0) as [[i loader]|] eqn:Ef.
  2:{ apply Htry; auto. }
  assert (Hld : forall nm mm ww, loader_post mm ww (loader nm mm ww)).
  { clear -Ef R_LoadMDR_ok R_LoadIQM_ok.
    pose proof modelLoaders_post as Hall. unfold loaders_post in Hall.
    revert Ef. generalize 0.
    induction Hall as [|[lext ld] rest Hx Hrest IH]; intros z Ef; simpl in Ef.
    - discriminate.
    - destruct (Q_stricmp (COM_GetExtension name_) lext =? 0).
      + injection Ef as _ <-. exact Hx.
      + apply (IH _ Ef). }
  pose proof (Hld name_ m1 w1) as Hpost.
  destruct (loader name_ m1 w1) as [[h2 m2] w2].
  unfold loader_post in Hpost. cbn [fst snd] in Hpost.
  destruct Hpost as (Hn & Hi & Htr & Hh).
  pose proof (store_model_last m1 m2 w1 w2 base Hw1 Htr Hi Hidx) as Hstore.
  destruct (h2 =? 0) eqn:Eh.
  - apply Htry; auto; try congruence.
    all: try (rewrite Hi; exact Hidx).
  - cbn [fst snd]. exists m2.
    split; [exact Hstore|]. split; [congruence|]. split; [congruence|].
    destruct Hh as [[Hz _] | [Hx Hy]].
    + apply Z.eqb_neq in Eh. contradiction.
    + right. split; [reflexivity | exact Hy].
Qed.

(** X4.  A registration keeps the registry well formed, so what is proved of
    a well-formed registry holds after any sequence of registrations. *)
Lemma RE_RegisterModel_wf (name_ : string) (w : world) :
  registry_wf (w_tr w) ->
  registry_wf
    (w_tr (RE_RegisterModel buffer FS_ReadFile ident_of md3_of R_LoadMDR R_LoadIQM
             K COM_GetExtension COM_StripExtension Q_stricmp name_ w).2).
Proof.
  intros Hwf.
  destruct (String.eqb name_ "") eqn:Hne.
  { unfold RE_RegisterModel. rewrite Hne. exact Hwf. }
  destruct (Z.of_nat (String.length name_) >=? MAX_QPATH K) eqn:Hlen.
  { unfold RE_RegisterModel. rewrite Hne, Hlen. exact Hwf. }
  destruct (search_models (drop 1 (models (w_tr w))) name_ 1) as [h|] eqn:Hsearch.
  { unfold RE_RegisterModel. rewrite Hne, Hlen, Hsearch. exact Hwf. }
  destruct (R_AllocModel K (w_tr w)) as [[m tr']|] eqn:Halloc.
  2:{ unfold RE_RegisterModel. rewrite Hne, Hlen, Hsearch, Halloc. exact Hwf. }
  pose proof (RE_RegisterModel_new_entry name_ w m tr' Hne Hlen Halloc Hsearch) as Hnew.
  cbn zeta in Hnew.
  destruct Hnew as (mf & Hmodels & _ & Hmidx & _).
  unfold registry_wf, numModels in *. destruct Hwf as [Hn Hidx].
  split.
  - rewrite Hmodels, length_app. simpl. lia.
  - intros i x Hx. rewrite Hmodels in Hx.
    apply lookup_app_Some in Hx as [Hx | [Hge Hx]].
    + apply Hidx; exact Hx.
    + apply list_lookup_singleton_Some in Hx as [Hi <-]. rewrite Hmidx. lia.
Qed.

(** C2, as the code has it.  In a registry set up by R_ModelInit, a second
    RE_RegisterModel of a name returns the handle the first one returned and
    leaves the world exactly as the first one left it: it reads no file and
    starts no decode, whether the first registration loaded the model or
    failed in every format. *)
Theorem RE_RegisterModel_twice (name_ : string) (w : world) :
  registry_wf (w_tr w) ->
  let first := RE_RegisterModel buffer FS_ReadFile ident_of md3_of R_LoadMDR R_LoadIQM
                 K COM_GetExtension COM_StripExtension Q_stricmp name_ w in
  let second := RE_RegisterModel buffer FS_ReadFile ident_of md3_of R_LoadMDR R_LoadIQM
                  K COM_GetExtension COM_StripExtension Q_stricmp name_ first.2 in
  second.1 = first.1 /\
  second.2 = first.2 /\
  w_reads second.2 = w_reads first.2 /\
  w_decodes second.2 = w_decodes first.2.
Proof.
  intros [Hn Hidx]. cbn zeta.
  match goal with
  | |- ?s.1 = ?f.1 /\ _ => assert (Heq : s = f); [|rewrite Heq; auto]
  end.
  destruct (String.eqb name_ "") eqn:Hne.
  { unfold RE_RegisterModel.
    repeat (rewrite ?Hne; cbn [snd]). reflexivity. }
  destruct (Z.of_nat (String.length name_) >=? (MAX_QPATH K)) eqn:Hlen.
  { unfold RE_RegisterModel.
    repeat (rewrite ?Hne, ?Hlen; cbn [snd]). reflexivity. }
  destruct (search_models (drop 1 (models (w_tr w))) name_ 1) as [h|] eqn:Hsearch.
  { unfold RE_RegisterModel.
    repeat (rewrite ?Hne, ?Hlen, ?Hsearch; cbn [snd]). reflexivity. }
  destruct (R_AllocModel K (w_tr w)) as [[m tr']|] eqn:Halloc.
  2:{ unfold RE_RegisterModel.
      repeat (rewrite ?Hne, ?Hlen, ?Hsearch, ?Halloc; cbn [snd]). reflexivity. }
  pose proof (RE_RegisterModel_new_entry name_ w m tr' Hne Hlen Halloc Hsearch) as Hnew.
  cbn zeta in Hnew.
  destruct (RE_RegisterModel _ _ _ _ _ _ _ _ _ _ name_ w) as [h1 w1].
  cbn [fst snd] in *.
  destruct Hnew as (mf & Hmodels & Hname & Hmidx & Hmatch).
  unfold RE_RegisterModel at 1. rewrite Hne, Hlen, Hmodels.
  assert (Hdrop : drop 1 (models (w_tr w) ++ [mf]) = drop 1 (models (w_tr w)) ++ [mf]).
  { unfold numModels in Hn.
    destruct (models (w_tr w)) as [|x l]; [simpl in Hn; lia | reflexivity]. }
  rewrite Hdrop, (search_models_app _ mf name_ 1 Hsearch).
  rewrite Hname, String.eqb_refl.
  f_equal.
  destruct Hmatch as [[-> Hbad] | [-> Hgood]].
  - rewrite Hbad. reflexivity.
  - replace (modtype_eqb (type mf) MOD_BAD) with false.
    + rewrite Hmidx. unfold numModels in *. rewrite length_drop. lia.
    + symmetry. destruct (modtype_eqb (type mf) MOD_BAD) eqn:E; [|reflexivity].
      apply modtype_eqb_BAD in E. contradiction.
Qed.

End RegistryFacts.

Lemma sample_decoders_ok : decoder_ok sample_R_LoadMDR /\ decoder_ok sample_R_LoadIQM.
Proof. split; intros m b z; simpl; repeat split; discriminate. Qed.

Lemma sample_world_wf : registry_wf (w_tr sample_world).
Proof. apply (R_ModelInit_wf quake3_constants (mk_tr [])). reflexivity. Qed.

(** The sample directory: "models/foo.md3" is registered and then asked for
    again. *)
Lemma RE_RegisterModel_twice_witness :
  let first := sample_RE_RegisterModel "models/foo.md3" sample_world in
  let second := sample_RE_RegisterModel "models/foo.md3" first.2 in
  second.1 = first.1 /\
  second.2 = first.2 /\
  w_reads second.2 = w_reads first.2 /\
  w_decodes second.2 = w_decodes first.2.
Proof.
  exact (RE_RegisterModel_twice sample_file sample_FS_ReadFile sample_ident_of
           sample_md3_of sample_R_LoadMDR sample_R_LoadIQM quake3_constants
           sample_COM_GetExtension sample_COM_StripExtension sample_Q_stricmp
           (proj1 sample_decoders_ok) (proj2 sample_decoders_ok)
           "models/foo.md3" sample_world sample_world_wf).
Defined.

(** C2 as stated fails on the count: registering "models/foo.md3" twice
    returns handle 1 both times, but the first registration reads three
    files and decodes two of them (one per level of detail present); the
    second adds nothing.  A name missing in every format is read five times
    and never decoded. *)
Lemma RE_RegisterModel_decodes_each_lod :
  let first := sample_RE_RegisterModel "models/foo.md3" sample_world in
  let second := sample_RE_RegisterModel "models/foo.md3" first.2 in
  first.1 = 1 /\ second.1 = 1 /\
  w_decodes second.2 = ["models/foo.md3"; "models/foo_1.md3"]%string /\
  w_reads second.2 = ["models/foo.md3"; "models/foo_1.md3"; "models/foo_2.md3"]%string /\
  length (w_decodes second.2) <> 1%nat.
Proof.
  cbv zeta. repeat split; try (vm_compute; reflexivity).
  vm_compute. discriminate.
Qed.

Lemma RE_RegisterModel_missing_everywhere :
  let first := sample_RE_RegisterModel "models/bar.md3" sample_world in
  let second := sample_RE_RegisterModel "models/bar.md3" first.2 in
  first.1 = 0 /\ second.1 = 0 /\
  w_decodes second.2 = [] /\
  w_reads first.2 =
    ["models/bar.mdr"; "models/bar.iqm"; "models/bar.md3"; "models/bar_1.md3";
     "models/bar_2.md3"]%string /\
  w_reads second.2 = w_reads first.2.
Proof.
  cbv zeta. repeat split; vm_compute; reflexivity.
Qed.

(** ** Witnesses *)

Lemma IQM_CheckRange_sound_without_product_overflow_witness :
  range_fits (mk_iqmHeader 1024 0 0 0 0) 16 10 4.
Proof.
  apply IQM_CheckRange_sound_without_product_overflow.
  - unfold in_s32. lia.
  - unfold in_u32. simpl. lia.
  - unfold in_s32. lia.
  - vm_compute. reflexivity.
Defined.

Lemma search_models_Some (l : list model_t) (name_ : string) (h0 h : Z) :
  search_models l name_ h0 = Some h ->
  exists (i : nat) (m : model_t),
    l !! i = Some m /\ name m = name_ /\
    ((type m = MOD_BAD /\ h = 0) \/ (type m <> MOD_BAD /\ h = h0 + Z.of_nat i)).
Proof.
  revert h0. induction l as [|x l IH]; intros h0 H; simpl in H; [discriminate|].
  destruct (String.eqb (name x) name_) eqn:E.
  - apply String.eqb_eq in E. exists 0%nat, x.
    split; [reflexivity|]. split; [exact E|].
    injection H as <-.
    destruct (modtype_eqb (type x) MOD_BAD) eqn:Et.
    + left. split; [apply modtype_eqb_BAD; exact Et | reflexivity].
    + right. split; [|lia]. intros Hb. apply modtype_eqb_BAD in Hb. congruence.
  - destruct (IH _ H) as (i & m & Hi & Hn & Hh).
    exists (S i), m. split; [exact Hi|]. split; [exact Hn|].
    destruct Hh as [Hh | [Hh1 Hh2]]; [left; exact Hh|].
    right. split; [exact Hh1 | lia].
Qed.

Section RegistryUse.

Variable buffer : Type.
Variable FS_ReadFile : string -> option (Z * buffer).
Variable ident_of : buffer -> Z.
Variable md3_of : buffer -> md3Header_t.
Variable R_LoadMDR : model_t -> buffer -> Z -> bool * model_t.
Variable R_LoadIQM : model_t -> buffer -> Z -> bool * model_t.
Variable K : constants.
Variable COM_GetExtension : string -> string.
Variable COM_StripExtension : string -> string.
Variable Q_stricmp : string -> string -> Z.

Hypothesis R_LoadMDR_ok : decoder_ok R_LoadMDR.
Hypothesis R_LoadIQM_ok : decoder_ok R_LoadIQM.

(** The ways a registration can end: an early exit that leaves the world as
    it was (with handle 0, or with the handle the search found), or a new
    record appended under the name and matched with the handle. *)
Lemma RE_RegisterModel_cases (name_ : string) (w : world) :
  let r := RE_RegisterModel buffer FS_ReadFile ident_of md3_of R_LoadMDR R_LoadIQM
             K COM_GetExtension COM_StripExtension Q_stricmp name_ w in
  (r.2 = w /\
   (r.1 = 0 \/ search_models (drop 1 (models (w_tr w))) name_ 1 = Some r.1)) \/
  (numModels (w_tr w) < MAX_MOD_KNOWN K /\
   exists mf,
     models (w_tr r.2) = models (w_tr w) ++ [mf] /\
     name mf = name_ /\ index mf = numModels (w_tr w) /\ handle_matches r.1 mf).
Proof.
  cbn zeta.
  destruct (String.eqb name_ "") eqn:Hne.
  { left. unfold RE_RegisterModel. rewrite Hne. split; [reflexivity | left; reflexivity]. }
  destruct (Z.of_nat (String.length name_) >=? MAX_QPATH K) eqn:Hlen.
  { left. unfold RE_RegisterModel. rewrite Hne, Hlen.
    split; [reflexivity | left; reflexivity]. }
  destruct (search_models (drop 1 (models (w_tr w))) name_ 1) as [h|] eqn:Hsearch.
  { left. unfold RE_RegisterModel. rewrite Hne, Hlen, Hsearch.
    split; [reflexivity | right; reflexivity]. }
  destruct (R_AllocModel K (w_tr w)) as [[m tr']|] eqn:Halloc.
  2:{ left. unfold RE_RegisterModel. rewrite Hne, Hlen, Hsearch, Halloc.
      split; [reflexivity | left; reflexivity]. }
  right. split.
  - unfold R_AllocModel in Halloc.
    destruct (numModels (w_tr w) >=? MAX_MOD_KNOWN K) eqn:E; [discriminate|].
    rewrite Z.geb_leb, Z.leb_gt in E. exact E.
  - exact (RE_RegisterModel_new_entry buffer FS_ReadFile ident_of md3_of R_LoadMDR
             R_LoadIQM K COM_GetExtension COM_StripExtension Q_stricmp
             R_LoadMDR_ok R_LoadIQM_ok name_ w m tr' Hne Hlen Halloc Hsearch).
Qed.

(** X5.  A registration never changes or drops a record that is already in
    the table: it leaves the table as it is, or appends exactly one record,
    under the requested name and with the next free index, and it appends
    only while the table holds fewer than [MAX_MOD_KNOWN] records. *)
Theorem RE_RegisterModel_extends_table (name_ : string) (w : world) :
  let r := RE_RegisterModel buffer FS_ReadFile ident_of md3_of R_LoadMDR R_LoadIQM
             K COM_GetExtension COM_StripExtension Q_stricmp name_ w in
  (w_tr r.2 = w_tr w \/
   (numModels (w_tr w) < MAX_MOD_KNOWN K /\
    exists mf, models (w_tr r.2) = models (w_tr w) ++ [mf] /\
               name mf = name_ /\ index mf = numModels (w_tr w))) /\
  (forall (i : nat) (m : model_t),
     models (w_tr w) !! i = Some m -> models (w_tr r.2) !! i = Some m) /\
  numModels (w_tr r.2) <= Z.max (numModels (w_tr w)) (MAX_MOD_KNOWN K).
Proof.
  cbn zeta.
  destruct (RE_RegisterModel_cases name_ w) as [[Heq _] | (Hroom & mf & Hm & Hn & Hi & _)].
  - rewrite Heq. split; [left; reflexivity|]. split; [auto | lia].
  - split; [right; split; [exact Hroom|]; exists mf; auto|].
    split.
    + intros i m H. rewrite Hm. apply lookup_app_l_Some. exact H.
    + unfold numModels in *. rewrite Hm, length_app. simpl. lia.
Qed.

(** X6.  A handle that a registration returns and that is not 0 resolves,
    through R_GetModelByHandle in the table the registration leaves, to a
    record that carries the requested name, that handle as its index, and a
    type other than [MOD_BAD]. *)
Theorem RE_RegisterModel_then_lookup (name_ : string) (w : world) :
  registry_wf (w_tr w) ->
  let r := RE_RegisterModel buffer FS_ReadFile ident_of md3_of R_LoadMDR R_LoadIQM
             K COM_GetExtension COM_StripExtension Q_stricmp name_ w in
  r.1 <> 0 ->
  exists m, R_GetModelByHandle (w_tr r.2) r.1 = Some m /\
            name m = name_ /\ index m = r.1 /\ type m <> MOD_BAD.
Proof.
  intros [Hn Hidx]. cbn zeta. intros Hnz.
  destruct (RE_RegisterModel_cases name_ w)
    as [[Heq [Hz | Hs]] | (Hroom & mf & Hm & Hnm & Hi & Hh)].
  - contradiction.
  - rewrite Heq.
    apply search_models_Some in Hs as (i & m & Hl & Hname & [[_ Hz] | [Hty Hh]]);
      [contradiction|].
    rewrite lookup_drop in Hl.
    pose proof (lookup_lt_Some _ _ _ Hl) as Hlt.
    exists m. unfold R_GetModelByHandle, numModels. rewrite Hh.
    replace ((1 + Z.of_nat i <? 1) ||
             (1 + Z.of_nat i >=? Z.of_nat (length (models (w_tr w))))) with false.
    + replace (Z.to_nat (1 + Z.of_nat i)) with (1 + i)%nat by lia.
      split; [exact Hl|]. split; [exact Hname|]. split; [|exact Hty].
      rewrite (Hidx _ _ Hl). lia.
    + symmetry. apply orb_false_iff. rewrite Z.ltb_ge, Z.geb_leb, Z.leb_gt. lia.
  - destruct Hh as [[Hz _] | [Hh Hty]]; [contradiction|].
    exists mf. unfold R_GetModelByHandle, numModels in *. rewrite Hh, Hi, Hm.
    replace ((Z.of_nat (length (models (w_tr w))) <? 1) ||
             (Z.of_nat (length (models (w_tr w))) >=?
              Z.of_nat (length (models (w_tr w) ++ [mf])))) with false.
    + rewrite Nat2Z.id.
      split; [|split; [exact Hnm | split; [reflexivity | exact Hty]]].
      rewrite lookup_app_r by lia. rewrite Nat.sub_diag. reflexivity.
    + symmetry. apply orb_false_iff. rewrite Z.ltb_ge, Z.geb_leb, Z.leb_gt.
      rewrite length_app. simpl. lia.
Qed.

End RegistryUse.

(** ** R_LoadMD3: what a load changes and what an accepted file satisfies *)

(** X7.  R_LoadMD3 leaves the model record untouched only when it rejects the
    version or the end offset.  Past these two tests the record is marked
    [MOD_MESH], [dataSize] has grown by the end offset and the header is
    installed for the level of detail, whether the rest of the load succeeds
    or is abandoned. *)
Theorem R_LoadMD3_effects
  (K : constants) (mod_ : model_t) (lod : Z) (pinmodel : md3Header_t) (fileSize : Z) :
  (md3_version pinmodel <> MD3_VERSION K \/ fileSize < u32 (md3_ofsEnd pinmodel) ->
   R_LoadMD3 K mod_ lod pinmodel fileSize = (false, mod_)) /\
  (md3_version pinmodel = MD3_VERSION K /\ u32 (md3_ofsEnd pinmodel) <= fileSize ->
   (R_LoadMD3 K mod_ lod pinmodel fileSize).2 =
     mk_model (name mod_) MOD_MESH (index mod_)
       (s32 (dataSize mod_ + u32 (md3_ofsEnd pinmodel)))
       (modelData mod_) (set_md3 (md3 mod_) lod (Some pinmodel)) (numLods mod_)).
Proof.
  split.
  - intros [Hv | Hs]; unfold R_LoadMD3.
    + replace (md3_version pinmodel =? MD3_VERSION K) with false
        by (symmetry; apply Z.eqb_neq; exact Hv).
      reflexivity.
    + destruct (negb (md3_version pinmodel =? MD3_VERSION K)); [reflexivity|].
      replace (u32 (md3_ofsEnd pinmodel) >? fileSize) with true
        by (symmetry; rewrite Z.gtb_ltb; apply Z.ltb_lt; exact Hs).
      reflexivity.
  - intros [Hv Hs]. unfold R_LoadMD3.
    rewrite Hv, Z.eqb_refl. cbn [negb].
    rewrite (gtb_false _ _ Hs).
    destruct (header_rejected K pinmodel _ fileSize); reflexivity.
Qed.

Lemma R_LoadMD3_effects_witness :
  R_LoadMD3 quake3_constants (fresh_model 1) 0 (sample_md3_file 1000) 100 =
    (false, fresh_model 1) /\
  type (R_LoadMD3 quake3_constants (fresh_model 1) 0 (sample_md3_file 1000) 16384).2 =
    MOD_MESH.
Proof.
  destruct (R_LoadMD3_effects quake3_constants (fresh_model 1) 0 (sample_md3_file 1000) 100)
    as [Hkeep _].
  destruct (R_LoadMD3_effects quake3_constants (fresh_model 1) 0 (sample_md3_file 1000) 16384)
    as [_ Hset].
  split.
  - apply Hkeep. right. vm_compute. reflexivity.
  - rewrite Hset; [reflexivity|]. split; [reflexivity | vm_compute; discriminate].
Defined.



(** X9.  For a file of at least one byte the first surface test never
    rejects: it compares the truth value of its disjunction, 0 or 1, with
    the file size.  Whether a surface is rejected therefore depends neither
    on its end offset nor on where the surface lies. *)
Theorem surface_rejected_ignores_ofsEnd
  (K : constants) (fileSize surf_off surf_off' : Z) (surf : md3Surface_t) (ofsEnd : Z) :
  1 <= fileSize ->
  surface_rejected K fileSize surf_off' (with_ofsEnd surf ofsEnd) =
  surface_rejected K fileSize surf_off surf.
Proof.
  intros Hfs. unfold surface_rejected, with_ofsEnd. cbn [surf_numFrames surf_numShaders
    surf_numVerts surf_numTriangles surf_ofsTriangles surf_ofsShaders surf_ofsSt
    surf_ofsXyzNormals surf_ofsEnd].
  assert (H1 : forall b : bool, ((if b then 1 else 0) >? fileSize) = false).
  { intros b. apply gtb_false. destruct b; lia. }
  rewrite !H1. reflexivity.
Qed.

Lemma surface_rejected_ignores_ofsEnd_witness :
  surface_rejected quake3_constants 16384 164 (with_ofsEnd (sample_md3_surface 10) 1000000)
  = false.
Proof.
  rewrite (surface_rejected_ignores_ofsEnd quake3_constants 16384 164 164
             (sample_md3_surface 10) 1000000) by lia.
  vm_compute. reflexivity.
Defined.

(** ** Tag lookup: what is returned when nothing is read out of range *)

Lemma R_GetTag_loop_find (tags : list md3Tag_t) (tagName : string) (n : nat) (i : Z) :
  0 <= i -> i + Z.of_nat n <= Z.of_nat (length tags) ->
  R_GetTag_loop (rd tags) tagName n i =
  Some (first_tag_named tagName (take n (drop (Z.to_nat i) tags))).
Proof.
  revert i. induction n as [|n IH]; intros i Hi Hn; [reflexivity|].
  destruct (drop (Z.to_nat i) tags) as [|x rest] eqn:Ed.
  { apply (f_equal length) in Ed. rewrite length_drop in Ed. simpl in Ed. lia. }
  destruct (rd_drop_head tags i x rest Hi Ed) as [Hrd Hrest].
  cbn [R_GetTag_loop]. rewrite Hrd. cbn [mbind option_bind].
  unfold first_tag_named. cbn [take List.find].
  destruct (String.eqb (tag_name x) tagName); [reflexivity|].
  rewrite IH by lia. rewrite Hrest. reflexivity.
Qed.

(** For an MD3 header with at least one frame whose tag table holds
    [numFrames * numTags] tags, and a frame that is not negative, R_GetTag
    reads inside the tag table and returns the first tag of the requested
    name in the block of that frame, the frame being replaced by the last
    one when it is too large; it returns no tag when the block has none of
    that name. *)
Lemma R_GetTag_first_in_block (mem : memory_t) (header : md3Header_t) (frame : Z)
  (tagName : string) :
  tag_table_complete header ->
  0 <= frame ->
  R_GetTag mem header frame tagName =
  Some (first_tag_named tagName (tag_block header frame)).
Proof.
  intros (Hf & Ht & Hlen) Hframe. unfold R_GetTag, tag_block, clamped_frame.
  assert (Hlo : 0 <= (if frame >=? md3_numFrames header
                      then md3_numFrames header - 1 else frame) * md3_numTags header).
  { destruct (frame >=? md3_numFrames header); nia. }
  assert (Hhi : (if frame >=? md3_numFrames header
                 then md3_numFrames header - 1 else frame) * md3_numTags header +
                Z.of_nat (Z.to_nat (md3_numTags header)) <=
                Z.of_nat (length (md3_tags header))).
  { rewrite Hlen, Z2Nat.id by lia.
    destruct (frame >=? md3_numFrames header) eqn:E.
    - nia.
    - rewrite Z.geb_leb, Z.leb_gt in E. nia. }
  rewrite R_GetTag_loop_in_table by assumption.
  apply R_GetTag_loop_find; assumption.
Qed.

(** X10.  For a record whose MD3 header at level 0 has at least one frame,
    a tag count that is not negative and a tag table of exactly
    [numFrames * numTags] tags, and for start and end frames that are not
    negative, R_LerpTag never reads outside the tag table; it succeeds
    exactly when the name occurs in the tag blocks of both frames (each
    frame replaced by the last one when it is not below [numFrames]), then
    blending the first tags of that name, and otherwise leaves the cleared
    orientation and reports failure. *)
Theorem R_LerpTag_mesh
  (K : constants) (acosf sinf : float -> float) (mem : memory_t) (tr : trGlobals_t)
  (handle : Z)
  (model : model_t) (header : md3Header_t) (startFrame endFrame : Z) (frac : float)
  (tagName : string) (jointMats : list float) :
  R_GetModelByHandle tr handle = Some model ->
  md3 model 0 = Some header ->
  tag_table_complete header ->
  0 <= startFrame -> 0 <= endFrame ->
  R_LerpTag K acosf sinf mem tr handle startFrame endFrame frac tagName jointMats =
  Some (match first_tag_named tagName (tag_block header startFrame),
              first_tag_named tagName (tag_block header endFrame) with
        | Some start, Some end_ => (lerp_tags start end_ frac, true)
        | _, _ => (cleared_orientation, false)
        end).
Proof.
  intros Hm Hmd3 Hwf Hs He. unfold R_LerpTag. rewrite Hm. cbn [mbind option_bind].
  rewrite Hmd3.
  rewrite !R_GetTag_first_in_block by assumption. cbn [mbind option_bind].
  destruct (first_tag_named tagName (tag_block header startFrame));
    destruct (first_tag_named tagName (tag_block header endFrame)); reflexivity.
Qed.

Lemma R_LerpTag_mesh_witness :
  tag_table_complete sample_md3 /\
  R_LerpTag quake3_constants id id sample_memory sample_tr 1 0 5 lit_0_5 "tag_weapon" [] =
  Some (lerp_tags (tag_of_bone "tag_weapon" identityMatrix)
          (tag_of_bone "tag_weapon" identityMatrix) lit_0_5, true).
Proof.
  assert (Hwf : tag_table_complete sample_md3)
    by (unfold tag_table_complete; simpl; lia).
  split; [exact Hwf|].
  rewrite (R_LerpTag_mesh quake3_constants id id sample_memory sample_tr 1
             (mk_model "models/a.md3" MOD_MESH 1 276 data_none
                (fun lod => if lod =? 0 then Some sample_md3 else None) 1)
             sample_md3 0 5 lit_0_5 "tag_weapon" []);
    [reflexivity | reflexivity | reflexivity | exact Hwf | lia | lia].
Defined.

Lemma R_GetAnimTag_returns (mdr : mdrHeader_t) (framenum : Z) (tagName : string) :
  mdr_wf mdr -> 0 <= framenum ->
  exists r, R_GetAnimTag mdr framenum tagName = Some r /\
            (is_Some r <-> tagName ∈ mdr_tag_name <$> mdr_tags mdr).
Proof.
  intros (Hf & Hfl & Htl & Hbones & Hidx) Hframe.
  destruct (decide (tagName ∈ mdr_tag_name <$> mdr_tags mdr)) as [Hin | Hout].
  - destruct (mdr_tags_split_first _ _ Hin) as (pre & t & post & Hs & Ht & Hpre).
    destruct (rd_in_range (mdr_frames mdr) (clamped_frame (mdr_numFrames mdr) framenum))
      as [frame Hfr].
    { unfold clamped_frame. destruct (framenum >=? mdr_numFrames mdr) eqn:E; [lia|].
      rewrite Z.geb_leb, Z.leb_gt in E. lia. }
    destruct (rd_in_range (mdr_bones frame) (mdr_boneIndex t)) as [bone Hb].
    { rewrite (Hbones frame (rd_Some_elem_of _ _ _ Hfr)).
      apply Hidx. rewrite Hs. apply elem_of_app. right. left. }
    exists (Some (tag_of_bone tagName bone)). split.
    + apply (R_GetAnimTag_found mdr framenum tagName pre t post frame bone);
        try assumption.
      rewrite <- Htl, Hs, length_app. simpl. lia.
    + split; [intros _; exact Hin | intros _; eexists; reflexivity].
  - exists None. split.
    + apply R_GetAnimTag_absent; [exact Htl|].
      intros t Ht Hn. apply Hout. rewrite <- Hn.
      apply list_elem_of_fmap_2. exact Ht.
    + split; [intros [x Hx]; discriminate | intros H; contradiction].
Qed.

(** X11.  For a record of type [MOD_MDR] without an MD3 header at level 0,
    whose MDR holds [numFrames >= 1] frames of [numBones] bones each and
    [numTags] tags that name existing bones, and for start and end frames
    that are not negative, R_LerpTag never reads outside the frames or the
    bones of a frame; it succeeds exactly when the tag table has the name,
    and otherwise leaves the cleared orientation and reports failure. *)
Theorem R_LerpTag_MDR_returns
  (K : constants) (acosf sinf : float -> float) (mem : memory_t) (tr : trGlobals_t)
  (handle : Z)
  (model : model_t) (mdr : mdrHeader_t) (startFrame endFrame : Z) (frac : float)
  (tagName : string) (jointMats : list float) :
  R_GetModelByHandle tr handle = Some model ->
  md3 model 0 = None -> type model = MOD_MDR -> modelData model = data_mdr mdr ->
  mdr_wf mdr ->
  0 <= startFrame -> 0 <= endFrame ->
  exists o b,
    R_LerpTag K acosf sinf mem tr handle startFrame endFrame frac tagName jointMats
      = Some (o, b) /\
    (b = true <-> tagName ∈ mdr_tag_name <$> mdr_tags mdr) /\
    (b = false -> o = cleared_orientation).
Proof.
  intros Hm Hmd3 Hty Hdata Hwf Hs He.
  unfold R_LerpTag. rewrite Hm. cbn [mbind option_bind].
  rewrite Hmd3, Hty, Hdata.
  destruct (R_GetAnimTag_returns mdr startFrame tagName Hwf Hs) as (rs & Hrs & His).
  destruct (R_GetAnimTag_returns mdr endFrame tagName Hwf He) as (re & Hre & Hie).
  rewrite Hrs. cbn [mbind option_bind]. rewrite Hre. cbn [mbind option_bind].
  destruct rs as [ts|], re as [te|].
  - eexists _, true. split; [reflexivity|]. split; [|discriminate].
    split; [intros _; apply His; eexists; reflexivity | reflexivity].
  - eexists _, false. split; [reflexivity|]. split; [|reflexivity].
    split; [discriminate|]. intros H. apply Hie in H as [x Hx]. discriminate.
  - eexists _, false. split; [reflexivity|]. split; [|reflexivity].
    split; [discriminate|]. intros H. apply His in H as [x Hx]. discriminate.
  - eexists _, false. split; [reflexivity|]. split; [|reflexivity].
    split; [discriminate|]. intros H. apply His in H as [x Hx]. discriminate.
Qed.

Lemma R_LerpTag_MDR_returns_witness :
  exists o b,
    R_LerpTag quake3_constants id id sample_memory sample_tr 2 0 9 lit_0_5 "tag_flash" [] =
      Some (o, b) /\
    (b = true <-> "tag_flash"%string ∈ mdr_tag_name <$> mdr_tags sample_mdr) /\
    (b = false -> o = cleared_orientation).
Proof.
  apply (R_LerpTag_MDR_returns quake3_constants id id sample_memory sample_tr 2
           (mk_model "models/b.mdr" MOD_MDR 2 512 (data_mdr sample_mdr) (fun _ => None) 1)
           sample_mdr 0 9 lit_0_5 "tag_flash" []);
    [reflexivity | reflexivity | reflexivity | reflexivity | exact sample_mdr_wf | lia | lia].
Defined.

(** X12.  In a table whose slot 0 still holds the default record R_ModelInit
    put there, a tag lookup through a handle below 1 or not below the number
    of models reads no model data: it leaves the cleared orientation and
    reports failure, whatever the frames and the tag name. *)
Theorem R_LerpTag_bad_handle
  (K : constants) (acosf sinf : float -> float) (mem : memory_t) (tr : trGlobals_t)
  (handle : Z)
  (startFrame endFrame : Z) (frac : float) (tagName : string) (jointMats : list float) :
  models tr !! 0%nat = Some (fresh_model 0) ->
  handle < 1 \/ numModels tr <= handle ->
  R_LerpTag K acosf sinf mem tr handle startFrame endFrame frac tagName jointMats =
  Some (cleared_orientation, false).
Proof.
  intros H0 Hh. unfold R_LerpTag, R_GetModelByHandle.
  replace ((handle <? 1) || (handle >=? numModels tr)) with true.
  - rewrite H0. reflexivity.
  - symmetry. apply orb_true_iff. rewrite Z.ltb_lt, Z.geb_leb, Z.leb_le. lia.
Qed.

Lemma R_LerpTag_bad_handle_witness :
  R_LerpTag quake3_constants id id sample_memory sample_tr 17 (-3) 40 lit_0_5
    "tag_weapon" [] =
  Some (cleared_orientation, false).
Proof.
  apply R_LerpTag_bad_handle; [reflexivity | right; vm_compute; discriminate].
Defined.

(** ** R_RegisterMD3: the levels of detail *)

Lemma R_LoadMD3_lods (K : constants) (m : model_t) (lod : Z) (pinmodel : md3Header_t)
  (fileSize : Z) :
  numLods (R_LoadMD3 K m lod pinmodel fileSize).2 = numLods m /\
  forall l, l <> lod -> md3 (R_LoadMD3 K m lod pinmodel fileSize).2 l = md3 m l.
Proof.
  unfold R_LoadMD3.
  destruct (negb (md3_version pinmodel =? MD3_VERSION K)); [split; reflexivity|].
  destruct (u32 (md3_ofsEnd pinmodel) >? fileSize); [split; reflexivity|].
  assert (H : forall l, l <> lod -> set_md3 (md3 m) lod (Some pinmodel) l = md3 m l).
  { intros l Hl. unfold set_md3.
    replace (l =? lod) with false by (symmetry; apply Z.eqb_neq; exact Hl).
    reflexivity. }
  destruct (header_rejected K pinmodel _ fileSize); cbn [snd numLods md3];
    split; auto.
Qed.

Lemma duplicate_lods_lods (n : nat) (m : model_t) :
  - 2 ^ 31 <= numLods m -> numLods m + Z.of_nat n < 2 ^ 31 ->
  numLods (duplicate_lods n m) = numLods m + Z.of_nat n /\
  forall l, l < 0 \/ Z.of_nat n <= l -> md3 (duplicate_lods n m) l = md3 m l.
Proof.
  revert m. induction n as [|n IH]; intros m Hlo Hhi.
  - simpl. split; [lia | reflexivity].
  - cbn [duplicate_lods]. cbn zeta.
    set (m' := mk_model _ _ _ _ _ _ _).
    assert (Hn' : numLods m' = numLods m + 1).
    { unfold m'. cbn [numLods add_lod]. apply s32_id. unfold in_s32. lia. }
    destruct (IH m') as [IH1 IH2]; [lia | lia |].
    split; [lia|].
    intros l Hl. rewrite IH2 by lia.
    unfold m'. cbn [md3 add_lod]. unfold set_md3.
    replace (l =? Z.of_nat n) with false by (symmetry; apply Z.eqb_neq; lia).
    reflexivity.
Qed.

Section RegisterMD3Facts.

Variable buffer : Type.
Variable FS_ReadFile : string -> option (Z * buffer).
Variable ident_of : buffer -> Z.
Variable md3_of : buffer -> md3Header_t.
Variable K : constants.

(** The loop counts every level it loads into [numLods], leaves the loop at
    a level [lod] with at most [n - 1 - lod] levels loaded, and writes
    [md3] only at the levels it runs through. *)
Lemma R_RegisterMD3_loop_lods (filename fext : string) (n : nat) (st : md3_loop_state) :
  - 2 ^ 31 <= numLods (ls_mod st) ->
  numLods (ls_mod st) + Z.of_nat n < 2 ^ 31 ->
  let r := R_RegisterMD3_loop buffer FS_ReadFile ident_of md3_of K
             filename fext n st in
  -1 <= r.1 /\
  0 <= ls_numLoaded r.2 - ls_numLoaded st /\
  r.1 + 1 + (ls_numLoaded r.2 - ls_numLoaded st) <= Z.of_nat n /\
  numLods (ls_mod r.2) = numLods (ls_mod st) + (ls_numLoaded r.2 - ls_numLoaded st) /\
  (forall l, l < 0 \/ Z.of_nat n <= l -> md3 (ls_mod r.2) l = md3 (ls_mod st) l).
Proof.
  revert st. induction n as [|n IH]; intros st Hlo Hhi; cbn zeta.
  - simpl. repeat split; try lia. 
  - cbn [R_RegisterMD3_loop]. cbn zeta.
    set (namebuf := truncate_to _ _).
    destruct (FS_ReadFile namebuf) as [[fileSize buf]|].
    2:{ destruct (IH (mk_md3_loop (ls_mod st) (ls_loaded st) (ls_numLoaded st)
                        (log_read namebuf (ls_world st))))
          as (I1 & I2 & I3 & I4 & I5); [exact Hlo | cbn [ls_mod]; lia |].
        cbn [ls_mod ls_numLoaded] in *.
        repeat split; try lia. intros l Hl. apply I5. lia. }
    destruct (fileSize <? sizeof_md3Header_t K).
    { cbn [fst snd ls_mod ls_numLoaded]. repeat split; try lia. }
    set (step := if ident_of buf =? MD3_IDENT K then _ else _).
    assert (Hstep : numLods step.1.2 = numLods (ls_mod st) /\
                    forall l, l <> Z.of_nat n -> md3 step.1.2 l = md3 (ls_mod st) l).
    { unfold step. destruct (ident_of buf =? MD3_IDENT K).
      - pose proof (R_LoadMD3_lods K (ls_mod st) (Z.of_nat n) (md3_of buf) fileSize)
          as Hl.
        destruct (R_LoadMD3 K (ls_mod st) (Z.of_nat n) (md3_of buf) fileSize)
          as [loaded m']. exact Hl.
      - split; reflexivity. }
    destruct step as [[loaded m'] w']. cbn [fst snd] in Hstep.
    destruct Hstep as [Hnl Hmd].
    destruct loaded.
    + destruct (IH (mk_md3_loop (add_lod m') true (ls_numLoaded st + 1) w'))
        as (I1 & I2 & I3 & I4 & I5).
      { cbn [ls_mod add_lod numLods]. rewrite s32_id by (unfold in_s32; lia). lia. }
      { cbn [ls_mod add_lod numLods]. rewrite s32_id by (unfold in_s32; lia). lia. }
      cbn [ls_mod ls_numLoaded add_lod numLods md3] in *.
      rewrite s32_id in I4 by (unfold in_s32; lia).
      repeat split; try lia.
      intros l Hl. rewrite I5 by lia. apply Hmd. lia.
    + cbn [fst snd ls_mod ls_numLoaded]. repeat split; try lia.
      intros l Hl. apply Hmd. lia.
Qed.

(** X13.  R_RegisterMD3 never counts more levels of detail than [md3] has
    room for: [numLods] grows by at most [MD3_MAX_LODS], by at least one
    when a handle other than 0 is returned and not at all when 0 is
    returned for a record whose index is not 0; and no entry of [md3]
    outside the levels 0 to [MD3_MAX_LODS - 1] is written. *)
Theorem R_RegisterMD3_lods (name_ : string) (m : model_t) (w : world) :
  0 <= numLods m -> 0 <= MD3_MAX_LODS K -> numLods m + MD3_MAX_LODS K < 2 ^ 31 ->
  let r := R_RegisterMD3 buffer FS_ReadFile ident_of md3_of K name_ m w in
  numLods m <= numLods r.1.2 <= numLods m + MD3_MAX_LODS K /\
  (r.1.1 <> 0 -> numLods m + 1 <= numLods r.1.2) /\
  (index m <> 0 -> r.1.1 = 0 -> numLods r.1.2 = numLods m) /\
  (forall l, l < 0 \/ MD3_MAX_LODS K <= l -> md3 r.1.2 l = md3 m l).
Proof.
  intros Hlo Hmax Hhi. cbn zeta. unfold R_RegisterMD3.
  destruct (match split_at_first_dot name_ with
            | Some (filename, fext) => (filename, fext)
            | None => (name_, "md3"%string)
            end) as [filename fext].
  pose proof (R_RegisterMD3_loop_lods filename fext (Z.to_nat (MD3_MAX_LODS K))
                (mk_md3_loop m false 0 w)) as Hinv.
  cbn zeta in Hinv. cbn [ls_mod ls_numLoaded] in Hinv.
  rewrite Z2Nat.id in Hinv by exact Hmax.
  destruct Hinv as (I1 & I2 & I3 & I4 & I5); [lia | lia |].
  destruct (R_RegisterMD3_loop _ _ _ _ _ _ _ _ _) as [lod st] eqn:Eloop.
  cbn [fst snd] in *.
  destruct (ls_numLoaded st =? 0) eqn:E; cbn [negb fst snd].
  - apply Z.eqb_eq in E. cbn [set_type numLods md3].
    repeat split; try lia. exact I5.
  - apply Z.eqb_neq in E.
    destruct (duplicate_lods_lods (Z.to_nat lod) (ls_mod st)) as [D1 D2]; [lia | lia |].
    repeat split; try lia.
    + intros Hidx Hz. exfalso.
      destruct (duplicate_lods_effect (Z.to_nat lod) (ls_mod st)) as (_ & Hi & _).
      destruct (R_RegisterMD3_loop_inv buffer FS_ReadFile ident_of md3_of K filename fext
                  (Z.to_nat (MD3_MAX_LODS K)) (mk_md3_loop m false 0 w))
        as (_ & Hi2 & _); [intros [H | H]; [discriminate | contradiction] | simpl; lia |].
      rewrite Eloop in Hi2. cbn [fst snd ls_mod] in Hi2. congruence.
    + intros l Hl. rewrite D2 by lia. apply I5. exact Hl.
Qed.

End RegisterMD3Facts.

Lemma R_RegisterMD3_lods_witness :
  let r := R_RegisterMD3 sample_file sample_FS_ReadFile sample_ident_of sample_md3_of
             quake3_constants "models/foo.md3" (fresh_model 1) sample_world in
  numLods (fresh_model 1) <= numLods r.1.2
    <= numLods (fresh_model 1) + MD3_MAX_LODS quake3_constants /\
  (r.1.1 <> 0 -> numLods (fresh_model 1) + 1 <= numLods r.1.2) /\
  (index (fresh_model 1) <> 0 -> r.1.1 = 0 -> numLods r.1.2 = numLods (fresh_model 1)) /\
  (forall l, l < 0 \/ MD3_MAX_LODS quake3_constants <= l ->
     md3 r.1.2 l = md3 (fresh_model 1) l).
Proof.
  apply (R_RegisterMD3_lods sample_file sample_FS_ReadFile sample_ident_of
           sample_md3_of quake3_constants "models/foo.md3" (fresh_model 1)
           sample_world); simpl; lia.
Defined.

(** ** The skeletal evaluator stays inside its arrays *)

Lemma for_loop_inv {S : Type} (P : S -> Prop) (body : Z -> S -> option S)
  (n : nat) (i : Z) (s : S) :
  P s ->
  (forall (k : Z) (s0 : S), i <= k < i + Z.of_nat n -> P s0 ->
     exists s1, body k s0 = Some s1 /\ P s1) ->
  exists s', for_loop n i body s = Some s' /\ P s'.
Proof.
  revert i s. induction n as [|n IH]; intros i s Hs Hbody.
  - exists s. split; [reflexivity | exact Hs].
  - destruct (Hbody i s) as (s1 & Hb & Hs1); [lia | exact Hs |].
    cbn [for_loop]. rewrite Hb. cbn [mbind option_bind].
    apply IH; [exact Hs1|]. intros k s0 Hk. apply Hbody. lia.
Qed.

Lemma slice12_Some (l : list float) (off : Z) :
  0 <= off -> off + 12 <= Z.of_nat (length l) ->
  exists m, slice12 l off = Some m.
Proof.
  intros H0 H1. unfold slice12.
  replace (0 <=? off) with true by (symmetry; apply Z.leb_le; lia).
  replace (off + 12 <=? Z.of_nat (length l)) with true by (symmetry; apply Z.leb_le; lia).
  eexists; reflexivity.
Qed.

Lemma store12_Some (l : list float) (off : Z) (m : list float) :
  0 <= off -> off + 12 <= Z.of_nat (length l) -> length m = 12%nat ->
  exists l', store12 l off m = Some l' /\ length l' = length l.
Proof.
  intros H0 H1 Hm. unfold store12.
  replace (0 <=? off) with true by (symmetry; apply Z.leb_le; lia).
  replace (off + 12 <=? Z.of_nat (length l)) with true by (symmetry; apply Z.leb_le; lia).
  eexists; split; [reflexivity|].
  rewrite !length_app, !length_take, length_drop. lia.
Qed.

Lemma slice12_app_l (a b : list float) (off : Z) :
  0 <= off -> off + 12 <= Z.of_nat (length a) ->
  slice12 (a ++ b) off = Some (take 12 (drop (Z.to_nat off) a)).
Proof.
  intros H0 H1. unfold slice12.
  replace (0 <=? off) with true by (symmetry; apply Z.leb_le; lia).
  replace (off + 12 <=? Z.of_nat (length (a ++ b))) with true
    by (symmetry; apply Z.leb_le; rewrite length_app; lia).
  cbn [andb]. f_equal.
  rewrite drop_app_le by lia.
  apply take_app_le. rewrite length_drop. lia.
Qed.

Section EvaluatorBounds.

Variable K : constants.
Variable acosf : float -> float.
Variable sinf : float -> float.

Lemma relativeJoint_Some (data : iqmData_t) (frame oldframe : Z) (backlerp : float)
  (i : Z) :
  iqm_wf K data ->
  0 <= frame < num_frames data -> 0 <= oldframe < num_frames data ->
  0 <= i < num_poses data ->
  is_Some (relativeJoint acosf sinf data frame oldframe backlerp i).
Proof.
  intros (Hj & Hp & Hf & Hov & Hposes & _) Hfr Hof Hi.
  assert (Hrd : forall f, 0 <= f < num_frames data ->
            exists x, rd (poses data) (s32 (f * num_poses data) + i) = Some x).
  { intros f Hf'.
    assert (0 <= f * num_poses data) by nia.
    assert (f * num_poses data + num_poses data <= num_frames data * num_poses data)
      by nia.
    rewrite s32_id by (unfold in_s32; lia).
    apply rd_in_range. lia. }
  unfold relativeJoint.
  destruct (Hrd frame Hfr) as [pose Hpose]. destruct (Hrd oldframe Hof) as [opose Hopose].
  destruct (oldframe =? frame).
  - rewrite Hpose. eexists; reflexivity.
  - rewrite Hpose. cbn [mbind option_bind]. rewrite Hopose. cbn [mbind option_bind].
    eexists; reflexivity.
Qed.

Lemma relativeJoints_Some (data : iqmData_t) (frame oldframe : Z) (backlerp : float) :
  iqm_wf K data ->
  0 <= frame < num_frames data -> 0 <= oldframe < num_frames data ->
  exists rels,
    relativeJoints K acosf sinf data frame oldframe backlerp = Some rels /\
    Z.of_nat (length rels) = Z.max 0 (num_poses data).
Proof.
  intros Hwf Hfr Hof. unfold relativeJoints.
  assert (Hle : num_poses data <= IQM_MAX_JOINTS K).
  { destruct Hwf as (Hj & [Hp | Hp] & _); lia. }
  rewrite (gtb_false _ _ Hle).
  destruct (mapM (fun i : nat => relativeJoint acosf sinf data frame oldframe backlerp
                                  (Z.of_nat i))
              (seq 0 (Z.to_nat (num_poses data)))) as [rels|] eqn:E.
  - exists rels. split; [reflexivity|].
    apply length_mapM in E. rewrite length_seq in E. lia.
  - exfalso. apply mapM_None in E. apply Exists_exists in E as (i & Hi & Hnone).
    apply elem_of_seq in Hi.
    destruct (relativeJoint_Some data frame oldframe backlerp (Z.of_nat i) Hwf Hfr Hof)
      as [x Hx]; [lia|]. congruence.
Qed.

Lemma poseMat_step_Some (data : iqmData_t) (rels : list iqmTransform_t)
  (i : Z) (poseMats : list float) :
  iqm_wf K data ->
  num_poses data = num_joints data ->
  Z.of_nat (length rels) = num_poses data ->
  0 <= i < num_poses data ->
  12 * num_joints data <= Z.of_nat (length poseMats) ->
  exists out, poseMat_step data rels i poseMats = Some out /\
              length out = length poseMats.
Proof.
  intros (Hj & _ & _ & _ & _ & Hpl & Hpar & Hb & Hib & _) Hnp Hrl Hi Hlen.
  unfold poseMat_step.
  destruct (rd_in_range rels i) as [rel Hrel]; [lia|].
  destruct (rd_in_range (jointParents data) i) as [p Hp]; [lia|].
  destruct (slice12_Some (invBindJoints data) (12 * i)) as [ib Hibs]; [lia | lia |].
  rewrite Hrel. cbn [mbind option_bind]. rewrite Hp. cbn [mbind option_bind].
  rewrite Hibs. cbn [mbind option_bind].
  pose proof (Hpar p (rd_Some_elem_of _ _ _ Hp)) as Hpr.
  destruct (p >=? 0) eqn:Ep.
  - rewrite Z.geb_leb, Z.leb_le in Ep.
    destruct (slice12_Some (bindJoints data) (p * 12)) as [bp Hbp]; [lia | lia |].
    rewrite Hbp. cbn [mbind option_bind].
    replace (p * 12 + 12 <=? Z.of_nat (length poseMats)) with true
      by (symmetry; apply Z.leb_le; lia).
    replace (12 * i + 12 <=? Z.of_nat (length poseMats)) with true
      by (symmetry; apply Z.leb_le; lia).
    cbn [andb]. eexists. split; [reflexivity|].
    apply Matrix34Multiply_inplace_length.
  - apply store12_Some; [lia | lia | reflexivity].
Qed.

Lemma jointMat_step_Some (data : iqmData_t) (i : Z) (mat : list float) :
  iqm_wf K data ->
  0 <= i < num_joints data ->
  12 * num_joints data <= Z.of_nat (length mat) ->
  exists out, jointMat_step data i mat = Some out /\ length out = length mat.
Proof.
  intros (Hj & _ & _ & _ & _ & _ & _ & Hb & _) Hi Hlen.
  unfold jointMat_step.
  destruct (slice12_Some mat (12 * i)) as [om Hom]; [lia | lia |].
  destruct (slice12_Some (bindJoints data) (12 * i)) as [bm Hbm]; [lia | lia |].
  rewrite Hom. cbn [mbind option_bind]. rewrite Hbm. cbn [mbind option_bind].
  apply store12_Some; [lia | lia | reflexivity].
Qed.

Lemma ComputeJointMats_in_bounds (data : iqmData_t) (frame oldframe : Z)
  (backlerp : float) (mat : list float) :
  iqm_wf K data ->
  (num_poses data <> 0 ->
   0 <= frame < num_frames data /\ 0 <= oldframe < num_frames data) ->
  12 * num_joints data <= Z.of_nat (length mat) ->
  exists out,
    ComputeJointMats K acosf sinf data frame oldframe backlerp mat = Some out /\
    length out = length mat.
Proof.
  intros Hwf Hfr Hlen. unfold ComputeJointMats.
  pose proof Hwf as (Hj & Hp & Hf & Hov & Hposes & Hpl & Hpar & Hb & Hib & Hn).
  destruct (num_poses data =? 0) eqn:E0.
  - rewrite Com_Memcpy_Some by lia.
    eexists. split; [reflexivity|].
    rewrite length_app, length_drop. lia.
  - apply Z.eqb_neq in E0. destruct Hp as [Hp | Hp]; [contradiction|].
    destruct (Hfr E0) as [Hfr1 Hfr2].
    unfold ComputePoseMats.
    destruct (relativeJoints_Some data frame oldframe backlerp Hwf Hfr1 Hfr2)
      as (rels & Hrels & Hrl).
    rewrite Hrels. cbn [mbind option_bind].
    destruct (for_loop_inv (fun s => length s = length mat) (poseMat_step data rels)
                (Z.to_nat (num_poses data)) 0 mat eq_refl) as (pm & Hpm & Hpl').
    { intros k s0 Hk Hs0.
      destruct (poseMat_step_Some data rels k s0 Hwf Hp) as (out & Ho & Hol);
        [lia | lia | lia |].
      exists out. split; [exact Ho | lia]. }
    rewrite Hpm. cbn [mbind option_bind].
    destruct (for_loop_inv (fun s => length s = length mat) (jointMat_step data)
                (Z.to_nat (num_joints data)) 0 pm Hpl') as (jm & Hjm & Hjl).
    { intros k s0 Hk Hs0.
      destruct (jointMat_step_Some data k s0 Hwf) as (out & Ho & Hol); [lia | lia |].
      exists out. split; [exact Ho | lia]. }
    exists jm. split; [exact Hjm | exact Hjl].
Qed.

(** The name loop stops at the first joint of the wanted name, or runs
    through all the names. *)
Lemma find_joint_first (names : list string) (tagName : string) (joint : Z) :
  exists k : nat,
    find_joint (length names) names tagName joint = Some (joint + Z.of_nat k) /\
    (k <= length names)%nat /\
    ((k < length names)%nat <-> tagName ∈ names) /\
    ((k < length names)%nat -> names !! k = Some tagName) /\
    (forall i : nat, (i < k)%nat -> names !! i <> Some tagName).
Proof.
  revert joint. induction names as [|nm rest IH]; intros joint.
  - exists 0%nat. simpl. split; [f_equal; lia|]. split; [lia|].
    split; [split; [lia | intros H; inversion H]|]. split; [lia|]. intros i Hi. lia.
  - cbn [find_joint length]. destruct (String.eqb tagName nm) eqn:E.
    + apply String.eqb_eq in E. subst nm. exists 0%nat.
      split; [f_equal; lia|]. split; [lia|].
      split; [split; [intros _; left | lia]|].
      split; [reflexivity|]. intros i Hi. lia.
    + apply String.eqb_neq in E.
      destruct (IH (joint + 1)) as (k & Hk & Hle & Hin & Hat & Hbefore).
      exists (S k). split; [rewrite Hk; f_equal; lia|]. split; [lia|].
      split.
      { split.
        - intros H. right. apply Hin. lia.
        - intros H. apply elem_of_cons in H as [H | H]; [congruence|].
          apply Hin in H. lia. }
      split; [intros H; apply Hat; lia|].
      intros i Hi. destruct i as [|i]; simpl.
      * intros H. injection H as H. congruence.
      * apply Hbefore. lia.
Qed.

(** X14.  For the data of an accepted IQM file, frames inside the frame range
    and a matrix buffer with room for every joint, ComputeJointMats reads
    and writes inside its arrays only, and returns the buffer with its
    length unchanged. *)
Theorem ComputeJointMats_returns (data : iqmData_t) (frame oldframe : Z)
  (backlerp : float) (mat : list float) :
  iqm_wf K data ->
  (num_poses data <> 0 ->
   0 <= frame < num_frames data /\ 0 <= oldframe < num_frames data) ->
  12 * num_joints data <= Z.of_nat (length mat) ->
  exists out,
    ComputeJointMats K acosf sinf data frame oldframe backlerp mat = Some out /\
    length out = length mat.
Proof. apply ComputeJointMats_in_bounds. Qed.

(** X15.  For the data of an accepted IQM file, start and end frames inside
    the frame range and the stack buffer of [IQM_MAX_JOINTS] matrices,
    R_IQMLerpTag never reads or writes outside an array; it succeeds exactly
    when a joint carries the name, and otherwise leaves the cleared
    orientation and reports failure. *)
Theorem R_IQMLerpTag_returns (data : iqmData_t) (startFrame endFrame : Z)
  (frac : float) (tagName : string) (jointMats : list float) :
  iqm_wf K data ->
  (num_poses data <> 0 ->
   0 <= startFrame < num_frames data /\ 0 <= endFrame < num_frames data) ->
  Z.of_nat (length jointMats) = IQM_MAX_JOINTS K * 12 ->
  exists o b,
    R_IQMLerpTag K acosf sinf data startFrame endFrame frac tagName jointMats
      = Some (o, b) /\
    (b = true <-> tagName ∈ jointNames data) /\
    (b = false -> o = cleared_orientation).
Proof.
  intros Hwf Hfr Hlen. unfold R_IQMLerpTag.
  pose proof Hwf as (Hj & _ & _ & _ & _ & _ & _ & _ & _ & Hn).
  destruct (find_joint_first (jointNames data) tagName 0)
    as (k & Hk & Hle & Hin & _ & _).
  rewrite <- Hn, Nat2Z.id, Hk. cbn [mbind option_bind].
  destruct (0 + Z.of_nat k >=? Z.of_nat (length (jointNames data))) eqn:E.
  - rewrite Z.geb_leb, Z.leb_le in E.
    exists cleared_orientation, false. split; [reflexivity|]. split; [|reflexivity].
    split; [discriminate|]. intros H. apply Hin in H. lia.
  - rewrite Z.geb_leb, Z.leb_gt in E.
    destruct (ComputeJointMats_in_bounds data startFrame endFrame frac jointMats Hwf Hfr)
      as (out & Hout & Hol); [lia|].
    rewrite Hout. cbn [mbind option_bind].
    destruct (slice12_Some out (12 * (0 + Z.of_nat k))) as [m Hm]; [lia | lia |].
    rewrite Hm. cbn [mbind option_bind].
    eexists _, true. split; [reflexivity|]. split; [|discriminate].
    split; [intros _; apply Hin; lia | reflexivity].
Qed.

(** X16.  For a model without poses the tag of a joint is read off the joint's
    bind matrix, whatever the frames, the fraction and the prior content of
    the buffer: the joint is the first one that carries the name, the
    origin is the last column of its bind matrix and the axes are the
    columns of the rotation part. *)
Theorem R_IQMLerpTag_static (data : iqmData_t) (startFrame endFrame : Z)
  (frac : float) (tagName : string) (jointMats : list float) (k : nat) :
  num_poses data = 0 ->
  Z.of_nat (length (jointNames data)) = num_joints data ->
  Z.of_nat (length (bindJoints data)) = num_joints data * 12 ->
  num_joints data * 12 <= Z.of_nat (length jointMats) ->
  jointNames data !! k = Some tagName ->
  (forall i : nat, (i < k)%nat -> jointNames data !! i <> Some tagName) ->
  R_IQMLerpTag K acosf sinf data startFrame endFrame frac tagName jointMats =
  Some (orientation_of_matrix (take 12 (drop (12 * k) (bindJoints data))), true).
Proof.
  intros Hp Hn Hb Hlen Hk Hfirst. unfold R_IQMLerpTag.
  destruct (find_joint_first (jointNames data) tagName 0)
    as (k' & Hk' & Hle & Hin & Hat & Hbefore).
  pose proof (lookup_lt_Some _ _ _ Hk) as Hklt.
  assert (Hlt : (k' < length (jointNames data))%nat).
  { apply Hin. apply list_elem_of_lookup_2 with k. exact Hk. }
  assert (k' = k).
  { destruct (Nat.lt_trichotomy k' k) as [H | [H | H]]; [|exact H|].
    - exfalso. apply (Hfirst k' H). apply Hat. exact Hlt.
    - exfalso. apply (Hbefore k H). exact Hk. }
  subst k'.
  rewrite <- Hn, Nat2Z.id, Hk'. cbn [mbind option_bind].
  replace (0 + Z.of_nat k >=? Z.of_nat (length (jointNames data))) with false
    by (symmetry; rewrite Z.geb_leb; apply Z.leb_gt; lia).
  unfold ComputeJointMats. rewrite Hp. cbn [Z.eqb].
  rewrite Com_Memcpy_Some by lia. cbn [mbind option_bind].
  rewrite (slice12_app_l _ _ (12 * (0 + Z.of_nat k))) by lia.
  cbn [mbind option_bind].
  replace (Z.to_nat (12 * (0 + Z.of_nat k))) with (12 * k)%nat by lia.
  reflexivity.
Qed.

End EvaluatorBounds.

Lemma sample_iqm_wf : iqm_wf quake3_constants sample_iqm.
Proof.
  unfold iqm_wf. simpl.
  split; [lia|]. split; [right; reflexivity|]. split; [lia|]. split; [lia|].
  split; [reflexivity|]. split; [reflexivity|].
  split; [|split; [reflexivity|split; reflexivity]].
  intros p Hp. apply elem_of_cons in Hp as [-> | Hp]; [lia|].
  apply list_elem_of_singleton in Hp. subst p. lia.
Qed.

Lemma ComputeJointMats_returns_witness :
  exists out,
    ComputeJointMats quake3_constants id id sample_iqm 1 0 lit_0_5 buffer_of_ones
      = Some out /\
    length out = length buffer_of_ones.
Proof.
  apply (ComputeJointMats_returns quake3_constants id id sample_iqm 1 0 lit_0_5
           buffer_of_ones sample_iqm_wf).
  - intros _. simpl. lia.
  - simpl. lia.
Defined.

Lemma R_IQMLerpTag_returns_witness :
  exists o b,
    R_IQMLerpTag quake3_constants id id sample_iqm 0 1 lit_0_5 "hand"
      (replicate 1536 F32.zero) = Some (o, b) /\
    (b = true <-> "hand"%string ∈ jointNames sample_iqm) /\
    (b = false -> o = cleared_orientation).
Proof.
  apply (R_IQMLerpTag_returns quake3_constants id id sample_iqm 0 1 lit_0_5 "hand"
           (replicate 1536 F32.zero) sample_iqm_wf).
  - intros _. simpl. lia.
  - vm_compute. reflexivity.
Defined.

Lemma R_IQMLerpTag_static_witness :
  R_IQMLerpTag quake3_constants id id sample_iqm_static 5 (-2) lit_0_5 "hand"
    buffer_of_ones =
  Some (orientation_of_matrix (take 12 (drop 12 sample_bind)), true).
Proof.
  apply (R_IQMLerpTag_static quake3_constants id id sample_iqm_static 5 (-2) lit_0_5
           "hand" buffer_of_ones 1).
  - reflexivity.
  - reflexivity.
  - reflexivity.
  - simpl. lia.
  - reflexivity.
  - intros i Hi. destruct i as [|i]; [simpl; discriminate | lia].
Defined.

(** ** Frame validation: once is enough, and the wrap *)

(** X17.  The validation is idempotent: an entity that went through it passes
    it unchanged, so that, as the comment in the sources has it, the frames
    need not be range checked again. *)
Theorem validate_frames_idempotent (numFrames : Z) (ent : refEntity_t) :
  validate_frames numFrames (validate_frames numFrames ent) =
  validate_frames numFrames ent.
Proof.
  destruct (Z_lt_ge_dec numFrames 1) as [Hn | Hn].
  - assert (Hreset : forall e, validate_frames numFrames e = mk_refEntity (renderfx e) 0 0).
    { intros e. unfold validate_frames.
      destruct (frame e >=? numFrames) eqn:E1; [reflexivity|].
      destruct (frame e <? 0) eqn:E2; [reflexivity|].
      rewrite Z.geb_leb, Z.leb_gt in E1. rewrite Z.ltb_ge in E2. lia. }
    rewrite !Hreset. reflexivity.
  - apply validate_frames_keeps. apply validate_frames_in_range. lia.
Qed.

(** X18.  With [RF_WRAP_FRAMES] set, R_AddIQMSurfaces reduces frames that are
    not negative modulo the frame count of a model that has frames, and then
    keeps them; for a model without frames the reduction divides by zero. *)
Theorem R_AddIQMSurfaces_frames_wrap (K : constants) (num_frames : Z)
  (ent : refEntity_t) :
  Z.land (renderfx ent) (RF_WRAP_FRAMES K) <> 0 ->
  (1 <= num_frames -> 0 <= frame ent -> 0 <= oldframe ent ->
   R_AddIQMSurfaces_frames K num_frames ent =
   Some (mk_refEntity (renderfx ent) (frame ent mod num_frames)
           (oldframe ent mod num_frames))) /\
  (num_frames = 0 -> R_AddIQMSurfaces_frames K num_frames ent = None).
Proof.
  intros Hflag. apply Z.eqb_neq in Hflag. split.
  - intros Hn Hf Ho. unfold R_AddIQMSurfaces_frames. rewrite Hflag.
    unfold c_rem.
    replace (num_frames =? 0) with false by (symmetry; apply Z.eqb_neq; lia).
    replace (num_frames =? -1) with false by (symmetry; apply Z.eqb_neq; lia).
    rewrite !andb_false_r. cbn [orb].
    rewrite !Z.rem_mod_nonneg by lia.
    f_equal. apply validate_frames_keeps. unfold frames_in_range.
    cbn [frame oldframe].
    pose proof (Z.mod_pos_bound (frame ent) num_frames ltac:(lia)).
    pose proof (Z.mod_pos_bound (oldframe ent) num_frames ltac:(lia)).
    lia.
  - intros ->. unfold R_AddIQMSurfaces_frames. rewrite Hflag. reflexivity.
Qed.

Lemma R_AddIQMSurfaces_frames_wrap_witness :
  R_AddIQMSurfaces_frames quake3_constants 5 (mk_refEntity 512 12 6) =
  Some (mk_refEntity 512 2 1).
Proof.
  destruct (R_AddIQMSurfaces_frames_wrap quake3_constants 5 (mk_refEntity 512 12 6))
    as [Hwrap _]; [vm_compute; discriminate|].
  apply Hwrap; simpl; lia.
Defined.

(** X19.  R_MDRAddAnimSurfaces with [RF_WRAP_FRAMES] set, [header.ident]
    and [header.numFrames] being the values the function reads through its
    header reference, which is bound to the storage of the [modelData]
    pointer and not to the MDR.  When either value is 0 the remainder
    faults.  When [numFrames] is at least 1, [oldframe] is reduced modulo
    [numFrames] but [frame] modulo [ident]: a frame that is not negative and
    below the ident comes out of the reduction as it went in, so that a
    frame at or beyond [numFrames] is not wrapped but makes the validation
    reset both frames to 0. *)
Theorem R_MDRAddAnimSurfaces_frames_wrap (K : constants) (mem : memory_t)
  (currentModel : model_t) (ent : refEntity_t) :
  Z.land (renderfx ent) (RF_WRAP_FRAMES K) <> 0 ->
  (mem_ident_at_modelData mem currentModel = 0 \/
   mem_numFrames_at_modelData mem currentModel = 0 ->
   R_MDRAddAnimSurfaces_frames K mem currentModel ent = None) /\
  (1 <= mem_numFrames_at_modelData mem currentModel ->
   0 <= frame ent < mem_ident_at_modelData mem currentModel ->
   0 <= oldframe ent ->
   R_MDRAddAnimSurfaces_frames K mem currentModel ent =
   Some (if frame ent <? mem_numFrames_at_modelData mem currentModel
         then mk_refEntity (renderfx ent) (frame ent)
                (oldframe ent mod mem_numFrames_at_modelData mem currentModel)
         else mk_refEntity (renderfx ent) 0 0)).
Proof.
  intros Hflag. apply Z.eqb_neq in Hflag.
  unfold R_MDRAddAnimSurfaces_frames. rewrite Hflag.
  generalize (mem_ident_at_modelData mem currentModel) as ident.
  generalize (mem_numFrames_at_modelData mem currentModel) as numFrames.
  intros numFrames ident. split.
  - intros [H | H]; subst; unfold c_rem; cbn [Z.eqb orb].
    + reflexivity.
    + destruct (if _ : bool then None else Some (Z.rem (frame ent) ident));
        reflexivity.
  - intros Hn Hf Ho. unfold c_rem.
    replace (ident =? 0) with false by (symmetry; apply Z.eqb_neq; lia).
    replace (ident =? -1) with false by (symmetry; apply Z.eqb_neq; lia).
    replace (numFrames =? 0) with false by (symmetry; apply Z.eqb_neq; lia).
    replace (numFrames =? -1) with false by (symmetry; apply Z.eqb_neq; lia).
    rewrite !andb_false_r. cbn [orb].
    rewrite (Z.rem_small (frame ent) ident) by lia.
    rewrite (Z.rem_mod_nonneg (oldframe ent) numFrames) by lia.
    pose proof (Z.mod_pos_bound (oldframe ent) numFrames ltac:(lia)) as Hm.
    f_equal. destruct (frame ent <? numFrames) eqn:E.
    + apply Z.ltb_lt in E. apply validate_frames_keeps. unfold frames_in_range.
      cbn [frame oldframe]. lia.
    + unfold validate_frames. cbn [frame oldframe renderfx].
      replace (frame ent >=? numFrames) with true
        by (symmetry; rewrite Z.geb_leb; apply Z.leb_le; apply Z.ltb_ge; exact E).
      reflexivity.
Qed.

(** In the sample memory the value read as [header.numFrames] is 0: the
    wrap of the MDR of the sample registry faults. *)
Lemma R_MDRAddAnimSurfaces_frames_wrap_witness :
  R_MDRAddAnimSurfaces_frames quake3_constants sample_memory
    (mk_model "models/b.mdr" MOD_MDR 2 512 (data_mdr sample_mdr) (fun _ => None) 1)
    (mk_refEntity 512 12 6) = None.
Proof.
  apply (R_MDRAddAnimSurfaces_frames_wrap quake3_constants sample_memory
           (mk_model "models/b.mdr" MOD_MDR 2 512 (data_mdr sample_mdr) (fun _ => None) 1)
           (mk_refEntity 512 12 6)).
  - vm_compute. discriminate.
  - right. reflexivity.
Defined.

(** ** The in-place matrix product of ComputePoseMats *)

Lemma Matrix34Multiply_inplace_other (ks : list nat) (buf : list float)
  (aoff : nat) (b : list float) (ooff i : nat) :
  (forall k, k ∈ ks -> i <> (ooff + k)%nat) ->
  Matrix34Multiply_inplace buf aoff b ooff ks !! i = buf !! i.
Proof.
  revert buf. induction ks as [|k ks IH]; intros buf Hi; [reflexivity|].
  cbn [Matrix34Multiply_inplace]. rewrite IH.
  - apply list_lookup_insert_ne. intros H. apply (Hi k); [left | lia].
  - intros k' Hk'. apply Hi. right. exact Hk'.
Qed.

Lemma Matrix34Multiply_inplace_written (ks : list nat) (buf : list float)
  (aoff : nat) (b : list float) (ooff k : nat) :
  (aoff + 12 <= ooff \/ ooff + 12 <= aoff)%nat ->
  (forall k', k' ∈ ks -> (k' < 12)%nat) ->
  NoDup ks -> k ∈ ks -> (ooff + k < length buf)%nat ->
  Matrix34Multiply_inplace buf aoff b ooff ks !! (ooff + k)%nat =
  Some (Matrix34Multiply_entry (fun j => fget buf (aoff + j)) (fget b) k).
Proof.
  intros Hdis. revert buf. induction ks as [|k0 ks IH]; intros buf Hlt Hnd Hk Hlen.
  - inversion Hk.
  - cbn [Matrix34Multiply_inplace].
    apply NoDup_cons in Hnd as [Hk0 Hnd].
    apply elem_of_cons in Hk as [-> | Hk].
    + rewrite Matrix34Multiply_inplace_other.
      * apply list_lookup_insert_eq. exact Hlen.
      * intros k' Hk' H. apply Hk0. replace k0 with k' by lia. exact Hk'.
    + rewrite IH; [| intros k' Hk'; apply Hlt; right; exact Hk' | exact Hnd | exact Hk
                   | rewrite length_insert; exact Hlen].
      f_equal. apply Matrix34Multiply_entry_ext. intros j Hj.
      apply fget_agree. apply list_lookup_insert_ne.
      pose proof (Hlt k0 ltac:(left)). lia.
Qed.

(** X20.  The third product of ComputePoseMats writes its result into the
    buffer it reads the parent matrix from.  When the two twelve-float
    blocks do not overlap, that is when a joint is not its own parent, the
    block written is the matrix product of the parent block as it was and
    the second operand, and the rest of the buffer is unchanged. *)
Theorem Matrix34Multiply_inplace_disjoint (buf b : list float) (aoff ooff : nat) :
  (aoff + 12 <= ooff \/ ooff + 12 <= aoff)%nat ->
  (aoff + 12 <= length buf)%nat -> (ooff + 12 <= length buf)%nat ->
  Matrix34Multiply_inplace buf aoff b ooff (seq 0 12) =
  take ooff buf ++ Matrix34Multiply (take 12 (drop aoff buf)) b ++ drop (ooff + 12) buf.
Proof.
  intros Hdis Ha Ho. apply list_eq. intros i.
  destruct (decide (i < ooff)%nat) as [H1 | H1].
  - rewrite Matrix34Multiply_inplace_other by (intros k _; lia).
    rewrite lookup_app_l by (rewrite length_take; lia).
    rewrite lookup_take_lt by lia. reflexivity.
  - destruct (decide (i < ooff + 12)%nat) as [H2 | H2].
    + replace i with (ooff + (i - ooff))%nat at 1 by lia.
      rewrite Matrix34Multiply_inplace_written;
        [| exact Hdis | intros k Hk; apply elem_of_seq in Hk; lia | apply NoDup_seq
         | apply elem_of_seq; lia | lia].
      rewrite lookup_app_r by (rewrite length_take; lia).
      rewrite length_take, Nat.min_l by lia.
      rewrite lookup_app_l by (rewrite Matrix34Multiply_length; lia).
      unfold Matrix34Multiply. rewrite list_lookup_fmap.
      rewrite lookup_seq_lt by lia. cbn [fmap option_fmap option_map Nat.add].
      f_equal. apply Matrix34Multiply_entry_ext. intros j Hj.
      unfold fget. rewrite lookup_take_lt by lia. rewrite lookup_drop. reflexivity.
    + rewrite Matrix34Multiply_inplace_other
        by (intros k Hk; apply elem_of_seq in Hk; lia).
      rewrite lookup_app_r by (rewrite length_take; lia).
      rewrite length_take, Nat.min_l by lia.
      rewrite lookup_app_r by (rewrite Matrix34Multiply_length; lia).
      rewrite Matrix34Multiply_length, lookup_drop. f_equal. lia.
Qed.

Lemma Matrix34Multiply_inplace_disjoint_witness :
  Matrix34Multiply_inplace buffer_of_ones 0 identityMatrix 12 (seq 0 12) =
  take 12 buffer_of_ones ++
  Matrix34Multiply (take 12 (drop 0 buffer_of_ones)) identityMatrix ++
  drop (12 + 12) buffer_of_ones.
Proof.
  apply (Matrix34Multiply_inplace_disjoint buffer_of_ones identityMatrix 0 12).
  - left. lia.
  - simpl. lia.
  - simpl. lia.
Defined.

(** ** The fog volume of a model *)

(** The search returns the first fog, from the start index on, that holds
    the sphere, or 0 when none of the fogs it runs through does. *)
Lemma fog_search_first (fogs : list fog_t) (localOrigin : vec3_t) (radius : float)
  (n : nat) (i : Z) :
  1 <= i -> i + Z.of_nat n <= Z.of_nat (length fogs) ->
  exists r,
    fog_search fogs localOrigin radius n i = Some r /\
    (r = 0 \/ i <= r < i + Z.of_nat n) /\
    (r <> 0 ->
     exists fog, rd fogs r = Some fog /\ fog_holds localOrigin radius fog = true) /\
    (forall k fog, i <= k < (if r =? 0 then i + Z.of_nat n else r) ->
       rd fogs k = Some fog -> fog_holds localOrigin radius fog = false).
Proof.
  revert i. induction n as [|n IH]; intros i Hi Hn.
  - exists 0. cbn [fog_search]. split; [reflexivity|]. split; [left; reflexivity|].
    split; [intros H; contradiction|]. intros k fog Hk. simpl in Hk. lia.
  - cbn [fog_search].
    destruct (rd_in_range fogs i) as [fog Hfog]; [lia|].
    rewrite Hfog. cbn [mbind option_bind].
    destruct (fog_holds localOrigin radius fog) eqn:E.
    + exists i. split; [reflexivity|]. split; [right; lia|].
      split; [intros _; exists fog; split; assumption|].
      intros k fog' Hk. replace (i =? 0) with false in Hk
        by (symmetry; apply Z.eqb_neq; lia). lia.
    + destruct (IH (i + 1)) as (r & Hr & Hrange & Hhit & Hmiss); [lia | lia |].
      exists r. split; [exact Hr|]. split; [lia|]. split; [exact Hhit|].
      intros k fog' Hk Hrd.
      destruct (Z.eq_dec k i) as [-> | Hne]; [congruence|].
      apply (Hmiss k fog'); [|exact Hrd].
      destruct (r =? 0); lia.
Qed.

Section FogNumFacts.

Variable RDF_NOWORLDMODEL : Z.
Variable VectorAdd : vec3_t -> vec3_t -> vec3_t.
Variable VectorSubtract : vec3_t -> vec3_t -> vec3_t.
Variable VectorMA : vec3_t -> float -> vec3_t -> vec3_t.
Variable VectorLength : vec3_t -> float.

(** X21.  R_MDRComputeFogNum returns 0 without looking at the world when the
    scene has no world model.  Otherwise, for a frame of the model and a
    world whose fog table has [numfogs] entries, it returns the number of
    the first fog, counting from 1, that passes the overlap test of the loop
    with the frame's sphere around the entity, or 0 when there is none; fog
    0 is never examined.  A fog passes the test when on none of the three
    axes [origin - radius >= bounds[1]] or [origin + radius <= bounds[0]]:
    the sphere reaches into the box of the fog on every axis and need not
    lie inside it. *)
Theorem R_MDRComputeFogNum_first (rdflags : Z) (w : world_t)
  (frames : list mdrFrameSphere_t) (ent : refEntity_t) (origin : vec3_t) :
  (Z.land rdflags RDF_NOWORLDMODEL <> 0 ->
   forall world,
     R_MDRComputeFogNum RDF_NOWORLDMODEL VectorAdd rdflags world frames ent origin
       = Some 0) /\
  (Z.land rdflags RDF_NOWORLDMODEL = 0 ->
   0 <= frame ent < Z.of_nat (length frames) ->
   Z.of_nat (length (fogs w)) = numfogs w ->
   exists mdrFrame r,
     rd frames (frame ent) = Some mdrFrame /\
     R_MDRComputeFogNum RDF_NOWORLDMODEL VectorAdd rdflags (Some w) frames ent origin
       = Some r /\
     (r = 0 \/ 1 <= r < numfogs w) /\
     (r <> 0 ->
      exists fog, rd (fogs w) r = Some fog /\
        fog_holds (VectorAdd origin (mdr_localOrigin mdrFrame)) (mdr_radius mdrFrame) fog
          = true) /\
     (forall k fog, 1 <= k < (if r =? 0 then numfogs w else r) ->
        rd (fogs w) k = Some fog ->
        fog_holds (VectorAdd origin (mdr_localOrigin mdrFrame)) (mdr_radius mdrFrame) fog
          = false)).
Proof.
  split.
  - intros Hflag world. unfold R_MDRComputeFogNum.
    replace (Z.land rdflags RDF_NOWORLDMODEL =? 0) with false
      by (symmetry; apply Z.eqb_neq; exact Hflag).
    reflexivity.
  - intros Hflag Hframe Hlen. unfold R_MDRComputeFogNum.
    rewrite Hflag. cbn [Z.eqb negb].
    destruct (rd_in_range frames (frame ent) Hframe) as [mdrFrame Hfr].
    exists mdrFrame. rewrite Hfr. cbn [mbind option_bind].
    destruct (Z_lt_ge_dec (numfogs w) 1) as [Hn | Hn].
    + exists 0. replace (Z.to_nat (numfogs w - 1)) with 0%nat by lia.
      split; [reflexivity|]. split; [reflexivity|]. split; [left; reflexivity|].
      split; [intros H; contradiction|]. intros k fog Hk. simpl in Hk. lia.
    + destruct (fog_search_first (fogs w) (VectorAdd origin (mdr_localOrigin mdrFrame))
                  (mdr_radius mdrFrame) (Z.to_nat (numfogs w - 1)) 1)
        as (r & Hr & Hrange & Hhit & Hmiss); [lia | lia |].
      exists r. split; [reflexivity|]. split; [exact Hr|].
      split; [lia|]. split; [exact Hhit|].
      intros k fog Hk. apply Hmiss. destruct (r =? 0); lia.
Qed.

(** X22.  R_ComputeIQMFogNum searches the fogs with the same overlap test:
    it returns the number of the first fog, counting from 1, for which on
    none of the three axes [origin - radius >= bounds[1]] or
    [origin + radius <= bounds[0]], or 0 when there is none, the sphere
    being the one around the centre of the frame's bounding box with half
    the diagonal of the box as radius; a model without bounds is given the
    box from -8 to 8.  The sphere need not lie inside the fog returned. *)
Theorem R_ComputeIQMFogNum_first (rdflags : Z) (w : world_t)
  (bounds : option (list float)) (ent : refEntity_t) (origin : vec3_t) :
  Z.land rdflags RDF_NOWORLDMODEL = 0 ->
  (forall bs, bounds = Some bs ->
     0 <= frame ent /\ 6 * frame ent + 6 <= Z.of_nat (length bs) /\
     6 * frame ent < 2 ^ 31) ->
  Z.of_nat (length (fogs w)) = numfogs w ->
  exists b r,
    match bounds with
    | Some bs => bounds_at bs (6 * frame ent) = Some b
    | None => b = defaultBounds
    end /\
    R_ComputeIQMFogNum RDF_NOWORLDMODEL VectorAdd VectorSubtract VectorMA VectorLength
      rdflags (Some w) bounds ent origin = Some r /\
    (r = 0 \/ 1 <= r < numfogs w) /\
    let localOrigin :=
      VectorAdd origin (VectorMA b.1 lit_0_5 (VectorSubtract b.2 b.1)) in
    let radius := (lit_0_5 * VectorLength (VectorSubtract b.2 b.1))%f32 in
    (r <> 0 ->
     exists fog, rd (fogs w) r = Some fog /\ fog_holds localOrigin radius fog = true) /\
    (forall k fog, 1 <= k < (if r =? 0 then numfogs w else r) ->
       rd (fogs w) k = Some fog -> fog_holds localOrigin radius fog = false).
Proof.
  intros Hflag Hb Hlen. unfold R_ComputeIQMFogNum.
  rewrite Hflag. cbn [Z.eqb negb].
  assert (Hbs : exists b,
             match bounds with
             | Some bs => bounds_at bs (6 * frame ent) = Some b
             | None => b = defaultBounds
             end /\
             match bounds with
             | Some bs => bounds_at bs (s32 (6 * frame ent))
             | None => Some defaultBounds
             end = Some b).
  { destruct bounds as [bs|].
    - destruct (Hb bs eq_refl) as (H0 & H1 & H2).
      rewrite s32_id by (unfold in_s32; lia).
      unfold bounds_at.
      replace (0 <=? 6 * frame ent) with true by (symmetry; apply Z.leb_le; lia).
      replace (6 * frame ent + 6 <=? Z.of_nat (length bs)) with true
        by (symmetry; apply Z.leb_le; lia).
      eexists. split; reflexivity.
    - exists defaultBounds. split; reflexivity. }
  destruct Hbs as (b & Hb1 & Hb2). exists b. rewrite Hb2. cbn [mbind option_bind].
  destruct (Z_lt_ge_dec (numfogs w) 1) as [Hn | Hn].
  - exists 0. replace (Z.to_nat (numfogs w - 1)) with 0%nat by lia.
    split; [exact Hb1|]. split; [reflexivity|]. split; [left; reflexivity|].
    cbn zeta. split; [intros H; contradiction|]. intros k fog Hk. simpl in Hk. lia.
  - destruct (fog_search_first (fogs w)
                (VectorAdd origin (VectorMA b.1 lit_0_5 (VectorSubtract b.2 b.1)))
                (lit_0_5 * VectorLength (VectorSubtract b.2 b.1))%f32
                (Z.to_nat (numfogs w - 1)) 1)
      as (r & Hr & Hrange & Hhit & Hmiss); [lia | lia |].
    exists r. split; [exact Hb1|]. split; [exact Hr|]. split; [lia|].
    cbn zeta. split; [exact Hhit|].
    intros k fog Hk. apply Hmiss. destruct (r =? 0); lia.
Qed.

End FogNumFacts.

(** ** Witnesses on the sample data *)

Lemma R_LerpTag_MDR_unknown_tag_witness :
  R_LerpTag quake3_constants id id sample_memory sample_tr 2 (-3) 7 F32.zero
    "tag_missing" [] =
  Some (cleared_orientation, false).
Proof.
  apply (R_LerpTag_MDR_unknown_tag quake3_constants id id sample_memory sample_tr 2
           (mk_model "models/b.mdr" MOD_MDR 2 512 (data_mdr sample_mdr) (fun _ => None) 1)
           sample_mdr).
  - reflexivity.
  - reflexivity.
  - reflexivity.
  - reflexivity.
  - reflexivity.
  - simpl. intros H. apply list_elem_of_singleton in H. discriminate.
Defined.

Lemma RE_RegisterModel_wf_witness :
  registry_wf (w_tr (sample_RE_RegisterModel "models/foo.md3" sample_world).2).
Proof.
  exact (RE_RegisterModel_wf sample_file sample_FS_ReadFile sample_ident_of
           sample_md3_of sample_R_LoadMDR sample_R_LoadIQM quake3_constants
           sample_COM_GetExtension sample_COM_StripExtension sample_Q_stricmp
           (proj1 sample_decoders_ok) (proj2 sample_decoders_ok)
           "models/foo.md3" sample_world sample_world_wf).
Defined.

Lemma RE_RegisterModel_extends_table_witness :
  let w := sample_world in
  let r := sample_RE_RegisterModel "models/foo.md3" w in
  (w_tr r.2 = w_tr w \/
   (numModels (w_tr w) < MAX_MOD_KNOWN quake3_constants /\
    exists mf, models (w_tr r.2) = models (w_tr w) ++ [mf] /\
               name mf = "models/foo.md3"%string /\ index mf = numModels (w_tr w))) /\
  (forall (i : nat) (m : model_t),
     models (w_tr w) !! i = Some m -> models (w_tr r.2) !! i = Some m) /\
  numModels (w_tr r.2) <= Z.max (numModels (w_tr w)) (MAX_MOD_KNOWN quake3_constants).
Proof.
  exact (RE_RegisterModel_extends_table sample_file sample_FS_ReadFile sample_ident_of
           sample_md3_of sample_R_LoadMDR sample_R_LoadIQM quake3_constants
           sample_COM_GetExtension sample_COM_StripExtension sample_Q_stricmp
           (proj1 sample_decoders_ok) (proj2 sample_decoders_ok)
           "models/foo.md3" sample_world).
Defined.

Lemma RE_RegisterModel_then_lookup_witness :
  let r := sample_RE_RegisterModel "models/foo.md3" sample_world in
  exists m, R_GetModelByHandle (w_tr r.2) r.1 = Some m /\
            name m = "models/foo.md3"%string /\ index m = r.1 /\ type m <> MOD_BAD.
Proof.
  apply (RE_RegisterModel_then_lookup sample_file sample_FS_ReadFile sample_ident_of
           sample_md3_of sample_R_LoadMDR sample_R_LoadIQM quake3_constants
           sample_COM_GetExtension sample_COM_StripExtension sample_Q_stricmp
           (proj1 sample_decoders_ok) (proj2 sample_decoders_ok)
           "models/foo.md3" sample_world sample_world_wf).
  vm_compute. discriminate.
Defined.

Lemma R_MDRComputeFogNum_first_witness :
  exists mdrFrame r,
    rd sample_spheres 0 = Some mdrFrame /\
    R_MDRComputeFogNum 1 sample_VectorAdd 0 (Some sample_fog_world) sample_spheres
      (mk_refEntity 0 0 0) VectorClear = Some r /\
    (r = 0 \/ 1 <= r < 3) /\
    (r <> 0 ->
     exists fog, rd (fogs sample_fog_world) r = Some fog /\
       fog_holds (sample_VectorAdd VectorClear (mdr_localOrigin mdrFrame))
         (mdr_radius mdrFrame) fog = true) /\
    (forall k fog, 1 <= k < (if r =? 0 then 3 else r) ->
       rd (fogs sample_fog_world) k = Some fog ->
       fog_holds (sample_VectorAdd VectorClear (mdr_localOrigin mdrFrame))
         (mdr_radius mdrFrame) fog = false).
Proof.
  apply (proj2 (R_MDRComputeFogNum_first 1 sample_VectorAdd 0 sample_fog_world
                  sample_spheres (mk_refEntity 0 0 0) VectorClear)).
  - reflexivity.
  - cbn [frame length sample_spheres]. lia.
  - reflexivity.
Defined.

Lemma R_ComputeIQMFogNum_first_witness :
  exists b r,
    bounds_at sample_bounds (6 * 0) = Some b /\
    R_ComputeIQMFogNum 1 sample_VectorAdd sample_VectorSubtract sample_VectorMA
      sample_VectorLength 0 (Some sample_fog_world) (Some sample_bounds)
      (mk_refEntity 0 0 0) VectorClear = Some r /\
    (r = 0 \/ 1 <= r < 3) /\
    let localOrigin :=
      sample_VectorAdd VectorClear
        (sample_VectorMA b.1 lit_0_5 (sample_VectorSubtract b.2 b.1)) in
    let radius := (lit_0_5 * sample_VectorLength (sample_VectorSubtract b.2 b.1))%f32 in
    (r <> 0 ->
     exists fog, rd (fogs sample_fog_world) r = Some fog /\
       fog_holds localOrigin radius fog = true) /\
    (forall k fog, 1 <= k < (if r =? 0 then 3 else r) ->
       rd (fogs sample_fog_world) k = Some fog ->
       fog_holds localOrigin radius fog = false).
Proof.
  apply (R_ComputeIQMFogNum_first 1 sample_VectorAdd sample_VectorSubtract
           sample_VectorMA sample_VectorLength 0 sample_fog_world (Some sample_bounds)
           (mk_refEntity 0 0 0) VectorClear).
  - reflexivity.
  - intros bs Hbs. injection Hbs as <-. cbn [frame length sample_bounds]. lia.
  - reflexivity.
Defined.

(** End of the development. *)
